(** * Smart Nib: the summary merger and the LLM client

    A shallow embedding of [src/summarize.ts] ([insertSummarySection]) and of
    the LLM client ([buildRequestBody], [parseResponseContent], [callLLM]),
    with the properties of the specification stated against them; and of
    their callers in [src/main.ts] ([summarizeCurrentNote], [sprinkleAI],
    [loadSettings]) and of the handlers of the settings tab, with properties
    of their own.

    JavaScript strings are sequences of UTF-16 code units; a code unit is
    modelled as a number of [N] and a string as a list of them, so that
    [String.prototype.trim], the regular expressions and [slice] act on the
    same data as in the source. *)

From Stdlib Require Import Ascii String DecimalString.
From Stdlib Require Import List NArith ZArith Bool Lia.
From Stdlib Require QArith DecimalPos.
Import ListNotations.

(* ================================================================= *)
(** ** JavaScript strings *)

Module JS.

Abbreviation char := N.
Abbreviation jsstring := (list char).

(** An ASCII literal of the source, as code units. *)
Definition lit (s : string) : jsstring :=
  map N_of_ascii (list_ascii_of_string s).
Arguments lit s%_string.

Definition nl : char := 10%N.      (* "\n" *)
Definition hash : char := 35%N.    (* "#"  *)
Definition space : char := 32%N.   (* " "  *)

(** WhiteSpace and LineTerminator of ECMAScript: what [trim] removes and
    what [\s] matches. *)
Definition isWhiteSpace (c : char) : bool :=
  ((9 <=? c) && (c <=? 13)          (* \t \n \v \f \r *)
   || (c =? 32)                     (* space *)
   || (c =? 160)                    (* U+00A0 *)
   || (c =? 5760)                   (* U+1680 *)
   || ((8192 <=? c) && (c <=? 8202))(* U+2000 .. U+200A *)
   || (c =? 8232) || (c =? 8233)    (* U+2028, U+2029 *)
   || (c =? 8239) || (c =? 8287)    (* U+202F, U+205F *)
   || (c =? 12288)                  (* U+3000 *)
   || (c =? 65279))%N.              (* U+FEFF *)

Fixpoint trimStart (s : jsstring) : jsstring :=
  match s with
  | c :: t => if isWhiteSpace c then trimStart t else s
  | [] => []
  end.

Definition trimEnd (s : jsstring) : jsstring := rev (trimStart (rev s)).

(** [s.trim()] *)
Definition trim (s : jsstring) : jsstring := trimEnd (trimStart s).

(** [s.slice(n)] and [s.slice(0, n)] for [0 <= n]. *)
Definition sliceFrom (n : nat) (s : jsstring) : jsstring := skipn n s.
Definition sliceTo (n : nat) (s : jsstring) : jsstring := firstn n s.

(** A literal pattern at the current position. *)
Fixpoint startsWith (pat s : jsstring) : bool :=
  match pat, s with
  | [], _ => true
  | p :: pat', c :: s' => (c =? p)%N && startsWith pat' s'
  | _ :: _, [] => false
  end.

(** Canonicalize of a case-insensitive regular expression without the [u]
    flag: the code unit's upper case.  Only the ASCII letters are mapped
    here: a code unit above 127 never canonicalizes to an ASCII one, so
    against the ASCII patterns of this program the outcome is the same. *)
Definition canonicalize (c : char) : char :=
  if ((97 <=? c) && (c <=? 122))%N then (c - 32)%N else c.

(** A literal pattern at the current position, under the [i] flag. *)
Fixpoint startsWithIgnoreCase (pat s : jsstring) : bool :=
  match pat, s with
  | [], _ => true
  | p :: pat', c :: s' =>
      (canonicalize c =? canonicalize p)%N && startsWithIgnoreCase pat' s'
  | _ :: _, [] => false
  end.

(** [pat] occurs somewhere in [s]: [s.includes(pat)]. *)
Fixpoint occursIn (pat s : jsstring) : bool :=
  startsWith pat s
  || match s with [] => false | _ :: t => occursIn pat t end.

(** [pat] occurs somewhere in [s], in any letter case. *)
Fixpoint occursInIgnoreCase (pat s : jsstring) : bool :=
  startsWithIgnoreCase pat s
  || match s with [] => false | _ :: t => occursInIgnoreCase pat t end.

(** [a === b] on strings. *)
Fixpoint eqb (a b : jsstring) : bool :=
  match a, b with
  | [], [] => true
  | c :: a', d :: b' => (c =? d)%N && eqb a' b'
  | _, _ => false
  end.

(** The properties of an object, in insertion order; [o[key]] and
    [o[key] = v]. *)
Fixpoint lookup {V : Type} (key : jsstring) (props : list (jsstring * V))
  : option V :=
  match props with
  | [] => None
  | (k, v) :: rest => if eqb k key then Some v else lookup key rest
  end.

Fixpoint setProp {V : Type} (key : jsstring) (v : V)
  (props : list (jsstring * V)) : list (jsstring * V) :=
  match props with
  | [] => [(key, v)]
  | (k, x) :: rest =>
      if eqb k key then (k, v) :: rest else (k, x) :: setProp key v rest
  end.

(** A string is truthy when it is not empty. *)
Definition truthy (s : jsstring) : bool :=
  match s with [] => false | _ :: _ => true end.

End JS.

(* ================================================================= *)
(** ** Regular expressions

    The backtracking semantics of ECMAScript for the constructs that the
    expressions of the program use.  A matcher takes the state of the match
    (the end index reached and the input from there on) and a continuation,
    and answers with the final state of the first way to match, if any. *)

Module RegExp.
Import JS.

Inductive regex : Type :=
| Empty
| Unit (c : char)          (* a literal code unit *)
| AnyUnit                  (* [\s\S] *)
| Cat (r1 r2 : regex)      (* r1r2 *)
| Or (r1 r2 : regex)       (* r1|r2 *)
| Opt (r : regex)          (* r? *)
| LazyStar (r : regex)     (* r*? *)
| Plus (r : regex)         (* r+ *)
| Ahead (r : regex)        (* (?=r) *)
| InputStart               (* ^ without the m flag *)
| InputEnd.                (* $ without the m flag *)

(** A literal text. *)
Definition Text (s : jsstring) : regex :=
  fold_right (fun c r => Cat (Unit c) r) Empty s.

Definition state : Type := nat * jsstring.
Definition continuation : Type := state -> option state.
Definition matcher : Type := state -> continuation -> option state.

(** Two code units match; under the [i] flag, when they canonicalize to the
    same one. *)
Definition sameUnit (ignoreCase : bool) (a b : char) : bool :=
  if ignoreCase then (canonicalize a =? canonicalize b)%N else (a =? b)%N.

(** [r*?]: the continuation first, then one more [r].  An iteration that
    consumes nothing fails; the others are at most as many as the code
    units left, which is the fuel. *)
Fixpoint lazyLoop (m : matcher) (k : continuation) (fuel : nat) (x : state)
  : option state :=
  match k x with
  | Some z => Some z
  | None =>
      match fuel with
      | 0 => None
      | S fuel' =>
          m x (fun y => if fst x <? fst y then lazyLoop m k fuel' y else None)
      end
  end.

(** The iterations of [r+] after the first: one more [r] first, then the
    continuation. *)
Fixpoint greedyLoop (m : matcher) (k : continuation) (fuel : nat) (x : state)
  : option state :=
  match
    match fuel with
    | 0 => None
    | S fuel' =>
        m x (fun y => if fst x <? fst y then greedyLoop m k fuel' y else None)
    end
  with
  | Some z => Some z
  | None => k x
  end.

Fixpoint run (ignoreCase : bool) (r : regex) (x : state) (k : continuation)
  {struct r} : option state :=
  match r with
  | Empty => k x
  | Unit c =>
      match snd x with
      | d :: t => if sameUnit ignoreCase d c then k (S (fst x), t) else None
      | [] => None
      end
  | AnyUnit =>
      match snd x with
      | _ :: t => k (S (fst x), t)
      | [] => None
      end
  | Cat r1 r2 => run ignoreCase r1 x (fun y => run ignoreCase r2 y k)
  | Or r1 r2 =>
      match run ignoreCase r1 x k with
      | Some z => Some z
      | None => run ignoreCase r2 x k
      end
  | Opt r1 =>
      match run ignoreCase r1 x k with
      | Some z => Some z
      | None => k x
      end
  | LazyStar r1 => lazyLoop (run ignoreCase r1) k (length (snd x)) x
  | Plus r1 =>
      run ignoreCase r1 x
        (fun y => greedyLoop (run ignoreCase r1) k (length (snd y)) y)
  | Ahead r1 =>
      match run ignoreCase r1 x Some with
      | Some _ => k x
      | None => None
      end
  | InputStart => if fst x =? 0 then k x else None
  | InputEnd =>
      match snd x with
      | [] => k x
      | _ :: _ => None
      end
  end.

(** The result of [String.prototype.match] for a regular expression without
    the [g] flag: [match.index] and [match[0]]. *)
Record RegExpMatch := { index : nat; matched : jsstring }.

(** The leftmost match: the start indices are tried in turn, from [i] on. *)
Fixpoint execFrom (ignoreCase : bool) (r : regex) (i : nat) (s : jsstring)
  : option RegExpMatch :=
  match run ignoreCase r (i, s) Some with
  | Some y => Some {| index := i; matched := firstn (fst y - i) s |}
  | None =>
      match s with
      | [] => None
      | _ :: t => execFrom ignoreCase r (S i) t
      end
  end.

(** [s.match(r)] *)
Definition exec (ignoreCase : bool) (r : regex) (s : jsstring)
  : option RegExpMatch :=
  execFrom ignoreCase r 0 s.

(** [s.replace(r, by)] for a text [by] without [$]. *)
Definition replace (ignoreCase : bool) (r : regex) (by_ s : jsstring)
  : jsstring :=
  match exec ignoreCase r s with
  | Some m =>
      firstn (index m) s ++ by_ ++ skipn (index m + length (matched m)) s
  | None => s
  end.

(** Whether a matcher found a way to match. *)
Definition found (o : option state) : bool :=
  match o with Some _ => true | None => false end.

(** The first state, from [(i, s)] on and one code unit at a time, that the
    continuation accepts: what [[\s\S]*?] followed by [k] comes to. *)
Fixpoint firstAt (k : continuation) (i : nat) (s : jsstring) : option state :=
  match k (i, s) with
  | Some z => Some z
  | None =>
      match s with
      | [] => None
      | _ :: t => firstAt k (S i) t
      end
  end.

End RegExp.

(* ================================================================= *)
(** ** src/summarize.ts *)

Module Summarize.
Import JS RegExp.

(** *** buildSummaryPrompt *)

Definition buildSummaryPrompt (noteContent noteTitle : jsstring) : jsstring :=
  lit "You are a helpful assistant that summarizes notes concisely."
  ++ [nl; nl]
  ++ lit "## Task" ++ [nl]
  ++ lit "Summarize the following note in 2-4 sentences. Focus on the key points and main takeaways."
  ++ [nl; nl]
  ++ lit "## Instructions" ++ [nl]
  ++ lit "- Output markdown only - no code blocks, no explanations, no preamble"
  ++ [nl]
  ++ lit "- Be concise and direct" ++ [nl]
  ++ lit "- Capture the essence of the note" ++ [nl]
  ++ lit "- Do not include a heading - just the summary text" ++ [nl; nl]
  ++ lit "## Note Title" ++ [nl]
  ++ noteTitle ++ [nl; nl]
  ++ lit "## Note Content" ++ [nl]
  ++ noteContent ++ [nl; nl]
  ++ lit "## Summary".

(** *** The regular expressions *)

(** [/^---\n[\s\S]*?\n---/] *)
Definition frontmatterPattern : regex :=
  Cat InputStart
    (Cat (Text (lit "---" ++ [nl]))
       (Cat (LazyStar AnyUnit) (Text (nl :: lit "---")))).

(** [/##? summary[\s\S]*?(?=\n#+ |$)/i] *)
Definition summaryPattern : regex :=
  Cat (Unit hash)
    (Cat (Opt (Unit hash))
       (Cat (Text (lit " summary"))
          (Cat (LazyStar AnyUnit)
             (Ahead (Or (Cat (Unit nl) (Cat (Plus (Unit hash)) (Unit space)))
                        InputEnd))))).

(** [/^\n+/] *)
Definition leadingNewlines : regex := Cat InputStart (Plus (Unit nl)).

(** *** insertSummarySection *)

Definition insertSummarySection (content summary : jsstring) : jsstring :=
  let trimmedSummary := trim summary in
  let summarySection := lit "# Summary" ++ [nl; nl] ++ trimmedSummary in
  let frontmatterMatch := exec false frontmatterPattern content in
  let frontmatter :=
    match frontmatterMatch with Some m => matched m | None => [] end in
  let bodyContent :=
    match frontmatterMatch with
    | Some _ => sliceFrom (length frontmatter) content
    | None => content
    end in
  let bodyContent :=
    match exec true summaryPattern bodyContent with
    | Some existingSummaryMatch =>
        let beforeSummary :=
          sliceTo (index existingSummaryMatch) bodyContent in
        let afterSummary :=
          sliceFrom (index existingSummaryMatch
                     + length (matched existingSummaryMatch)) bodyContent in
        let cleanAfter := replace false leadingNewlines [] afterSummary in
        if truthy cleanAfter
        then beforeSummary ++ summarySection ++ [nl; nl] ++ cleanAfter
        else beforeSummary ++ summarySection ++ [nl]
    | None =>
        let trimmedBody := trim bodyContent in
        if truthy trimmedBody
        then [nl; nl] ++ summarySection ++ [nl; nl] ++ trimmedBody
        else [nl; nl] ++ summarySection ++ [nl]
    end in
  match frontmatterMatch with
  | Some _ => frontmatter ++ bodyContent
  | None => replace false leadingNewlines [] bodyContent
  end.

(** *** The expressions as functions

    What the three expressions compute, written as recursive functions on
    the input; the properties are proved on these, and they are proved to
    agree with the expressions. *)

(** What [s.replace(/^\n+/, "")] computes. *)
Fixpoint stripLeadingNewlines (s : jsstring) : jsstring :=
  match s with
  | c :: t => if (c =? nl)%N then stripLeadingNewlines t else s
  | [] => []
  end.

(** [[\s\S]*?] followed by the literal [pat]: the number of code units the
    lazy quantifier consumes before the first place where [pat] starts. *)
Fixpoint lazyUntil (pat s : jsstring) : option nat :=
  if startsWith pat s then Some 0
  else match s with
       | [] => None
       | _ :: t => option_map S (lazyUntil pat t)
       end.

(** What [content.match(/^---\n[\s\S]*?\n---/)] finds: the matched text,
    [match[0]], at index 0. *)
Definition frontmatterRegex (content : jsstring) : option jsstring :=
  if startsWith (lit "---" ++ [nl]) content then
    match lazyUntil (nl :: lit "---") (skipn 4 content) with
    | Some k => Some (firstn (4 + k + 4) content)
    | None => None
    end
  else None.

(** [#* ] after a first [#]: the rest of the greedy [#+ ]. *)
Fixpoint hashesThenSpace (s : jsstring) : bool :=
  match s with
  | c :: t => if (c =? hash)%N then hashesThenSpace t else (c =? space)%N
  | [] => false
  end.

(** [\n#+ ] at the current position. *)
Definition headingAhead (s : jsstring) : bool :=
  match s with
  | c1 :: c2 :: t => (c1 =? nl)%N && (c2 =? hash)%N && hashesThenSpace t
  | _ => false
  end.

(** The lookahead [(?=\n#+ |$)]; without the [m] flag [$] is the end of the
    input. *)
Definition sectionEndAhead (s : jsstring) : bool :=
  headingAhead s || negb (truthy s).

(** [[\s\S]*?(?=\n#+ |$)]: the number of code units the lazy quantifier
    consumes. *)
Fixpoint lazySection (s : jsstring) : nat :=
  if sectionEndAhead s then 0
  else match s with
       | [] => 0
       | _ :: t => S (lazySection t)
       end.

(** [##? summary] under the [i] flag at the current position: the length of
    the text it matches.  The optional [#] is greedy, so the two-hash
    reading is tried first. *)
Definition summaryHead (s : jsstring) : option nat :=
  if startsWithIgnoreCase (lit "## summary") s then Some 10
  else if startsWithIgnoreCase (lit "# summary") s then Some 9
  else None.

(** The whole of [/##? summary[\s\S]*?(?=\n#+ |$)/i] at the current
    position: the length of the match. *)
Definition summaryAt (s : jsstring) : option nat :=
  match summaryHead s with
  | Some n => Some (n + lazySection (skipn n s))
  | None => None
  end.

(** The leftmost match, looked for from position [i] on. *)
Fixpoint summaryRegexFrom (i : nat) (s : jsstring) : option RegExpMatch :=
  match summaryAt s with
  | Some n => Some {| index := i; matched := firstn n s |}
  | None => match s with
            | [] => None
            | _ :: t => summaryRegexFrom (S i) t
            end
  end.

(** What [bodyContent.match(/##? summary[\s\S]*?(?=\n#+ |$)/i)] finds. *)
Definition summaryRegex (s : jsstring) : option RegExpMatch :=
  summaryRegexFrom 0 s.

(** *** Notions of the specification

    The body transformation of [insertSummarySection] on its own, and the
    plain-language conditions the properties below are stated with. *)

(** The canonical block, [summarySection] in the source. *)
Definition summarySection (summary : jsstring) : jsstring :=
  lit "# Summary" ++ [nl; nl] ++ trim summary.

(** What [insertSummarySection] assigns to [bodyContent], with the
    expressions as functions. *)
Definition mergeBody (bodyContent summary : jsstring) : jsstring :=
  match summaryRegex bodyContent with
  | Some existingSummaryMatch =>
      let beforeSummary :=
        sliceTo (index existingSummaryMatch) bodyContent in
      let afterSummary :=
        sliceFrom (index existingSummaryMatch
                   + length (matched existingSummaryMatch)) bodyContent in
      let cleanAfter := stripLeadingNewlines afterSummary in
      if truthy cleanAfter
      then beforeSummary ++ summarySection summary ++ [nl; nl] ++ cleanAfter
      else beforeSummary ++ summarySection summary ++ [nl]
  | None =>
      let trimmedBody := trim bodyContent in
      if truthy trimmedBody
      then [nl; nl] ++ summarySection summary ++ [nl; nl] ++ trimmedBody
      else [nl; nl] ++ summarySection summary ++ [nl]
  end.

(** The opening line of a frontmatter block, and the newline and dashes
    that close it. *)
Definition fmOpen : jsstring := lit "---" ++ [nl].
Definition fmClose : jsstring := nl :: lit "---".

(** The content starts with the line [---] and a later line starts with
    [---]. *)
Definition hasFrontmatter (content : jsstring) : bool :=
  startsWith fmOpen content && occursIn fmClose (skipn 4 content).

(** The text [# summary] occurs in the body, in any letter case (the text
    [## summary] contains it). *)
Definition hasSummaryPattern (body : jsstring) : bool :=
  occursInIgnoreCase (lit "# summary") body.

(** The [frontmatter] and the first [bodyContent] of the source. *)
Definition frontmatterOf (content : jsstring) : jsstring :=
  match frontmatterRegex content with Some m => m | None => [] end.

Definition bodyOf (content : jsstring) : jsstring :=
  sliceFrom (length (frontmatterOf content)) content.

(** The lines of a text. *)
Fixpoint lines (s : jsstring) : list jsstring :=
  match s with
  | [] => [[]]
  | c :: t =>
      if (c =? nl)%N then [] :: lines t
      else match lines t with
           | l :: ls => (c :: l) :: ls
           | [] => [[c]]
           end
  end.

(** A heading of level 1 or 2 whose text is literally [summary], in any
    letter case: the whole line is [# summary] or [## summary]. *)
Definition isSummaryHeading (line : jsstring) : bool :=
  ((length line =? 9) && startsWithIgnoreCase (lit "# summary") line)
  || ((length line =? 10) && startsWithIgnoreCase (lit "## summary") line).

Definition hasSummaryHeading (body : jsstring) : bool :=
  existsb isSummaryHeading (lines body).

(** A frontmatter block delimited by [---] lines, read by lines and not by
    the expression of the code: the first line of the content is [---], a
    later line is [---], and the block is the text from the start of the
    content to the end of the first such later line.  [closingLine] gives
    the lines between the two delimiters. *)
Fixpoint closingLine (ls : list jsstring) : option (list jsstring) :=
  match ls with
  | [] => None
  | l :: ls' =>
      if eqb l (lit "---") then Some []
      else option_map (cons l) (closingLine ls')
  end.

Definition frontmatterBlock (content : jsstring) : option jsstring :=
  match lines content with
  | first :: others =>
      if eqb first (lit "---") then
        option_map
          (fun interior =>
             lit "---" ++ concat (map (cons nl) interior) ++ nl :: lit "---")
          (closingLine others)
      else None
  | [] => None
  end.

(** A heading ([\n#+ ]) starts somewhere in [s]. *)
Fixpoint occursHeading (s : jsstring) : bool :=
  headingAhead s
  || match s with [] => false | _ :: t => occursHeading t end.

(** The declarative reading of the summary expression: [hd] is the first
    place of the body where [##? summary] matches, [sec] runs from there to
    the next [\n#+ ] or to the end of the body, and [pre] and [rest] are what
    is before and after. *)
Definition summarySpan (body pre hd sec rest : jsstring) : Prop :=
  body = pre ++ hd ++ sec ++ rest
  /\ summaryHead (hd ++ sec ++ rest) = Some (length hd)
  /\ (forall j, j < length pre -> summaryHead (skipn j body) = None)
  /\ (forall j, j < length sec -> headingAhead (skipn j (sec ++ rest)) = false)
  /\ (rest = [] \/ headingAhead rest = true).

End Summarize.

(* ================================================================= *)
(** ** The LLM client *)

Module LLMClient.
Import JS.

(** What a [throw] carries, as far as [callLLM] tells the cases apart: an
    instance of the client's [LLMError], another [Error] (a [TypeError], a
    network failure), or a value that is no [Error], with [String(value)]. *)
Inductive thrown : Type :=
| LLMError (message : jsstring)
| OtherError (message : jsstring)
| NotAnError (asString : jsstring).

(** A call returns or throws. *)
Inductive completion (A : Type) : Type :=
| Return (a : A)
| Throw (e : thrown).
Arguments Return {A} a.
Arguments Throw {A} e.

Definition bind {A B : Type} (c : completion A) (k : A -> completion B)
  : completion B :=
  match c with
  | Return a => k a
  | Throw e => Throw e
  end.

Notation "x <- c ;; k" := (bind c (fun x => k))
  (at level 61, c at next level, right associativity).

(** [type LLMProvider = "ollama" | "openai"] *)
Inductive LLMProvider : Type := ollama | openai.

(** The text of an integer, [`${n}`]. *)
Definition intToString (z : Z) : jsstring :=
  lit (NilZero.string_of_int (Z.to_int z)).

(** The message of the [TypeError] for a property read on [null] (the
    wording of V8). *)
Definition nullPropertyError (key : jsstring) : thrown :=
  OtherError (lit "Cannot read properties of null (reading '" ++ key
              ++ lit "')").

Section Client.

Set Implicit Arguments.
Set Warnings "-register-all".

(** JavaScript numbers are carried around and never computed with. *)
Variable number : Type.

(** The values of JSON. *)
Inductive value : Type :=
| VNull
| VBool (b : bool)
| VNumber (n : number)
| VString (s : jsstring)
| VArray (items : list value)
| VObject (props : list (jsstring * value)).

Record LLMConfig : Type := {
  provider : LLMProvider;
  baseUrl : jsstring;
  endpointPath : jsstring;
  model : jsstring;
  apiKeyHeaderName : option jsstring;
  apiKeyHeaderValue : option jsstring;
  temperature : number;
  maxTokens : number;
  timeoutSeconds : number
}.

(** *** buildRequestBody *)

Definition buildRequestBody (config : LLMConfig) (prompt : jsstring)
  : list (jsstring * value) :=
  let base :=
    [ (lit "model", VString (model config));
      (lit "messages",
       VArray [VObject [ (lit "role", VString (lit "user"));
                         (lit "content", VString prompt) ]]);
      (lit "stream", VBool false) ] in
  match provider config with
  | openai =>
      base ++ [ (lit "temperature", VNumber (temperature config));
                (lit "max_tokens", VNumber (maxTokens config)) ]
  | ollama =>
      base ++ [ (lit "options",
                 VObject [ (lit "temperature", VNumber (temperature config));
                           (lit "num_predict", VNumber (maxTokens config)) ]) ]
  end.

(** *** parseResponseContent *)

(** [v.key] for a key that no prototype defines: a [TypeError] on [null],
    the property of an object, [undefined] ([None]) otherwise. *)
Definition member (v : value) (key : jsstring) : completion (option value) :=
  match v with
  | VNull => Throw (nullPropertyError key)
  | VObject props => Return (lookup key props)
  | _ => Return None
  end.

(** [v?.key]: [undefined] when [v] is [undefined] or [null]. *)
Definition optMember (v : option value) (key : jsstring) : option value :=
  match v with
  | Some (VObject props) => lookup key props
  | _ => None
  end.

(** [v?.[0]]: the first element of an array, the first code unit of a
    string, the property ["0"] of an object. *)
Definition optFirst (v : option value) : option value :=
  match v with
  | Some (VArray items) => nth_error items 0
  | Some (VString (c :: _)) => Some (VString [c])
  | Some (VObject props) => lookup (lit "0") props
  | _ => None
  end.

Definition parseResponseContent (provider : LLMProvider) (json : value)
  : completion jsstring :=
  match provider with
  | openai =>
      choices <- member json (lit "choices") ;;
      match optMember (optMember (optFirst choices) (lit "message"))
              (lit "content") with
      | Some (VString content) => Return content
      | _ => Throw (LLMError (lit "Unexpected response format: missing choices[0].message.content"))
      end
  | ollama =>
      message <- member json (lit "message") ;;
      match optMember message (lit "content") with
      | Some (VString content) => Return content
      | _ => Throw (LLMError (lit "Unexpected response format: missing message content"))
      end
  end.

(** *** callLLM *)

Record RequestUrlParam : Type := {
  url : jsstring;
  method : jsstring;
  headers : list (jsstring * jsstring);
  body : jsstring;
  throw : bool
}.

Record RequestUrlResponse : Type := {
  status : Z;
  json : value
}.

(** The injected transport, [requestUrlImpl]: it answers a request from a
    state of its own.  [JSON.stringify] is the platform's. *)
Variable World : Type.
Variable requestUrlImpl :
  RequestUrlParam -> World -> completion RequestUrlResponse * World.
Variable JSON_stringify : value -> jsstring.

(** A run of the client: the state of the transport and the requests it
    has been invoked with. *)
Record Run : Type := { world : World; calls : list RequestUrlParam }.

Definition invoke (request : RequestUrlParam) (r : Run)
  : completion RequestUrlResponse * Run :=
  let (answer, w) := requestUrlImpl request (world r) in
  (answer, {| world := w; calls := calls r ++ [request] |}).

(** The [try] block of one attempt. *)
Definition tryAttempt (config : LLMConfig) (request : RequestUrlParam)
  (r : Run) : completion jsstring * Run :=
  let (answer, r') := invoke request r in
  (response <- answer ;;
   if (400 <=? status response)%Z
   then Throw (LLMError (lit "LLM request failed: "
                         ++ intToString (status response)))
   else parseResponseContent (provider config) (json response),
   r').

(** [error instanceof Error ? error : new Error(String(error))], then
    [.message]. *)
Definition messageOf (e : thrown) : jsstring :=
  match e with
  | LLMError m | OtherError m => m
  | NotAnError s => s
  end.

(** The [for] loop over the attempts still to make, with its [catch], and
    the [throw] after the loop. *)
Fixpoint attempts (schedule : list nat) (lastError : option jsstring)
  (config : LLMConfig) (request : RequestUrlParam) (r : Run)
  : completion jsstring * Run :=
  match schedule with
  | [] =>
      (Throw (LLMError match lastError with
                       | Some m => m
                       | None => lit "Unknown error"
                       end), r)
  | attempt :: later =>
      match tryAttempt config request r with
      | (Return content, r') => (Return content, r')
      | (Throw (LLMError m), r') => (Throw (LLMError m), r')
      | (Throw error, r') =>
          let lastError := messageOf error in
          if attempt =? 1
          then (Throw (LLMError (lit "Network error after retry: "
                                 ++ lastError)), r')
          else attempts later (Some lastError) config request r'
      end
  end.

Definition callLLM (config : LLMConfig) (prompt : jsstring) (r : Run)
  : completion jsstring * Run :=
  let url := baseUrl config ++ endpointPath config in
  let headers := [(lit "Content-Type", lit "application/json")] in
  let headers :=
    match apiKeyHeaderName config, apiKeyHeaderValue config with
    | Some name, Some v =>
        if truthy name && truthy v then setProp name v headers else headers
    | _, _ => headers
    end in
  let body := JSON_stringify (VObject (buildRequestBody config prompt)) in
  attempts (seq 0 2) None config
    {| url := url; method := lit "POST"; headers := headers; body := body;
       throw := false |} r.

(** *** Notions of the specification *)

(** The request that [callLLM] hands to the transport. *)
Definition requestOf (config : LLMConfig) (prompt : jsstring)
  : RequestUrlParam :=
  {| url := baseUrl config ++ endpointPath config;
     method := lit "POST";
     headers :=
       match apiKeyHeaderName config, apiKeyHeaderValue config with
       | Some name, Some v =>
           if truthy name && truthy v
           then setProp name v [(lit "Content-Type", lit "application/json")]
           else [(lit "Content-Type", lit "application/json")]
       | _, _ => [(lit "Content-Type", lit "application/json")]
       end;
     body := JSON_stringify (VObject (buildRequestBody config prompt));
     throw := false |}.

(** A field path such as [choices[0].message.content], and the value found
    by following it; nothing is found below [null] or a missing field. *)
Inductive step : Type := Key (k : jsstring) | First.

Fixpoint fieldAt (path : list step) (v : value) : option value :=
  match path with
  | [] => Some v
  | st :: rest =>
      match (match st with
             | Key k => optMember (Some v) k
             | First => optFirst (Some v)
             end) with
      | Some v' => fieldAt rest v'
      | None => None
      end
  end.

Definition openaiPath : list step :=
  [Key (lit "choices"); First; Key (lit "message"); Key (lit "content")].

Definition ollamaPath : list step :=
  [Key (lit "message"); Key (lit "content")].

(** The two errors of [parseResponseContent]. *)
Definition openaiFormatError : thrown :=
  LLMError (lit "Unexpected response format: missing choices[0].message.content").

Definition ollamaFormatError : thrown :=
  LLMError (lit "Unexpected response format: missing message content").

(** The error is the client's own kind. *)
Definition isLLMError (e : thrown) : bool :=
  match e with LLMError _ => true | _ => false end.

(** The messages of the errors that [callLLM] throws: the status of an HTTP
    error, the format error of the provider, the network error after the
    retry, and the message of an [LLMError] that the transport itself
    threw. *)
Definition failure (config : LLMConfig) (m : jsstring) : Prop :=
  (exists code : Z,
      (400 <= code)%Z /\ m = lit "LLM request failed: " ++ intToString code)
  \/ m = messageOf match provider config with
                   | openai => openaiFormatError
                   | ollama => ollamaFormatError
                   end
  \/ (exists x, m = lit "Network error after retry: " ++ x)
  \/ (exists request w w',
         requestUrlImpl request w = (Throw (LLMError m), w')).

End Client.

Unset Implicit Arguments.

Arguments VNull {number}.
Arguments VBool {number} b.
Arguments VNumber {number} n.
Arguments VString {number} s.
Arguments VArray {number} items.
Arguments VObject {number} props.

(** The configuration of the test suite, with rational numbers. *)
Definition baseConfig : LLMConfig QArith_base.Q :=
  {| provider := ollama;
     baseUrl := lit "http://localhost:11434";
     endpointPath := lit "/api/chat";
     model := lit "llama3.1";
     apiKeyHeaderName := None;
     apiKeyHeaderValue := None;
     temperature := QArith_base.Qmake 1 5;
     maxTokens := QArith_base.Qmake 1000 1;
     timeoutSeconds := QArith_base.Qmake 60 1 |}.

(** A transport that answers every request with status 200 and the JSON
    body [null]. *)
Definition nullTransport (request : RequestUrlParam) (w : unit)
  : completion (RequestUrlResponse QArith_base.Q) * unit :=
  (Return {| status := 200; json := VNull |}, w).

(** The mocks of the test suite: a transport that fails every time, one
    that fails once and then answers, and one that answers with a given
    status; and a stand-in for [JSON.stringify]. *)
Definition failingTransport (request : RequestUrlParam) (n : nat)
  : completion (RequestUrlResponse QArith_base.Q) * nat :=
  (Throw (OtherError (lit "Network error " ++ intToString (Z.of_nat (S n)))),
   S n).

Definition flakyTransport (request : RequestUrlParam) (n : nat)
  : completion (RequestUrlResponse QArith_base.Q) * nat :=
  (if n =? 0 then Throw (OtherError (lit "Network error"))
   else Return
          {| status := 200;
             json := VObject
                       [(lit "message",
                         VObject [(lit "content",
                                   VString (lit "Success on retry"))])] |},
   S n).

Definition statusTransport (code : Z) (request : RequestUrlParam) (w : unit)
  : completion (RequestUrlResponse QArith_base.Q) * unit :=
  (Return {| status := code; json := VObject [] |}, w).

Definition noStringify (v : value QArith_base.Q) : jsstring := lit "{}".

End LLMClient.

(* ================================================================= *)
(** ** src/main.ts *)

Module Plugin.
Import JS Summarize LLMClient.

(** A file of the vault, as far as the plugin looks at it. *)
Record TFile : Type := { path : jsstring; basename : jsstring }.

(** [new Notice(message, duration)]; a duration of 0 keeps the notice on
    screen until it is clicked. *)
Record Notice : Type := { message : jsstring; duration : option Z }.

Record EditorPosition : Type := { line : nat; ch : nat }.

(** What the review modal resolves to; a value that is none of the three
    strings falls through the [switch]. *)
Inductive SprinkleReviewResult : Type := accept | retry | reject | noCase.

Section Main.

Set Implicit Arguments.

Variable number : Type.

(** The platform: the transport of the LLM client, the vault, the editor
    and the user in front of the modals, all over one state. *)
Variable World : Type.
Variable requestUrlImpl :
  RequestUrlParam -> World -> completion (RequestUrlResponse number) * World.
Variable JSON_stringify : value number -> jsstring.
Variable vault_read : TFile -> World -> completion jsstring * World.
Variable vault_modify : TFile -> jsstring -> World -> completion unit * World.
Variable editor_getSelection : World -> jsstring.
Variable editor_getCursor_from : World -> EditorPosition.
Variable editor_replaceRange :
  jsstring -> EditorPosition -> World -> completion unit * World.
Variable showSprinklePromptModal :
  jsstring -> World -> option jsstring * World.
Variable showSprinkleReviewModal :
  jsstring -> World -> SprinkleReviewResult * World.

(** [buildSprinklePrompt] of [src/sprinkle.ts], of which the command uses
    the result only. *)
Variable buildSprinklePrompt : jsstring -> jsstring -> jsstring.

(** The plugin at work: [this.settings.llm], the state of the platform with
    the requests made, and what the plugin has shown, written and logged. *)
Record App : Type := {
  llm : LLMConfig number;
  client : Run World;
  notices : list Notice;
  modifications : list (TFile * jsstring);
  replacements : list (jsstring * EditorPosition);
  console : list (jsstring * thrown)
}.

(** An asynchronous method: it changes the state and resolves or
    rejects. *)
Definition action (A : Type) : Type := App -> completion A * App.

Definition ret {A : Type} (a : A) : action A := fun s => (Return a, s).

Definition andThen {A B : Type} (c : action A) (k : A -> action B)
  : action B :=
  fun s =>
    match c s with
    | (Return a, s') => k a s'
    | (Throw e, s') => (Throw e, s')
    end.

Definition tryCatch {A : Type} (c : action A) (handler : thrown -> action A)
  : action A :=
  fun s =>
    match c s with
    | (Return a, s') => (Return a, s')
    | (Throw e, s') => handler e s'
    end.

Notation "x <~ c ;; k" := (andThen c (fun x => k))
  (at level 61, c at next level, right associativity).
Notation "c ;;; k" := (andThen c (fun _ => k))
  (at level 61, right associativity).

(** A call into the platform. *)
Definition onPlatform {A : Type} (f : World -> A * World) (s : App)
  : A * App :=
  let (a, w) := f (world (client s)) in
  (a, {| llm := llm s;
         client := {| world := w; calls := calls (client s) |};
         notices := notices s;
         modifications := modifications s;
         replacements := replacements s;
         console := console s |}).

Definition newNotice (message : jsstring) (duration : option Z)
  : action unit :=
  fun s =>
    (Return tt,
     {| llm := llm s; client := client s;
        notices := notices s ++ [{| message := message;
                                    duration := duration |}];
        modifications := modifications s;
        replacements := replacements s;
        console := console s |}).

Definition console_error (label : jsstring) (error : thrown) : action unit :=
  fun s =>
    (Return tt,
     {| llm := llm s; client := client s; notices := notices s;
        modifications := modifications s;
        replacements := replacements s;
        console := console s ++ [(label, error)] |}).

(** [this.app.vault.read(file)] *)
Definition read (file : TFile) : action jsstring :=
  onPlatform (vault_read file).

(** [this.app.vault.modify(file, data)] *)
Definition modify (file : TFile) (data : jsstring) : action unit :=
  fun s =>
    onPlatform (vault_modify file data)
      {| llm := llm s; client := client s; notices := notices s;
         modifications := modifications s ++ [(file, data)];
         replacements := replacements s;
         console := console s |}.

(** [editor.replaceRange(replacement, from)] *)
Definition replaceRange (replacement : jsstring) (from : EditorPosition)
  : action unit :=
  fun s =>
    onPlatform (editor_replaceRange replacement from)
      {| llm := llm s; client := client s; notices := notices s;
         modifications := modifications s;
         replacements := replacements s ++ [(replacement, from)];
         console := console s |}.

(** [callLLM(this.settings.llm, prompt)] *)
Definition call (prompt : jsstring) : action jsstring :=
  fun s =>
    let (result, r) :=
      callLLM requestUrlImpl JSON_stringify (llm s) prompt (client s) in
    (result,
     {| llm := llm s; client := r; notices := notices s;
        modifications := modifications s;
        replacements := replacements s;
        console := console s |}).

(** The modals resolve; they do not reject. *)
Definition promptModal (initialValue : jsstring) : action (option jsstring) :=
  fun s =>
    let (a, s') := onPlatform (showSprinklePromptModal initialValue) s in
    (Return a, s').

Definition reviewModal (response : jsstring) : action SprinkleReviewResult :=
  fun s =>
    let (a, s') := onPlatform (showSprinkleReviewModal response) s in
    (Return a, s').

(** The [catch] clause that the commands share, up to the label of the
    console message. *)
Definition catchClause (label : jsstring) (error : thrown) : action unit :=
  match error with
  | LLMError m => newNotice (lit "LLM Error: " ++ m) (Some 0%Z)
  | OtherError m => newNotice (lit "Error: " ++ m) (Some 0%Z)
  | NotAnError _ => newNotice (lit "An unexpected error occurred.") (Some 0%Z)
  end ;;;
  console_error label error.

(** *** sprinkleAI *)

(** The [while] loop; an iteration waits for the model and for the user,
    and [fuel] bounds the iterations looked at.  The result tells whether
    the loop has ended. *)
Fixpoint sprinkleLoop (fuel : nat) (selectedText : jsstring)
  (selectionFrom : EditorPosition) (userPrompt : jsstring) : action bool :=
  match fuel with
  | 0 => ret false
  | S fuel' =>
      let prompt := buildSprinklePrompt userPrompt selectedText in
      newNotice (lit "Sprinkling AI...") None ;;;
      response <~ call prompt ;;
      decision <~ reviewModal response ;;
      match decision with
      | accept =>
          replaceRange (response ++ [nl; nl]) selectionFrom ;;;
          ret true
      | retry =>
          edited <~ promptModal userPrompt ;;
          match edited with
          | None => ret true
          | Some edited =>
              sprinkleLoop fuel' selectedText selectionFrom edited
          end
      | reject => ret true
      | noCase => sprinkleLoop fuel' selectedText selectionFrom userPrompt
      end
  end.

Definition sprinkleAI (fuel : nat) : action bool :=
  fun s =>
    let selectedText := editor_getSelection (world (client s)) in
    let selectionFrom := editor_getCursor_from (world (client s)) in
    (userPrompt <~ promptModal [] ;;
     match userPrompt with
     | None => ret true
     | Some userPrompt =>
         tryCatch
           (sprinkleLoop fuel selectedText selectionFrom userPrompt)
           (fun error =>
              catchClause (lit "Sprinkle AI failed:") error ;;; ret true)
     end) s.

(** *** summarizeCurrentNote *)

Definition summarizeCurrentNote (file : option TFile) : action unit :=
  match file with
  | None => newNotice (lit "No active file to summarize.") (Some 0%Z)
  | Some file =>
      tryCatch
        (newNotice (lit "Summarizing note...") None ;;;
         content <~ read file ;;
         let title := basename file in
         let prompt := buildSummaryPrompt content title in
         summary <~ call prompt ;;
         let updatedContent := insertSummarySection content summary in
         modify file updatedContent ;;;
         newNotice (lit "Summary added to note.") None)
        (catchClause (lit "Note summarization failed:"))
  end.

(** *** loadSettings *)

(** The Number value of a numeric literal, and [ToBoolean] on a Number. *)
Variable numberOfLiteral : QArith_base.Q -> number.
Variable numberToBoolean : number -> bool.

(** [DEFAULT_SETTINGS.llm] and [DEFAULT_SETTINGS] of [src/types.ts]. *)
Definition DEFAULT_SETTINGS_llm : list (jsstring * value number) :=
  [ (lit "provider", VString (lit "ollama"));
    (lit "baseUrl", VString (lit "http://localhost:11434"));
    (lit "endpointPath", VString (lit "/api/chat"));
    (lit "model", VString (lit "llama3.1"));
    (lit "temperature", VNumber (numberOfLiteral (QArith_base.Qmake 2 10)));
    (lit "maxTokens", VNumber (numberOfLiteral (QArith_base.Qmake 1000 1)));
    (lit "timeoutSeconds",
     VNumber (numberOfLiteral (QArith_base.Qmake 60 1))) ].

Definition DEFAULT_SETTINGS : list (jsstring * value number) :=
  [ (lit "foldersToScan", VArray []);
    (lit "outputFolder", VString (lit "Weekly Reviews"));
    (lit "defaultPeriodPreset", VString (lit "current_week"));
    (lit "promptForPeriodOnRun", VBool true);
    (lit "llm", VObject DEFAULT_SETTINGS_llm);
    (lit "maxNotes", VNumber (numberOfLiteral (QArith_base.Qmake 50 1)));
    (lit "maxCharsPerNote",
     VNumber (numberOfLiteral (QArith_base.Qmake 6000 1))) ].

(** The own enumerable properties of a value, as [Object.assign] reads
    them from a source: the properties of an object, the elements of an
    array and the code units of a string under their indices; [null], a
    boolean and a number have none. *)
Fixpoint indexed {A : Type} (i : nat) (l : list A) : list (jsstring * A) :=
  match l with
  | [] => []
  | a :: t => (intToString (Z.of_nat i), a) :: indexed (S i) t
  end.

Definition ownProperties (v : value number) : list (jsstring * value number) :=
  match v with
  | VObject props => props
  | VArray items => indexed 0 items
  | VString s => indexed 0 (map (fun c => VString [c]) s)
  | _ => []
  end.

(** [Object.assign(target, ...sources)] on a plain object: each property of
    each source is set on the target, in order.  Setting [__proto__] goes to
    the accessor of [Object.prototype] and adds no property. *)
Definition assignFrom (target : list (jsstring * value number))
  (source : value number) : list (jsstring * value number) :=
  fold_left
    (fun to (p : jsstring * value number) =>
       if eqb (fst p) (lit "__proto__") then to
       else setProp (fst p) (snd p) to)
    (ownProperties source) target.

Definition Object_assign (target : list (jsstring * value number))
  (sources : list (value number)) : list (jsstring * value number) :=
  fold_left assignFrom sources target.

(** [ToBoolean] *)
Definition toBoolean (v : value number) : bool :=
  match v with
  | VNull => false
  | VBool b => b
  | VNumber n => numberToBoolean n
  | VString s => truthy s
  | VArray _ | VObject _ => true
  end.

(** What [loadSettings] assigns to [this.settings], from what [loadData]
    resolved to ([null] when nothing is stored).  The settings are values
    here: that [this.settings.llm] is the very object
    [DEFAULT_SETTINGS.llm] when no [llm] is stored is not represented. *)
Definition loadSettings (data : value number) : list (jsstring * value number) :=
  let settings := Object_assign [] [VObject DEFAULT_SETTINGS; data] in
  match optMember (Some data) (lit "llm") with
  | Some data_llm =>
      if toBoolean data_llm
      then setProp (lit "llm")
             (VObject (Object_assign []
                         [VObject DEFAULT_SETTINGS_llm; data_llm]))
             settings
      else settings
  | None => settings
  end.

End Main.

(** A file, a vault that holds one text under every path and takes every
    write, a transport that answers every request with a given summary, and
    a plugin that has done nothing yet, for the examples. *)
Definition exampleFile : TFile :=
  {| path := lit "Notes/My Note.md"; basename := lit "My Note" |}.

Definition exampleVault_read (content : jsstring) (file : TFile) (w : unit)
  : completion jsstring * unit :=
  (Return content, w).

Definition exampleVault_modify (file : TFile) (data : jsstring) (w : unit)
  : completion unit * unit :=
  (Return tt, w).

Definition answeringTransport (content : jsstring)
  (request : RequestUrlParam) (w : unit)
  : completion (RequestUrlResponse QArith_base.Q) * unit :=
  (Return {| status := 200;
             json := VObject
                       [(lit "message",
                         VObject [(lit "content", VString content)])] |},
   w).

Definition idle (config : LLMConfig QArith_base.Q) : App QArith_base.Q unit :=
  {| llm := config;
     client := {| world := tt; calls := [] |};
     notices := [];
     modifications := [];
     replacements := [];
     console := [] |}.

(** [ToBoolean] on a rational number. *)
Definition rationalToBoolean (q : QArith_base.Q) : bool :=
  negb (QArith_base.Qeq_bool q (QArith_base.Qmake 0 1)).

End Plugin.

(* ================================================================= *)
(** ** src/ui/settingsTab.ts

    The [onChange] handlers of the settings tab, which follows
    [src/types.ts] in the same source file. *)

Module SettingsTab.
Import JS LLMClient.

Definition comma : char := 44%N.

(** [s.split(separator)] for a separator of one code unit. *)
Fixpoint split (separator : char) (s : jsstring) : list jsstring :=
  match s with
  | [] => [[]]
  | c :: t =>
      if (c =? separator)%N then [] :: split separator t
      else match split separator t with
           | piece :: pieces => (c :: piece) :: pieces
           | [] => [[c]]
           end
  end.

(** [a.join(separator)] *)
Fixpoint join (separator : jsstring) (a : list jsstring) : jsstring :=
  match a with
  | [] => []
  | x :: rest =>
      match rest with
      | [] => x
      | _ :: _ => x ++ separator ++ join separator rest
      end
  end.

(** *** Folders to scan *)

(** What the text field shows, and what its [onChange] makes of the text
    typed. *)
Definition foldersToScan_shown (foldersToScan : list jsstring) : jsstring :=
  join (lit ", ") foldersToScan.

Definition foldersToScan_onChange (value : jsstring) : list jsstring :=
  filter (fun s => 0 <? length s) (map trim (split comma value)).

(** *** The number fields *)

Definition digitValue (c : char) : option Z :=
  if ((48 <=? c) && (c <=? 57))%N then Some (Z.of_N (c - 48)) else None.

(** The digits at the head of [s], read in base 10 after the digits read so
    far; [None] when there has been none. *)
Fixpoint leadingDigits (sofar : option Z) (s : jsstring) : option Z :=
  match s with
  | c :: t =>
      match digitValue c with
      | Some d =>
          leadingDigits
            (Some (10 * match sofar with Some n => n | None => 0 end + d)%Z) t
      | None => sofar
      end
  | [] => sofar
  end.

(** [parseInt(value, 10)]: white space at the start is skipped, a sign is
    read, and the digits that follow are the result, whatever comes after
    them; [None] is [NaN].  The result is the mathematical value, of which
    the Number is the rounding. *)
Definition parseInt (value : jsstring) : option Z :=
  match trimStart value with
  | c :: t =>
      if (c =? 45)%N then option_map Z.opp (leadingDigits None t)
      else if (c =? 43)%N then leadingDigits None t
      else leadingDigits None (c :: t)
  | [] => None
  end.

Section Tab.

Set Implicit Arguments.

Variable number : Type.

(** The Number value of an integer. *)
Variable numberOfInteger : Z -> number.

(** The [onChange] of "Max tokens", "Timeout in seconds", "Max notes" and
    "Max characters per note": the number that is stored, if one is.  The
    Number of an integer is above 0 exactly when the integer is. *)
Definition numberField_onChange (value : jsstring) : option number :=
  match parseInt value with
  | Some num => if (0 <? num)%Z then Some (numberOfInteger num) else None
  | None => None
  end.

(** [String(n)] for the Number of an integer [n] below [10^21]. *)
Definition numberField_shown (n : Z) : jsstring := intToString n.

(** *** The model configuration *)

Definition provider_onChange (value : LLMProvider) (llm : LLMConfig number)
  : LLMConfig number :=
  match value with
  | openai =>
      {| provider := openai;
         baseUrl := lit "https://api.openai.com";
         endpointPath := lit "/v1/chat/completions";
         model := model llm;
         apiKeyHeaderName := Some (lit "Authorization");
         apiKeyHeaderValue := apiKeyHeaderValue llm;
         temperature := temperature llm;
         maxTokens := maxTokens llm;
         timeoutSeconds := timeoutSeconds llm |}
  | ollama =>
      {| provider := ollama;
         baseUrl := lit "http://localhost:11434";
         endpointPath := lit "/api/chat";
         model := model llm;
         apiKeyHeaderName := None;
         apiKeyHeaderValue := None;
         temperature := temperature llm;
         maxTokens := maxTokens llm;
         timeoutSeconds := timeoutSeconds llm |}
  end.

End Tab.

End SettingsTab.

(* ================================================================= *)
(** ** Properties of strings as keys and of objects *)

Module JSProps.
Import JS.

Lemma eqb_eq a : forall b, eqb a b = true <-> a = b.
Proof.
  induction a as [|c a IH]; intros [|d b]; cbn [eqb];
    try (split; [discriminate|congruence]).
  - split; reflexivity.
  - rewrite andb_true_iff, N.eqb_eq, IH. split.
    + now intros [-> ->].
    + now intros [= -> ->].
Qed.

Lemma eqb_refl a : eqb a a = true.
Proof. now apply eqb_eq. Qed.

Lemma eqb_neq a b : eqb a b = false <-> a <> b.
Proof.
  rewrite <- eqb_eq. destruct (eqb a b); split; congruence.
Qed.

Section Objects.

Variable V : Type.
Implicit Types (props : list (jsstring * V)) (key : jsstring) (v : V).

(** A property that has been set is there. *)
Lemma lookup_setProp_same key v props :
  lookup key (setProp key v props) = Some v.
Proof.
  induction props as [|[k x] props IH]; cbn [setProp lookup].
  - now rewrite eqb_refl.
  - destruct (eqb k key) eqn:E; cbn [lookup]; now rewrite E.
Qed.

(** Setting a property leaves the others as they are. *)
Lemma lookup_setProp_other key key' v props :
  key' <> key -> lookup key' (setProp key v props) = lookup key' props.
Proof.
  intros H. induction props as [|[k x] props IH]; cbn [setProp lookup].
  - apply eqb_neq in H. rewrite (proj2 (eqb_neq key key')); [reflexivity|].
    intros ->. now apply eqb_neq in H.
  - destruct (eqb k key) eqn:E; cbn [lookup].
    + apply eqb_eq in E. subst k.
      now rewrite (proj2 (eqb_neq key key')) by congruence.
    + now rewrite IH.
Qed.

Lemma lookup_None key props :
  lookup key props = None <-> ~ In key (map fst props).
Proof.
  induction props as [|[k x] props IH]; cbn [lookup map fst In].
  - tauto.
  - destruct (eqb k key) eqn:E.
    + apply eqb_eq in E. split; [discriminate|tauto].
    + apply eqb_neq in E. rewrite IH. tauto.
Qed.

Lemma lookup_In key v props :
  NoDup (map fst props) -> In (key, v) props -> lookup key props = Some v.
Proof.
  induction props as [|[k x] props IH]; cbn [lookup map fst In];
    intros Hnd Hin; [contradiction|].
  inversion Hnd as [|? ? Hk Hnd']; subst.
  destruct Hin as [[= -> ->]|Hin].
  - now rewrite eqb_refl.
  - destruct (eqb k key) eqn:E; [|now apply IH].
    apply eqb_eq in E. subst k. exfalso. apply Hk.
    now apply (in_map fst) in Hin.
Qed.

End Objects.

End JSProps.

(* ================================================================= *)
(** ** Properties of the summary merger *)

Module SummarizeProps.
Import JS RegExp Summarize.

(** *** Strings *)

Lemma startsWith_app pat s : startsWith pat (pat ++ s) = true.
Proof.
  induction pat as [|p pat IH]; simpl; [reflexivity|].
  now rewrite N.eqb_refl.
Qed.

Lemma startsWith_true pat s :
  startsWith pat s = true -> exists t, s = pat ++ t.
Proof.
  revert s; induction pat as [|p pat IH]; intros s H; simpl in *.
  - now exists s.
  - destruct s as [|c s]; [discriminate|].
    apply andb_true_iff in H as [Hc H]. apply N.eqb_eq in Hc. subst c.
    destruct (IH _ H) as [t ->]. now exists t.
Qed.

Lemma startsWithIgnoreCase_length pat s :
  startsWithIgnoreCase pat s = true -> length pat <= length s.
Proof.
  revert s; induction pat as [|p pat IH]; intros s H; simpl in *; [lia|].
  destruct s as [|c s]; [discriminate|].
  apply andb_true_iff in H as [_ H]. apply IH in H. simpl. lia.
Qed.

Lemma stripLeadingNewlines_idem s :
  stripLeadingNewlines (stripLeadingNewlines s) = stripLeadingNewlines s.
Proof.
  induction s as [|c t IH]; simpl; [reflexivity|].
  destruct (c =? nl)%N eqn:E; [exact IH|]. simpl. now rewrite E.
Qed.

Lemma stripLeadingNewlines_keep c t :
  c <> nl -> stripLeadingNewlines (c :: t) = c :: t.
Proof. intros H. simpl. apply N.eqb_neq in H. now rewrite H. Qed.

Lemma trimStart_blank s :
  forallb isWhiteSpace s = true -> trimStart s = [].
Proof.
  induction s as [|c t IH]; simpl; [reflexivity|].
  intros H. apply andb_true_iff in H as [Hc Ht]. rewrite Hc. auto.
Qed.

Lemma trim_blank s : forallb isWhiteSpace s = true -> trim s = [].
Proof. intros H. unfold trim. now rewrite (trimStart_blank _ H). Qed.

Lemma trimStart_split s :
  exists l, s = l ++ trimStart s /\ forallb isWhiteSpace l = true.
Proof.
  induction s as [|c t (l & E & Hl)]; simpl.
  - now exists [].
  - destruct (isWhiteSpace c) eqn:Hc.
    + exists (c :: l). simpl. rewrite Hc, Hl. split; [now f_equal|reflexivity].
    + now exists [].
Qed.

Lemma trimStart_head s c t :
  trimStart s = c :: t -> isWhiteSpace c = false.
Proof.
  induction s as [|d u IH]; simpl; [discriminate|].
  destruct (isWhiteSpace d) eqn:Hd; [exact IH|].
  intros E. now injection E as <- _.
Qed.

Lemma forallb_rev {A : Type} (f : A -> bool) l :
  forallb f (rev l) = forallb f l.
Proof.
  induction l as [|a l IH]; simpl; [reflexivity|].
  rewrite forallb_app, IH. simpl. rewrite andb_true_r. apply andb_comm.
Qed.

(** [trim] removes a run of white space at each end and nothing else. *)
Lemma trim_split s :
  exists l r, s = l ++ trim s ++ r
              /\ forallb isWhiteSpace l = true
              /\ forallb isWhiteSpace r = true.
Proof.
  destruct (trimStart_split s) as (l & E & Hl).
  destruct (trimStart_split (rev (trimStart s))) as (r & E' & Hr).
  exists l, (rev r). repeat split; trivial.
  - unfold trim, trimEnd. rewrite <- rev_app_distr, <- E', rev_involutive.
    exact E.
  - now rewrite forallb_rev.
Qed.

Lemma trim_head s c t : trim s = c :: t -> isWhiteSpace c = false.
Proof.
  unfold trim, trimEnd. intros E.
  destruct (trimStart_split (rev (trimStart s))) as (r & E' & Hr).
  assert (E2 : trimStart s = (c :: t) ++ rev r).
  { rewrite <- E, <- rev_app_distr, <- E'. now rewrite rev_involutive. }
  exact (trimStart_head _ _ _ E2).
Qed.

Lemma trim_last s t c : trim s = t ++ [c] -> isWhiteSpace c = false.
Proof.
  unfold trim, trimEnd. intros E.
  apply (f_equal (@rev _)) in E. rewrite rev_involutive, rev_app_distr in E.
  exact (trimStart_head _ _ _ E).
Qed.

(** *** The frontmatter expression *)

Lemma lazyUntil_None pat s :
  lazyUntil pat s = None <-> occursIn pat s = false.
Proof.
  induction s as [|c t IH]; simpl.
  - destruct (startsWith pat []); simpl; split; congruence.
  - destruct (startsWith pat (c :: t)); simpl; [split; discriminate|].
    destruct (lazyUntil pat t); simpl.
    + split; [discriminate|]. intros H. apply IH in H. discriminate.
    + split; [intros _; now apply IH|reflexivity].
Qed.

(** Whether the closing dashes start at the head of [s] is decided by at
    most three code units of what follows [s]. *)
Lemma startsWith_fmClose_cut s rest :
  s <> [] ->
  startsWith fmClose (s ++ nl :: lit "--")
  = startsWith fmClose (s ++ fmClose ++ rest).
Proof.
  intros Hs. destruct s as [|a [|b [|c [|d s]]]]; [congruence|..];
    reflexivity.
Qed.

Lemma lazyUntil_fmClose_first inner rest :
  occursIn fmClose (inner ++ nl :: lit "--") = false ->
  lazyUntil fmClose (inner ++ fmClose ++ rest) = Some (length inner).
Proof.
  induction inner as [|c t IH]; intros H.
  - reflexivity.
  - change (startsWith fmClose ((c :: t) ++ nl :: lit "--")
            || occursIn fmClose (t ++ nl :: lit "--") = false) in H.
    apply orb_false_iff in H as [H1 H2].
    rewrite (startsWith_fmClose_cut (c :: t) rest) in H1
      by discriminate.
    change (lazyUntil fmClose ((c :: t) ++ fmClose ++ rest))
      with (if startsWith fmClose ((c :: t) ++ fmClose ++ rest) then Some 0
            else option_map S (lazyUntil fmClose (t ++ fmClose ++ rest))).
    rewrite H1, (IH H2). reflexivity.
Qed.

Lemma lazyUntil_fmClose_inv s k :
  lazyUntil fmClose s = Some k ->
  exists inner rest,
    s = inner ++ fmClose ++ rest /\ length inner = k
    /\ occursIn fmClose (inner ++ nl :: lit "--") = false.
Proof.
  revert k; induction s as [|c t IH]; intros k H.
  - discriminate.
  - change (lazyUntil fmClose (c :: t))
      with (if startsWith fmClose (c :: t) then Some 0
            else option_map S (lazyUntil fmClose t)) in H.
    destruct (startsWith fmClose (c :: t)) eqn:E.
    + injection H as <-. apply startsWith_true in E as [rest E].
      exists [], rest. now rewrite E.
    + destruct (lazyUntil fmClose t) as [k'|] eqn:E'; [|discriminate].
      injection H as <-.
      destruct (IH _ eq_refl) as (inner & rest & -> & <- & Hno).
      exists (c :: inner), rest. repeat split.
      change (startsWith fmClose ((c :: inner) ++ nl :: lit "--")
              || occursIn fmClose (inner ++ nl :: lit "--") = false).
      rewrite (startsWith_fmClose_cut (c :: inner) rest)
        by discriminate.
      rewrite Hno, orb_false_r. exact E.
Qed.

(** The closing dashes do not start inside [inner] when no newline of
    [inner] is followed by [---]. *)
Lemma occursIn_fmClose_inner inner :
  occursIn fmClose (inner ++ nl :: lit "--") = occursIn fmClose inner.
Proof.
  induction inner as [|c t IH]; [reflexivity|].
  change (startsWith fmClose ((c :: t) ++ nl :: lit "--")
          || occursIn fmClose (t ++ nl :: lit "--")
          = startsWith fmClose (c :: t) || occursIn fmClose t).
  rewrite IH. f_equal.
  destruct t as [|d [|e [|f t]]]; reflexivity.
Qed.

(** The expression matches a content that opens with the line [---] up to
    the first later line that starts with [---]. *)
Lemma frontmatterRegex_block inner rest :
  occursIn fmClose inner = false ->
  frontmatterRegex (fmOpen ++ inner ++ fmClose ++ rest)
  = Some (fmOpen ++ inner ++ fmClose).
Proof.
  intros H. rewrite <- occursIn_fmClose_inner in H.
  unfold frontmatterRegex. fold fmOpen fmClose.
  rewrite startsWith_app.
  change (skipn 4 (fmOpen ++ inner ++ fmClose ++ rest))
    with (inner ++ fmClose ++ rest).
  rewrite (lazyUntil_fmClose_first _ _ H). f_equal.
  change (firstn (4 + length inner + 4) (fmOpen ++ inner ++ fmClose ++ rest))
    with (fmOpen ++ firstn (length inner + 4) (inner ++ fmClose ++ rest)).
  f_equal. rewrite firstn_app.
  replace (length inner + 4 - length inner) with 4 by lia.
  rewrite firstn_all2 by lia. reflexivity.
Qed.

Lemma frontmatterRegex_inv content fm :
  frontmatterRegex content = Some fm ->
  exists inner rest,
    content = fmOpen ++ inner ++ fmClose ++ rest
    /\ fm = fmOpen ++ inner ++ fmClose
    /\ occursIn fmClose inner = false.
Proof.
  unfold frontmatterRegex. fold fmOpen fmClose. intros H.
  destruct (startsWith fmOpen content) eqn:E; [|discriminate].
  apply startsWith_true in E as [body ->].
  change (skipn 4 (fmOpen ++ body)) with body in H.
  destruct (lazyUntil fmClose body) as [k|] eqn:E; [|discriminate].
  destruct (lazyUntil_fmClose_inv _ _ E) as (inner & rest & -> & <- & Hno).
  rewrite occursIn_fmClose_inner in Hno.
  exists inner, rest. split; [reflexivity|]. split; [|exact Hno].
  pose proof (frontmatterRegex_block inner rest Hno) as B.
  unfold frontmatterRegex in B. fold fmOpen fmClose in B.
  rewrite startsWith_app in B.
  change (skipn 4 (fmOpen ++ inner ++ fmClose ++ rest))
    with (inner ++ fmClose ++ rest) in B.
  rewrite E in B. congruence.
Qed.

Lemma frontmatterRegex_None content :
  frontmatterRegex content = None <-> hasFrontmatter content = false.
Proof.
  unfold frontmatterRegex, hasFrontmatter. fold fmOpen fmClose.
  destruct (startsWith fmOpen content); cbn [andb]; [|tauto].
  rewrite <- lazyUntil_None.
  destruct (lazyUntil fmClose (skipn 4 content)); split;
    solve [discriminate | reflexivity].
Qed.

(** The match depends on the matched text alone. *)
Lemma frontmatterRegex_stable content fm x :
  frontmatterRegex content = Some fm ->
  frontmatterRegex (fm ++ x) = Some fm.
Proof.
  intros H.
  destruct (frontmatterRegex_inv _ _ H) as (inner & rest & _ & -> & Hno).
  pose proof (frontmatterRegex_block inner x Hno) as B.
  now rewrite <- !app_assoc.
Qed.

(** *** The summary expression *)

Lemma summaryHead_bound s n :
  summaryHead s = Some n -> (n = 9 \/ n = 10) /\ n <= length s.
Proof.
  unfold summaryHead.
  destruct (startsWithIgnoreCase (lit "## summary") s) eqn:E2.
  - intros [= <-]. apply startsWithIgnoreCase_length in E2. auto.
  - destruct (startsWithIgnoreCase (lit "# summary") s) eqn:E1;
      [|discriminate].
    intros [= <-]. apply startsWithIgnoreCase_length in E1. auto.
Qed.

Lemma summaryAt_None s : summaryAt s = None <-> summaryHead s = None.
Proof.
  unfold summaryAt. destruct (summaryHead s); split; congruence.
Qed.

Lemma lazySection_cons c t :
  lazySection (c :: t)
  = if sectionEndAhead (c :: t) then 0 else S (lazySection t).
Proof. reflexivity. Qed.

Lemma sectionEndAhead_cons c t :
  sectionEndAhead (c :: t) = headingAhead (c :: t).
Proof. unfold sectionEndAhead. cbn [truthy negb]. apply orb_false_r. Qed.

Lemma sectionEndAhead_true s :
  sectionEndAhead s = true <-> s = [] \/ headingAhead s = true.
Proof.
  destruct s as [|c t].
  - split; auto.
  - rewrite sectionEndAhead_cons. split; [auto|].
    intros [H|H]; [discriminate|exact H].
Qed.

Lemma lazySection_split u :
  exists sec rest,
    u = sec ++ rest /\ lazySection u = length sec
    /\ (forall j, j < length sec ->
                  headingAhead (skipn j (sec ++ rest)) = false)
    /\ (rest = [] \/ headingAhead rest = true).
Proof.
  induction u as [|c t IH].
  - exists [], []. repeat split; auto. intros j Hj. inversion Hj.
  - rewrite lazySection_cons, sectionEndAhead_cons.
    destruct (headingAhead (c :: t)) eqn:E.
    + exists [], (c :: t). repeat split; auto. intros j Hj. inversion Hj.
    + destruct IH as (sec & rest & -> & Hl & Hj & Hr).
      exists (c :: sec), rest. repeat split; auto.
      * simpl. now rewrite Hl.
      * intros [|j] Hlt; [exact E|]. apply Hj. simpl in Hlt. lia.
Qed.

Lemma lazySection_span sec rest :
  (forall j, j < length sec -> headingAhead (skipn j (sec ++ rest)) = false) ->
  rest = [] \/ headingAhead rest = true ->
  lazySection (sec ++ rest) = length sec.
Proof.
  intros Hj Hr. induction sec as [|c t IH].
  - apply sectionEndAhead_true in Hr. destruct rest as [|d r]; [reflexivity|].
    simpl app. rewrite lazySection_cons, Hr. reflexivity.
  - simpl app. rewrite lazySection_cons, sectionEndAhead_cons.
    assert (H0 : headingAhead (c :: t ++ rest) = false)
      by (apply (Hj 0); simpl; lia).
    rewrite H0. simpl. f_equal. apply IH.
    intros j Hlt. apply (Hj (S j)). simpl. lia.
Qed.

Lemma summaryRegexFrom_cons i c t :
  summaryRegexFrom i (c :: t)
  = match summaryAt (c :: t) with
    | Some n => Some {| index := i; matched := firstn n (c :: t) |}
    | None => summaryRegexFrom (S i) t
    end.
Proof. reflexivity. Qed.

Lemma summaryRegexFrom_inv s : forall i m,
  summaryRegexFrom i s = Some m ->
  exists pre t n,
    s = pre ++ t /\ index m = i + length pre
    /\ summaryAt t = Some n /\ matched m = firstn n t
    /\ (forall j, j < length pre -> summaryHead (skipn j s) = None).
Proof.
  induction s as [|c t IH]; intros i m H.
  - discriminate.
  - rewrite summaryRegexFrom_cons in H.
    destruct (summaryAt (c :: t)) as [n|] eqn:E.
    + injection H as <-. exists [], (c :: t), n. simpl.
      repeat split; auto. intros j Hj. inversion Hj.
    + destruct (IH _ _ H) as (pre & t' & n & -> & Hi & Ha & Hm & Hj).
      exists (c :: pre), t', n. repeat split; auto.
      * simpl. lia.
      * intros [|j] Hlt; [now apply summaryAt_None|].
        apply Hj. simpl in Hlt. lia.
Qed.

Lemma summaryRegexFrom_first pre t n : forall i,
  summaryAt t = Some n ->
  (forall j, j < length pre -> summaryHead (skipn j (pre ++ t)) = None) ->
  summaryRegexFrom i (pre ++ t)
  = Some {| index := i + length pre; matched := firstn n t |}.
Proof.
  induction pre as [|c pre IH]; intros i Ha Hj.
  - simpl. rewrite Nat.add_0_r. destruct t as [|d t].
    + discriminate.
    + rewrite summaryRegexFrom_cons, Ha. reflexivity.
  - simpl app. rewrite summaryRegexFrom_cons.
    assert (E : summaryAt (c :: pre ++ t) = None).
    { apply summaryAt_None. apply (Hj 0). simpl. lia. }
    rewrite E, IH; auto.
    + simpl. do 3 f_equal. lia.
    + intros j Hlt. apply (Hj (S j)). simpl. lia.
Qed.

(** The expression finds the span that [summarySpan] describes, and
    nothing else. *)
Lemma summaryRegex_span body pre hd sec rest :
  summarySpan body pre hd sec rest ->
  summaryRegex body = Some {| index := length pre; matched := hd ++ sec |}.
Proof.
  intros (-> & Hh & Hpre & Hsec & Hrest). unfold summaryRegex.
  assert (Ha : summaryAt (hd ++ sec ++ rest)
               = Some (length hd + length sec)).
  { unfold summaryAt. rewrite Hh. rewrite skipn_app, skipn_all, Nat.sub_diag.
    simpl. now rewrite (lazySection_span _ _ Hsec Hrest). }
  rewrite (summaryRegexFrom_first _ _ _ 0 Ha Hpre). simpl. do 2 f_equal.
  rewrite firstn_app, firstn_all2 by lia.
  replace (length hd + length sec - length hd) with (length sec) by lia.
  now rewrite firstn_app, firstn_all, Nat.sub_diag, firstn_O, app_nil_r.
Qed.

Lemma summaryRegex_inv body m :
  summaryRegex body = Some m ->
  exists pre hd sec rest,
    summarySpan body pre hd sec rest
    /\ index m = length pre /\ matched m = hd ++ sec.
Proof.
  intros H. apply summaryRegexFrom_inv in H
    as (pre & t & n & -> & Hi & Ha & Hm & Hj).
  unfold summaryAt in Ha.
  destruct (summaryHead t) as [h|] eqn:Hh; [|discriminate].
  injection Ha as <-.
  destruct (summaryHead_bound _ _ Hh) as [_ Hle].
  destruct (lazySection_split (skipn h t)) as (sec & rest & Eu & Hl & Hs & Hr).
  assert (Et : t = firstn h t ++ sec ++ rest).
  { rewrite <- Eu. symmetry. apply firstn_skipn. }
  assert (Elen : length (firstn h t) = h) by (rewrite length_firstn; lia).
  exists pre, (firstn h t), sec, rest. split; [|split].
  - unfold summarySpan. rewrite <- Et, Elen. auto.
  - exact Hi.
  - rewrite Hm, Hl. rewrite Et at 1.
    rewrite firstn_app, Elen, firstn_all2 by (rewrite Elen; lia).
    replace (h + length sec - h) with (length sec) by lia.
    now rewrite firstn_app, firstn_all, Nat.sub_diag, firstn_O, app_nil_r.
Qed.

Lemma startsWithIgnoreCase_tail c t :
  startsWithIgnoreCase (lit "## summary") (c :: t) = true ->
  startsWithIgnoreCase (lit "# summary") t = true.
Proof.
  intros H. change (lit "## summary") with (hash :: lit "# summary") in H.
  simpl in H. now apply andb_true_iff in H as [_ H].
Qed.

Lemma summaryRegexFrom_None s : forall i,
  summaryRegexFrom i s = None <-> hasSummaryPattern s = false.
Proof.
  unfold hasSummaryPattern. induction s as [|c t IH]; intros i.
  - split; reflexivity.
  - rewrite summaryRegexFrom_cons.
    change (occursInIgnoreCase (lit "# summary") (c :: t))
      with (startsWithIgnoreCase (lit "# summary") (c :: t)
            || occursInIgnoreCase (lit "# summary") t).
    destruct (summaryAt (c :: t)) as [n|] eqn:E.
    + split; [discriminate|]. intros H. apply orb_false_iff in H as [H1 H2].
      unfold summaryAt, summaryHead in E. rewrite H1 in E.
      destruct (startsWithIgnoreCase (lit "## summary") (c :: t)) eqn:E2;
        [|discriminate].
      apply startsWithIgnoreCase_tail in E2.
      destruct t as [|d t]; [discriminate|].
      change (occursInIgnoreCase (lit "# summary") (d :: t))
        with (startsWithIgnoreCase (lit "# summary") (d :: t)
              || occursInIgnoreCase (lit "# summary") t) in H2.
      rewrite E2 in H2. discriminate.
    + rewrite IH. apply summaryAt_None in E. unfold summaryHead in E.
      destruct (startsWithIgnoreCase (lit "## summary") (c :: t));
        [discriminate|].
      destruct (startsWithIgnoreCase (lit "# summary") (c :: t));
        [discriminate|].
      reflexivity.
Qed.

(** No match at all: the text [# summary] occurs nowhere. *)
Lemma summaryRegex_None body :
  summaryRegex body = None <-> hasSummaryPattern body = false.
Proof. apply summaryRegexFrom_None. Qed.

(** *** The expressions and the functions agree *)

(** Under the [i] flag a code unit below [A] matches itself only. *)
Lemma sameUnit_plain d k :
  (k < 65)%N -> sameUnit true d k = (d =? k)%N.
Proof.
  intros Hk. unfold sameUnit, canonicalize.
  assert (Ek : ((97 <=? k) && (k <=? 122))%N = false).
  { apply andb_false_iff. left. apply N.leb_gt. lia. }
  rewrite Ek. destruct ((97 <=? d)%N && (d <=? 122)%N) eqn:B; [|reflexivity].
  apply andb_true_iff in B as [B1 B2]. apply N.leb_le in B1, B2.
  destruct (N.eqb_spec (d - 32) k), (N.eqb_spec d k); try reflexivity; lia.
Qed.

(** The equations of [run]. *)
Lemma run_Cat ic r1 r2 x k :
  run ic (Cat r1 r2) x k = run ic r1 x (fun y => run ic r2 y k).
Proof. reflexivity. Qed.

Lemma run_Unit ic c i d (t : jsstring) k :
  run ic (Unit c) (i, d :: t) k
  = if sameUnit ic d c then k (S i, t) else None.
Proof. reflexivity. Qed.

Lemma run_Unit_nil ic c i k : run ic (Unit c) (i, []) k = None.
Proof. reflexivity. Qed.

Lemma run_AnyUnit ic i d (t : jsstring) k :
  run ic AnyUnit (i, d :: t) k = k (S i, t).
Proof. reflexivity. Qed.

Lemma run_Opt ic r x k :
  run ic (Opt r) x k
  = match run ic r x k with Some z => Some z | None => k x end.
Proof. reflexivity. Qed.

Lemma run_LazyStar ic r i (s : jsstring) k :
  run ic (LazyStar r) (i, s) k = lazyLoop (run ic r) k (length s) (i, s).
Proof. reflexivity. Qed.

Lemma run_Plus ic r x k :
  run ic (Plus r) x k
  = run ic r x (fun y => greedyLoop (run ic r) k (length (snd y)) y).
Proof. reflexivity. Qed.

Lemma run_Ahead ic r x k :
  run ic (Ahead r) x k
  = match run ic r x Some with Some _ => k x | None => None end.
Proof. reflexivity. Qed.

Lemma run_Or ic r1 r2 x k :
  run ic (Or r1 r2) x k
  = match run ic r1 x k with Some z => Some z | None => run ic r2 x k end.
Proof. reflexivity. Qed.

Lemma run_InputStart ic i (s : jsstring) k :
  run ic InputStart (i, s) k = if i =? 0 then k (i, s) else None.
Proof. reflexivity. Qed.

Lemma run_InputEnd ic i (s : jsstring) k :
  run ic InputEnd (i, s) k
  = match s with [] => k (i, s) | _ :: _ => None end.
Proof. reflexivity. Qed.

Lemma lazyLoop_S m k fuel x :
  lazyLoop m k (S fuel) x
  = match k x with
    | Some z => Some z
    | None => m x (fun y => if fst x <? fst y
                            then lazyLoop m k fuel y else None)
    end.
Proof. reflexivity. Qed.

Lemma greedyLoop_S m k fuel x :
  greedyLoop m k (S fuel) x
  = match m x (fun y => if fst x <? fst y
                        then greedyLoop m k fuel y else None) with
    | Some z => Some z
    | None => k x
    end.
Proof. reflexivity. Qed.

Lemma ltb_succ i : (i <? S i) = true.
Proof. apply Nat.ltb_lt. lia. Qed.

Lemma run_Text_exact p : forall i (s : jsstring) k,
  run false (Text p) (i, s) k
  = if startsWith p s then k (i + length p, skipn (length p) s) else None.
Proof.
  induction p as [|c p IH]; intros i s k.
  - cbn. now rewrite Nat.add_0_r.
  - change (Text (c :: p)) with (Cat (Unit c) (Text p)). rewrite run_Cat.
    destruct s as [|d t]; [reflexivity|].
    rewrite run_Unit. cbn [sameUnit startsWith].
    destruct (d =? c)%N; [|reflexivity].
    rewrite IH. cbn [length skipn andb]. now rewrite Nat.add_succ_r.
Qed.

Lemma run_Text_ignoreCase p : forall i (s : jsstring) k,
  run true (Text p) (i, s) k
  = if startsWithIgnoreCase p s
    then k (i + length p, skipn (length p) s) else None.
Proof.
  induction p as [|c p IH]; intros i s k.
  - cbn. now rewrite Nat.add_0_r.
  - change (Text (c :: p)) with (Cat (Unit c) (Text p)). rewrite run_Cat.
    destruct s as [|d t]; [reflexivity|].
    rewrite run_Unit. cbn [sameUnit startsWithIgnoreCase].
    destruct (canonicalize d =? canonicalize c)%N; [|reflexivity].
    rewrite IH. cbn [length skipn andb]. now rewrite Nat.add_succ_r.
Qed.

(** [[\s\S]*?] looks for the first place that the continuation accepts. *)
Lemma lazyLoop_AnyUnit ic k (s : jsstring) : forall i,
  lazyLoop (run ic AnyUnit) k (length s) (i, s) = firstAt k i s.
Proof.
  induction s as [|c t IH]; intros i.
  - cbn [length lazyLoop firstAt]. destruct (k (i, [])); reflexivity.
  - cbn [length]. rewrite lazyLoop_S. cbn [firstAt].
    destruct (k (i, c :: t)); [reflexivity|].
    rewrite run_AnyUnit. cbn [fst]. rewrite ltb_succ. apply IH.
Qed.

Lemma firstAt_Text pat (s : jsstring) : forall i,
  firstAt (fun y => run false (Text pat) y Some) i s
  = option_map (fun n => (i + n + length pat, skipn (n + length pat) s))
      (lazyUntil pat s).
Proof.
  induction s as [|c t IH]; intros i.
  - cbn [firstAt lazyUntil]. rewrite run_Text_exact.
    destruct (startsWith pat []); [|reflexivity].
    cbn [option_map]. now rewrite Nat.add_0_r.
  - cbn [firstAt lazyUntil]. rewrite run_Text_exact.
    destruct (startsWith pat (c :: t)).
    + cbn [option_map]. now rewrite Nat.add_0_r.
    + rewrite IH. destruct (lazyUntil pat t) as [n|]; [|reflexivity].
      cbn [option_map]. f_equal. f_equal. lia.
Qed.

(** An expression that begins with [^] matches at index 0 or nowhere. *)
Lemma execFrom_InputStart ic r (s : jsstring) : forall i,
  0 < i -> execFrom ic (Cat InputStart r) i s = None.
Proof.
  induction s as [|c t IH]; intros i Hi; cbn [execFrom];
    rewrite run_Cat, run_InputStart, (proj2 (Nat.eqb_neq i 0)) by lia;
    [reflexivity|].
  apply IH. lia.
Qed.

Lemma run_frontmatterPattern (content : jsstring) :
  run false frontmatterPattern (0, content) Some
  = if startsWith fmOpen content
    then option_map
           (fun n => (4 + n + 4, skipn (n + 4) (skipn 4 content)))
           (lazyUntil fmClose (skipn 4 content))
    else None.
Proof.
  unfold frontmatterPattern. fold fmOpen fmClose.
  rewrite run_Cat, run_InputStart. cbn [Nat.eqb].
  rewrite run_Cat, run_Text_exact.
  destruct (startsWith fmOpen content); [|reflexivity].
  rewrite run_Cat, run_LazyStar, lazyLoop_AnyUnit. apply firstAt_Text.
Qed.

Lemma exec_frontmatterPattern content :
  exec false frontmatterPattern content
  = option_map (fun m => {| index := 0; matched := m |})
      (frontmatterRegex content).
Proof.
  unfold exec, frontmatterRegex. fold fmOpen fmClose.
  destruct content as [|c t]; cbn [execFrom];
    rewrite run_frontmatterPattern.
  - reflexivity.
  - destruct (startsWith fmOpen (c :: t)).
    + destruct (lazyUntil fmClose (skipn 4 (c :: t))) as [n|];
        cbn [option_map fst].
      * now rewrite Nat.sub_0_r.
      * unfold frontmatterPattern. apply execFrom_InputStart. lia.
    + unfold frontmatterPattern. apply execFrom_InputStart. lia.
Qed.

Lemma greedyLoop_hashes (s : jsstring) : forall i,
  found (greedyLoop (run true (Unit hash))
           (fun y => run true (Unit space) y Some) (length s) (i, s))
  = hashesThenSpace s.
Proof.
  induction s as [|d t IH]; intros i; [reflexivity|].
  cbn [length]. rewrite greedyLoop_S, !run_Unit. cbn [fst hashesThenSpace].
  rewrite !sameUnit_plain, ltb_succ by reflexivity.
  destruct (N.eqb_spec d hash) as [->|Hd].
  - specialize (IH (S i)).
    destruct (greedyLoop (run true (Unit hash))
                (fun y => run true (Unit space) y Some) (length t) (S i, t));
      [exact IH|].
    now rewrite <- IH.
  - destruct (d =? space)%N; reflexivity.
Qed.

(** [\n#+ ] *)
Lemma run_heading i (s : jsstring) :
  found (run true (Cat (Unit nl) (Cat (Plus (Unit hash)) (Unit space)))
           (i, s) Some)
  = headingAhead s.
Proof.
  rewrite run_Cat. destruct s as [|c1 t1]; [reflexivity|].
  rewrite run_Unit, sameUnit_plain by reflexivity.
  destruct t1 as [|c2 t]; cbn [headingAhead].
  - now destruct (c1 =? nl)%N.
  - destruct (c1 =? nl)%N; [|reflexivity].
    rewrite run_Cat, run_Plus, run_Unit, sameUnit_plain by reflexivity.
    destruct (c2 =? hash)%N; [|reflexivity].
    cbn [snd andb]. apply greedyLoop_hashes.
Qed.

(** [(?=\n#+ |$)] *)
Lemma run_sectionEnd i (s : jsstring) k :
  run true
    (Ahead (Or (Cat (Unit nl) (Cat (Plus (Unit hash)) (Unit space)))
               InputEnd)) (i, s) k
  = if sectionEndAhead s then k (i, s) else None.
Proof.
  rewrite run_Ahead, run_Or, run_InputEnd.
  pose proof (run_heading i s) as H. unfold sectionEndAhead.
  destruct (run true (Cat (Unit nl) (Cat (Plus (Unit hash)) (Unit space)))
              (i, s) Some) as [z|]; cbn [found] in H; rewrite <- H.
  - reflexivity.
  - now destruct s.
Qed.

Lemma firstAt_sectionEnd (s : jsstring) : forall i,
  firstAt
    (fun y =>
       run true
         (Ahead (Or (Cat (Unit nl) (Cat (Plus (Unit hash)) (Unit space)))
                    InputEnd)) y Some) i s
  = Some (i + lazySection s, skipn (lazySection s) s).
Proof.
  induction s as [|c t IH]; intros i; cbn [firstAt]; rewrite run_sectionEnd.
  - cbn. now rewrite Nat.add_0_r.
  - rewrite lazySection_cons. destruct (sectionEndAhead (c :: t)).
    + cbn. now rewrite Nat.add_0_r.
    + rewrite IH. cbn [skipn]. now rewrite Nat.add_succ_r.
Qed.

(** [ summary[\s\S]*?(?=\n#+ |$)] under the [i] flag. *)
Lemma run_summaryTail i (s : jsstring) :
  run true
    (Cat (Text (lit " summary"))
       (Cat (LazyStar AnyUnit)
          (Ahead (Or (Cat (Unit nl) (Cat (Plus (Unit hash)) (Unit space)))
                     InputEnd)))) (i, s) Some
  = if startsWithIgnoreCase (lit " summary") s
    then Some (i + 8 + lazySection (skipn 8 s),
               skipn (lazySection (skipn 8 s)) (skipn 8 s))
    else None.
Proof.
  rewrite run_Cat, run_Text_ignoreCase.
  destruct (startsWithIgnoreCase (lit " summary") s); [|reflexivity].
  change (length (lit " summary")) with 8.
  rewrite run_Cat, run_LazyStar, lazyLoop_AnyUnit.
  apply firstAt_sectionEnd.
Qed.

Lemma run_summaryPattern i (s : jsstring) :
  run true summaryPattern (i, s) Some
  = match summaryHead s with
    | Some n => Some (i + (n + lazySection (skipn n s)),
                      skipn (lazySection (skipn n s)) (skipn n s))
    | None => None
    end.
Proof.
  unfold summaryPattern, summaryHead. rewrite run_Cat.
  destruct s as [|c1 t1]; [reflexivity|].
  rewrite run_Unit.
  change (lit "## summary") with (hash :: hash :: lit " summary").
  change (lit "# summary") with (hash :: lit " summary").
  cbn [startsWithIgnoreCase].
  change (canonicalize c1 =? canonicalize hash)%N
    with (sameUnit true c1 hash).
  destruct (sameUnit true c1 hash); [|reflexivity]. cbn [andb].
  rewrite run_Cat, run_Opt.
  destruct t1 as [|c2 t2].
  - rewrite run_Unit_nil, run_summaryTail. reflexivity.
  - rewrite run_Unit.
    change (canonicalize c2 =? canonicalize hash)%N
      with (sameUnit true c2 hash).
    destruct (sameUnit true c2 hash); cbn [andb].
    + rewrite !run_summaryTail.
      destruct (startsWithIgnoreCase (lit " summary") t2).
      * cbn [skipn]. do 2 f_equal. lia.
      * destruct (startsWithIgnoreCase (lit " summary") (c2 :: t2));
          [|reflexivity].
        cbn [skipn]. do 2 f_equal. lia.
    + rewrite run_summaryTail.
      destruct (startsWithIgnoreCase (lit " summary") (c2 :: t2));
        [|reflexivity].
      cbn [skipn]. do 2 f_equal. lia.
Qed.

Lemma execFrom_summaryPattern (s : jsstring) : forall i,
  execFrom true summaryPattern i s = summaryRegexFrom i s.
Proof.
  induction s as [|c t IH]; intros i;
    cbn [execFrom summaryRegexFrom]; rewrite run_summaryPattern;
    unfold summaryAt.
  - destruct (summaryHead []) as [n|]; [|reflexivity].
    cbn [fst]. do 2 f_equal. f_equal. lia.
  - destruct (summaryHead (c :: t)) as [n|]; [|apply IH].
    cbn [fst]. do 2 f_equal. f_equal. lia.
Qed.

Lemma exec_summaryPattern body :
  exec true summaryPattern body = summaryRegex body.
Proof. apply execFrom_summaryPattern. Qed.

Lemma stripLeadingNewlines_length s :
  length (stripLeadingNewlines s) <= length s.
Proof.
  induction s as [|c t IH]; [apply le_n|].
  cbn [stripLeadingNewlines]. destruct (c =? nl)%N; cbn [length]; lia.
Qed.

Lemma stripLeadingNewlines_drop s :
  skipn (length s - length (stripLeadingNewlines s)) s
  = stripLeadingNewlines s.
Proof.
  induction s as [|c t IH]; [reflexivity|].
  cbn [stripLeadingNewlines]. destruct (c =? nl)%N.
  - pose proof (stripLeadingNewlines_length t).
    cbn [length].
    replace (S (length t) - length (stripLeadingNewlines t))
      with (S (length t - length (stripLeadingNewlines t))) by lia.
    exact IH.
  - now rewrite Nat.sub_diag.
Qed.

(** The iterations of [\n+] after the first take every newline there is. *)
Lemma greedyLoop_newlines (s : jsstring) : forall i,
  greedyLoop (run false (Unit nl)) Some (length s) (i, s)
  = Some (i + (length s - length (stripLeadingNewlines s)),
          stripLeadingNewlines s).
Proof.
  induction s as [|d t IH]; intros i.
  - cbn. now rewrite Nat.add_0_r.
  - cbn [length]. rewrite greedyLoop_S, run_Unit.
    cbn [sameUnit stripLeadingNewlines fst].
    destruct (d =? nl)%N.
    + rewrite ltb_succ, IH. pose proof (stripLeadingNewlines_length t).
      do 2 f_equal. lia.
    + cbn [length]. do 2 f_equal. lia.
Qed.

Lemma replace_leadingNewlines s :
  replace false leadingNewlines [] s = stripLeadingNewlines s.
Proof.
  unfold replace, exec, leadingNewlines.
  destruct s as [|d t]; [reflexivity|].
  cbn [execFrom]. rewrite run_Cat, run_InputStart. cbn [Nat.eqb].
  rewrite run_Plus, run_Unit. cbn [sameUnit stripLeadingNewlines snd].
  destruct (d =? nl)%N.
  - rewrite greedyLoop_newlines. cbn [fst index matched firstn app].
    pose proof (stripLeadingNewlines_length t) as Hlen.
    rewrite Nat.sub_0_r, length_firstn. cbn [length Nat.add].
    rewrite Nat.min_l by lia.
    cbn [skipn]. apply stripLeadingNewlines_drop.
  - now rewrite execFrom_InputStart by lia.
Qed.

(** [/##? summary[\s\S]*?(?=\n#+ |$)/i] has no match in a body exactly
    when the text [# summary] occurs nowhere in it, in any letter case. *)
Theorem summaryPattern_no_match body :
  exec true summaryPattern body = None <-> hasSummaryPattern body = false.
Proof. rewrite exec_summaryPattern. apply summaryRegex_None. Qed.

(** [/^---\n[\s\S]*?\n---/] has no match exactly when the content does not
    start with the line [---] or no newline followed by [---] occurs after
    that line. *)
Theorem frontmatterPattern_no_match content :
  exec false frontmatterPattern content = None
  <-> hasFrontmatter content = false.
Proof.
  rewrite exec_frontmatterPattern, <- frontmatterRegex_None.
  destruct (frontmatterRegex content); cbn [option_map]; split;
    solve [discriminate | reflexivity].
Qed.

(** *** insertSummarySection by cases *)

Lemma insertSummarySection_frontmatter content summary fm :
  frontmatterRegex content = Some fm ->
  insertSummarySection content summary
  = fm ++ mergeBody (skipn (length fm) content) summary.
Proof.
  intros H. unfold insertSummarySection. cbv zeta.
  rewrite exec_frontmatterPattern, H. cbn [option_map matched].
  unfold mergeBody, sliceFrom. rewrite exec_summaryPattern.
  destruct (summaryRegex (skipn (length fm) content));
    [rewrite replace_leadingNewlines|]; reflexivity.
Qed.

Lemma insertSummarySection_plain content summary :
  frontmatterRegex content = None ->
  insertSummarySection content summary
  = stripLeadingNewlines (mergeBody content summary).
Proof.
  intros H. unfold insertSummarySection. cbv zeta.
  rewrite exec_frontmatterPattern, H. cbn [option_map].
  unfold mergeBody. rewrite exec_summaryPattern.
  destruct (summaryRegex content);
    rewrite !replace_leadingNewlines; reflexivity.
Qed.

Lemma headingAhead_inv s :
  headingAhead s = true ->
  exists r, s = nl :: hash :: r /\ hashesThenSpace r = true.
Proof.
  destruct s as [|c1 [|c2 t]]; try discriminate. unfold headingAhead.
  intros H. apply andb_true_iff in H as [H H3].
  apply andb_true_iff in H as [H1 H2].
  apply N.eqb_eq in H1, H2. subst. now exists t.
Qed.

Lemma mergeBody_span body pre hd sec rest summary :
  summarySpan body pre hd sec rest ->
  mergeBody body summary = pre ++ summarySection summary ++ nl :: rest.
Proof.
  intros Hspan. unfold mergeBody. rewrite (summaryRegex_span _ _ _ _ _ Hspan).
  destruct Hspan as (-> & _ & _ & _ & Hrest). cbn [index matched].
  unfold sliceTo, sliceFrom.
  rewrite firstn_app, firstn_all, Nat.sub_diag, firstn_O, app_nil_r.
  replace (pre ++ hd ++ sec ++ rest) with ((pre ++ hd ++ sec) ++ rest)
    by now rewrite <- !app_assoc.
  replace (length pre + length (hd ++ sec)) with (length (pre ++ hd ++ sec))
    by now rewrite !length_app.
  rewrite skipn_app, skipn_all, Nat.sub_diag. cbn [skipn app].
  destruct Hrest as [->|H].
  - reflexivity.
  - apply headingAhead_inv in H as (r & -> & _). reflexivity.
Qed.

Lemma mergeBody_absent body summary :
  hasSummaryPattern body = false ->
  mergeBody body summary
  = [nl; nl] ++ summarySection summary
    ++ (if truthy (trim body) then [nl; nl] ++ trim body else [nl]).
Proof.
  intros H. apply summaryRegex_None in H. unfold mergeBody. rewrite H.
  destruct (truthy (trim body)); reflexivity.
Qed.

(** Without frontmatter and without the summary pattern the block goes to
    the top of the note. *)
Lemma insertSummarySection_absent content summary :
  hasFrontmatter content = false ->
  hasSummaryPattern content = false ->
  insertSummarySection content summary
  = summarySection summary
    ++ (if truthy (trim content) then [nl; nl] ++ trim content else [nl]).
Proof.
  intros Hf Hs. apply frontmatterRegex_None in Hf.
  rewrite (insertSummarySection_plain _ _ Hf), (mergeBody_absent _ _ Hs).
  reflexivity.
Qed.

Lemma blank_no_frontmatter s :
  forallb isWhiteSpace s = true -> hasFrontmatter s = false.
Proof.
  unfold hasFrontmatter. destruct s as [|c t]; [reflexivity|].
  intros H. apply andb_true_iff in H as [Hc _].
  change (startsWith fmOpen (c :: t))
    with ((c =? 45)%N && startsWith (skipn 1 fmOpen) t).
  destruct (N.eqb_spec c 45) as [->|_]; [discriminate|reflexivity].
Qed.

Lemma white_space_not_hash c :
  isWhiteSpace c = true -> (canonicalize c =? canonicalize hash)%N = false.
Proof.
  intros H. apply N.eqb_neq. change (canonicalize hash) with 35%N.
  unfold canonicalize. intros E.
  destruct ((97 <=? c)%N && (c <=? 122)%N) eqn:B.
  - apply andb_true_iff in B as [B1 B2].
    apply N.leb_le in B1, B2. lia.
  - subst c. discriminate.
Qed.

Lemma blank_no_summary s :
  forallb isWhiteSpace s = true -> hasSummaryPattern s = false.
Proof.
  unfold hasSummaryPattern. induction s as [|c t IH]; [reflexivity|].
  intros H. apply andb_true_iff in H as [Hc Ht].
  change (occursInIgnoreCase (lit "# summary") (c :: t))
    with ((canonicalize c =? canonicalize hash)%N
          && startsWithIgnoreCase (skipn 1 (lit "# summary")) t
          || occursInIgnoreCase (lit "# summary") t).
  now rewrite (white_space_not_hash _ Hc), (IH Ht).
Qed.

Lemma stripLeadingNewlines_app x c y :
  c <> nl ->
  stripLeadingNewlines (x ++ c :: y) = stripLeadingNewlines x ++ c :: y.
Proof.
  intros H. induction x as [|a x IH].
  - apply (stripLeadingNewlines_keep _ _ H).
  - simpl. destruct (a =? nl)%N; [exact IH|reflexivity].
Qed.

Lemma bodyOf_frontmatter content fm :
  frontmatterRegex content = Some fm ->
  frontmatterOf content = fm /\ content = fm ++ bodyOf content.
Proof.
  intros H. unfold bodyOf, frontmatterOf, sliceFrom. rewrite H.
  split; [reflexivity|].
  destruct (frontmatterRegex_inv _ _ H) as (inner & rest & -> & -> & _).
  replace (fmOpen ++ inner ++ fmClose ++ rest)
    with ((fmOpen ++ inner ++ fmClose) ++ rest) by now rewrite <- !app_assoc.
  now rewrite skipn_app, skipn_all, Nat.sub_diag.
Qed.

Lemma bodyOf_plain content :
  frontmatterRegex content = None ->
  frontmatterOf content = [] /\ bodyOf content = content.
Proof.
  intros H. unfold bodyOf, frontmatterOf. rewrite H. split; reflexivity.
Qed.

(** The replacement, for a note with or without frontmatter. *)
Lemma insertSummarySection_span content summary pre hd sec rest :
  summarySpan (bodyOf content) pre hd sec rest ->
  insertSummarySection content summary
  = match frontmatterRegex content with
    | Some fm => fm ++ pre
    | None => stripLeadingNewlines pre
    end ++ summarySection summary ++ nl :: rest.
Proof.
  intros Hspan. destruct (frontmatterRegex content) as [fm|] eqn:E.
  - rewrite (insertSummarySection_frontmatter _ _ _ E).
    destruct (bodyOf_frontmatter _ _ E) as [Hfm _].
    unfold bodyOf, sliceFrom in Hspan. rewrite Hfm in Hspan.
    rewrite (mergeBody_span _ _ _ _ _ summary Hspan).
    now rewrite <- app_assoc.
  - rewrite (insertSummarySection_plain _ _ E).
    destruct (bodyOf_plain _ E) as [_ Hb]. rewrite Hb in Hspan.
    rewrite (mergeBody_span _ _ _ _ _ summary Hspan).
    change (summarySection summary)
      with (hash :: skipn 1 (lit "# Summary") ++ [nl; nl] ++ trim summary).
    cbn [app]. apply stripLeadingNewlines_app. discriminate.
Qed.

(** *** Occurrences of the summary pattern *)

Lemma canonicalize_hash c :
  (canonicalize c =? canonicalize hash)%N = true -> c = hash.
Proof.
  intros H. apply N.eqb_eq in H. change (canonicalize hash) with 35%N in H.
  unfold canonicalize in H. unfold hash.
  destruct ((97 <=? c)%N && (c <=? 122)%N) eqn:B; [|exact H].
  apply andb_true_iff in B as [B1 B2]. apply N.leb_le in B1, B2. lia.
Qed.

Lemma canonicalize_space c :
  (canonicalize c =? canonicalize space)%N = true -> c = space.
Proof.
  intros H. apply N.eqb_eq in H. change (canonicalize space) with 32%N in H.
  unfold canonicalize in H. unfold space.
  destruct ((97 <=? c)%N && (c <=? 122)%N) eqn:B; [|exact H].
  apply andb_true_iff in B as [B1 B2]. apply N.leb_le in B1, B2. lia.
Qed.

Lemma startsWithIgnoreCase_app pat x y :
  startsWithIgnoreCase pat x = true ->
  startsWithIgnoreCase pat (x ++ y) = true.
Proof.
  revert x; induction pat as [|p pat IH]; intros x H; [reflexivity|].
  destruct x as [|c x]; [discriminate|]. simpl in *.
  apply andb_true_iff in H as [H1 H2]. now rewrite H1, (IH _ H2).
Qed.

Lemma occursInIgnoreCase_app pat x y :
  occursInIgnoreCase pat x = true -> occursInIgnoreCase pat (x ++ y) = true.
Proof.
  induction x as [|c x IH]; simpl; intros H.
  - rewrite orb_false_r in H.
    pose proof (startsWithIgnoreCase_app _ _ y H) as H'. simpl in H'.
    destruct y; simpl; now rewrite H'.
  - apply orb_true_iff in H as [H|H].
    + pose proof (startsWithIgnoreCase_app _ _ y H) as H'. simpl in H'.
      now rewrite H'.
    + rewrite (IH H). apply orb_true_r.
Qed.

Lemma occursInIgnoreCase_split pat a :
  occursInIgnoreCase pat a = true ->
  exists x y, a = x ++ y /\ startsWithIgnoreCase pat y = true.
Proof.
  induction a as [|c a IH]; simpl; intros H.
  - rewrite orb_false_r in H. now exists [], [].
  - apply orb_true_iff in H as [H|H].
    + now exists [], (c :: a).
    + destruct (IH H) as (x & y & -> & Hy). now exists (c :: x), y.
Qed.

Lemma summaryHead_of_pattern s :
  startsWithIgnoreCase (lit "# summary") s = true -> summaryHead s <> None.
Proof.
  intros H. unfold summaryHead. rewrite H.
  destruct (startsWithIgnoreCase (lit "## summary") s); discriminate.
Qed.

(** A pattern without a newline does not match across one. *)
Lemma startsWithIgnoreCase_no_newline pat :
  forallb (fun p => negb (canonicalize p =? nl)%N) pat = true ->
  forall s x later,
    startsWithIgnoreCase pat s = true -> s = x ++ nl :: later ->
    length pat <= length x.
Proof.
  induction pat as [|p pat IH]; intros Hp s x later H E; [simpl; lia|].
  simpl in Hp. apply andb_true_iff in Hp as [Hp1 Hp2].
  destruct s as [|c s]; [discriminate|]. simpl in H.
  apply andb_true_iff in H as [H1 H2].
  destruct x as [|d x].
  - injection E as -> _. change (canonicalize nl) with nl in H1.
    rewrite N.eqb_sym, H1 in Hp1. discriminate.
  - injection E as _ E. simpl. apply le_n_S. exact (IH Hp2 _ _ _ H2 E).
Qed.

Lemma summaryHead_no_newline x later h :
  summaryHead (x ++ nl :: later) = Some h -> h <= length x.
Proof.
  unfold summaryHead.
  destruct (startsWithIgnoreCase (lit "## summary") (x ++ nl :: later)) eqn:E2.
  - intros [= <-].
    exact (startsWithIgnoreCase_no_newline (lit "## summary") eq_refl
             _ _ _ E2 eq_refl).
  - destruct (startsWithIgnoreCase (lit "# summary") (x ++ nl :: later)) eqn:E1;
      [|discriminate].
    intros [= <-].
    exact (startsWithIgnoreCase_no_newline (lit "# summary") eq_refl
             _ _ _ E1 eq_refl).
Qed.

(** A summary heading at the start of a line is a heading for the
    lookahead. *)
Lemma summaryHead_heading later n :
  summaryHead later = Some n -> headingAhead (nl :: later) = true.
Proof.
  unfold summaryHead.
  destruct (startsWithIgnoreCase (lit "## summary") later) eqn:E2.
  - intros _. pose proof (startsWithIgnoreCase_length _ _ E2) as Hlen.
    destruct later as [|c1 [|c2 [|c3 t]]]; try (simpl in Hlen; lia).
    change (lit "## summary")
      with (hash :: hash :: space :: lit "summary") in E2.
    cbn [startsWithIgnoreCase] in E2.
    apply andb_true_iff in E2 as [H1 E2].
    apply andb_true_iff in E2 as [H2 E2].
    apply andb_true_iff in E2 as [H3 _].
    apply canonicalize_hash in H1, H2. apply canonicalize_space in H3.
    subst. reflexivity.
  - destruct (startsWithIgnoreCase (lit "# summary") later) eqn:E1;
      [|discriminate].
    intros _. pose proof (startsWithIgnoreCase_length _ _ E1) as Hlen.
    destruct later as [|c1 [|c2 t]]; try (simpl in Hlen; lia).
    change (lit "# summary") with (hash :: space :: lit "summary") in E1.
    cbn [startsWithIgnoreCase] in E1.
    apply andb_true_iff in E1 as [H1 E1].
    apply andb_true_iff in E1 as [H2 _].
    apply canonicalize_hash in H1. apply canonicalize_space in H2.
    subst. reflexivity.
Qed.

Lemma app_eq_app_le {A : Type} (x y u v : list A) :
  x ++ y = u ++ v -> length x <= length u ->
  exists m, u = x ++ m /\ y = m ++ v.
Proof.
  revert u; induction x as [|a x IH]; intros u E Hle.
  - now exists u.
  - destruct u as [|b u]; [simpl in Hle; lia|].
    injection E as -> E. simpl in Hle.
    destruct (IH u E ltac:(lia)) as (m & -> & ->). now exists m.
Qed.

(** *** The result of a merge, merged again *)

Lemma startsWithIgnoreCase_app_long pat : forall u z,
  length pat <= length u ->
  startsWithIgnoreCase pat (u ++ z) = startsWithIgnoreCase pat u.
Proof.
  induction pat as [|p pat IH]; intros u z H; [reflexivity|].
  destruct u as [|c u]; [simpl in H; lia|].
  simpl in *. rewrite IH by lia. reflexivity.
Qed.

Lemma startsWithIgnoreCase_app_short u : forall pat z,
  startsWithIgnoreCase pat (u ++ z) = true ->
  length u <= length pat ->
  startsWithIgnoreCase (skipn (length u) pat) z = true.
Proof.
  induction u as [|c u IH]; intros pat z H Hle; [exact H|].
  destruct pat as [|p pat]; [simpl in Hle; lia|].
  simpl in *. apply andb_true_iff in H as [_ H]. apply IH; [exact H|lia].
Qed.

Lemma summary_tail_not_hash1 k z :
  1 <= k < 9 ->
  startsWithIgnoreCase (skipn k (lit "# summary")) (hash :: z) = false.
Proof.
  intros H. do 9 (destruct k as [|k]; [try lia; try reflexivity|]). lia.
Qed.

Lemma summary_tail_not_hash2 k z :
  2 <= k < 10 ->
  startsWithIgnoreCase (skipn k (lit "## summary")) (hash :: z) = false.
Proof.
  intros H. do 10 (destruct k as [|k]; [try lia; try reflexivity|]). lia.
Qed.

(** Where the summary pattern did not match before a summary heading, it
    does not match before the canonical block either, unless a [#] stands
    right before the block. *)
Lemma summaryHead_before_block u X Y :
  u <> [] -> (forall p, u <> p ++ [hash]) ->
  summaryHead (u ++ X) = None ->
  summaryHead (u ++ hash :: Y) = None.
Proof.
  intros Hu Hlast. unfold summaryHead.
  destruct (startsWithIgnoreCase (lit "## summary") (u ++ X)) eqn:A2;
    [discriminate|].
  destruct (startsWithIgnoreCase (lit "# summary") (u ++ X)) eqn:A1;
    [discriminate|].
  intros _.
  assert (B2 : startsWithIgnoreCase (lit "## summary") (u ++ hash :: Y)
               = false).
  { destruct (Nat.le_gt_cases 10 (length u)) as [L|L].
    - rewrite startsWithIgnoreCase_app_long by exact L.
      rewrite startsWithIgnoreCase_app_long in A2 by exact L. exact A2.
    - destruct (startsWithIgnoreCase (lit "## summary") (u ++ hash :: Y))
        eqn:B; [exfalso|reflexivity].
      destruct u as [|c [|d u]]; [congruence| |].
      + change (lit "## summary") with (hash :: lit "# summary") in B.
        simpl in B. apply andb_true_iff in B as [B _].
        apply canonicalize_hash in B. subst c. now apply (Hlast []).
      + apply startsWithIgnoreCase_app_short in B; [|simpl in *; lia].
        rewrite summary_tail_not_hash2 in B; [discriminate|simpl in *; lia]. }
  assert (B1 : startsWithIgnoreCase (lit "# summary") (u ++ hash :: Y)
               = false).
  { destruct (Nat.le_gt_cases 9 (length u)) as [L|L].
    - rewrite startsWithIgnoreCase_app_long by exact L.
      rewrite startsWithIgnoreCase_app_long in A1 by exact L. exact A1.
    - destruct (startsWithIgnoreCase (lit "# summary") (u ++ hash :: Y))
        eqn:B; [exfalso|reflexivity].
      destruct u as [|c u]; [congruence|].
      apply startsWithIgnoreCase_app_short in B; [|simpl in *; lia].
      rewrite summary_tail_not_hash1 in B; [discriminate|simpl in *; lia]. }
  now rewrite B2, B1.
Qed.

Lemma hashesThenSpace_before_newline x y :
  hashesThenSpace (x ++ nl :: y) = hashesThenSpace x.
Proof.
  induction x as [|c x IH]; [reflexivity|].
  simpl. now rewrite IH.
Qed.

Lemma headingAhead_before_newline x y :
  x <> [] -> headingAhead (x ++ nl :: y) = headingAhead x.
Proof.
  intros Hx. destruct x as [|c1 [|c2 x]]; [congruence| |].
  - simpl. now rewrite andb_false_r.
  - cbn [app headingAhead]. now rewrite hashesThenSpace_before_newline.
Qed.

Lemma occursHeading_skipn s : forall j,
  occursHeading s = false -> headingAhead (skipn j s) = false.
Proof.
  induction s as [|c s IH]; intros j H.
  - now destruct j.
  - cbn [occursHeading] in H. apply orb_false_iff in H as [H1 H2].
    destruct j as [|j]; [exact H1|]. apply IH, H2.
Qed.

(** No heading starts inside what follows [# Summary] in the canonical
    block, when the summary has no heading line. *)
Lemma block_no_heading ts rest :
  occursHeading (nl :: ts) = false ->
  rest = [] \/ headingAhead rest = true ->
  forall j, j < length ([nl; nl] ++ ts ++ [nl]) ->
            headingAhead (skipn j (([nl; nl] ++ ts ++ [nl]) ++ rest)) = false.
Proof.
  intros Hts Hrest j Hj. destruct j as [|j]; [reflexivity|].
  change (skipn (S j) (([nl; nl] ++ ts ++ [nl]) ++ rest))
    with (skipn j (nl :: (ts ++ [nl]) ++ rest)).
  replace (nl :: (ts ++ [nl]) ++ rest) with ((nl :: ts) ++ nl :: rest)
    by (simpl; now rewrite <- app_assoc).
  simpl in Hj. rewrite length_app in Hj. simpl in Hj.
  destruct (Nat.eq_dec j (length (nl :: ts))) as [->|Hne].
  - rewrite skipn_app, skipn_all, Nat.sub_diag. cbn [skipn app].
    destruct Hrest as [->|H]; [reflexivity|].
    apply headingAhead_inv in H as (r & -> & _). reflexivity.
  - assert (Hlt : j < length (nl :: ts)) by (simpl in *; lia).
    rewrite skipn_app. replace (j - length (nl :: ts)) with 0 by lia.
    cbn [skipn]. rewrite headingAhead_before_newline.
    + now apply occursHeading_skipn.
    + intros E. apply (f_equal (@length _)) in E. rewrite length_skipn in E.
      cbn [length] in E, Hlt. lia.
Qed.


Lemma stripLeadingNewlines_skipn s :
  exists k, stripLeadingNewlines s = skipn k s.
Proof.
  induction s as [|c s [k IH]].
  - now exists 0.
  - simpl. destruct (c =? nl)%N; [now exists (S k)|now exists 0].
Qed.

Lemma summaryHead_hash s n :
  summaryHead s = Some n -> exists t, s = hash :: t.
Proof.
  intros H. assert (E : startsWithIgnoreCase [hash] s = true).
  { unfold summaryHead in H.
    destruct (startsWithIgnoreCase (lit "## summary") s) eqn:E2.
    - pose proof (startsWithIgnoreCase_length _ _ E2) as L.
      destruct s as [|c s]; [simpl in L; lia|].
      change (lit "## summary") with (hash :: lit "# summary") in E2.
      simpl in *. apply andb_true_iff in E2 as [-> _]. reflexivity.
    - destruct (startsWithIgnoreCase (lit "# summary") s) eqn:E1;
        [|discriminate].
      pose proof (startsWithIgnoreCase_length _ _ E1) as L.
      destruct s as [|c s]; [simpl in L; lia|].
      change (lit "# summary") with (hash :: lit " summary") in E1.
      simpl in *. apply andb_true_iff in E1 as [-> _]. reflexivity. }
  destruct s as [|c s]; [discriminate|]. simpl in E.
  rewrite andb_true_r in E. apply canonicalize_hash in E. subst c.
  now exists s.
Qed.

(** What stands before the first occurrence of the pattern has no
    occurrence either when the canonical block follows it. *)
Lemma no_match_before_block pre X Y k :
  (forall j, j < length pre -> summaryHead (skipn j (pre ++ X)) = None) ->
  (forall p, pre <> p ++ [hash]) ->
  forall j, j < length (skipn k pre) ->
            summaryHead (skipn j (skipn k pre ++ hash :: Y)) = None.
Proof.
  intros Hpre Hlast j Hj. rewrite length_skipn in Hj.
  rewrite skipn_app, length_skipn.
  replace (j - (length pre - k)) with 0 by lia. cbn [skipn].
  rewrite skipn_skipn.
  assert (Hjk : j + k < length pre) by lia.
  apply summaryHead_before_block with (X := X).
  - intros E. apply (f_equal (@length _)) in E. rewrite length_skipn in E.
    cbn [length] in E. lia.
  - intros p E. apply (Hlast (firstn (j + k) pre ++ p)).
    rewrite <- app_assoc, <- E. symmetry. apply firstn_skipn.
  - specialize (Hpre _ Hjk). rewrite skipn_app in Hpre.
    replace (j + k - length pre) with 0 in Hpre by lia. exact Hpre.
Qed.

Lemma startsWith_fmOpen_swap u A B :
  startsWith fmOpen (u ++ hash :: A) = startsWith fmOpen (u ++ hash :: B).
Proof.
  destruct u as [|a [|b [|c [|d u]]]]; reflexivity.
Qed.



(** *** Summary headings and the summary pattern *)

Lemma lines_head s l0 ls : lines s = l0 :: ls -> exists y, s = l0 ++ y.
Proof.
  revert l0 ls; induction s as [|c t IH]; intros l0 ls H; simpl in H.
  - injection H as <- _. now exists [].
  - destruct (c =? nl)%N.
    + injection H as <- _. now exists (c :: t).
    + destruct (lines t) as [|l1 ls1] eqn:E.
      * injection H as <- _. now exists t.
      * injection H as <- _. destruct (IH _ _ eq_refl) as [y ->].
        now exists y.
Qed.

Lemma lines_substring s : forall l,
  In l (lines s) -> exists x y, s = x ++ l ++ y.
Proof.
  induction s as [|c t IH]; intros l Hin; simpl in Hin.
  - destruct Hin as [<-|[]]. now exists [], [].
  - destruct (c =? nl)%N.
    + destruct Hin as [<-|Hin]; [now exists [], (c :: t)|].
      destruct (IH _ Hin) as (x & y & ->). now exists (c :: x), y.
    + destruct (lines t) as [|l1 ls1] eqn:E.
      * destruct Hin as [<-|[]]. now exists [], t.
      * destruct Hin as [<-|Hin].
        -- destruct (lines_head _ _ _ E) as [y ->]. now exists [], y.
        -- destruct (IH l (or_intror Hin)) as (x & y & ->).
           now exists (c :: x), y.
Qed.

Lemma occursInIgnoreCase_at pat x z :
  startsWithIgnoreCase pat z = true ->
  occursInIgnoreCase pat (x ++ z) = true.
Proof.
  intros H. induction x as [|c x IH].
  - destruct z; simpl; now rewrite H.
  - simpl. rewrite IH. apply orb_true_r.
Qed.

(** A line that is a summary heading is an occurrence of the pattern. *)
Lemma summary_heading_has_pattern body :
  hasSummaryHeading body = true -> hasSummaryPattern body = true.
Proof.
  unfold hasSummaryHeading, hasSummaryPattern. intros H.
  apply existsb_exists in H as (l & Hin & Hl).
  destruct (lines_substring _ _ Hin) as (x & y & ->).
  unfold isSummaryHeading in Hl. apply orb_true_iff in Hl as [Hl|Hl];
    apply andb_true_iff in Hl as [_ Hl].
  - apply occursInIgnoreCase_at. now apply startsWithIgnoreCase_app.
  - pose proof (startsWithIgnoreCase_length _ _ Hl) as Hlen.
    destruct l as [|c l]; [simpl in Hlen; lia|].
    apply startsWithIgnoreCase_tail in Hl.
    replace (x ++ (c :: l) ++ y) with ((x ++ [c]) ++ l ++ y)
      by now rewrite <- app_assoc.
    apply occursInIgnoreCase_at. now apply startsWithIgnoreCase_app.
Qed.

(** Where the pattern occurs there is a span, and one only. *)
Lemma summarySpan_exists body :
  hasSummaryPattern body = true ->
  exists pre hd sec rest, summarySpan body pre hd sec rest.
Proof.
  intros H. destruct (summaryRegex body) as [m|] eqn:E.
  - apply summaryRegex_inv in E as (pre & hd & sec & rest & Hspan & _).
    now exists pre, hd, sec, rest.
  - apply summaryRegex_None in E. congruence.
Qed.

Lemma summarySpan_unique body pre hd sec rest pre' hd' sec' rest' :
  summarySpan body pre hd sec rest ->
  summarySpan body pre' hd' sec' rest' ->
  pre = pre' /\ hd ++ sec = hd' ++ sec' /\ rest = rest'.
Proof.
  intros H H'. pose proof (summaryRegex_span _ _ _ _ _ H) as E.
  pose proof (summaryRegex_span _ _ _ _ _ H') as E'.
  rewrite E in E'. injection E' as El Em.
  destruct H as (Hb & _). destruct H' as (Hb' & _).
  assert (Hpre : pre = pre').
  { rewrite Hb in Hb'.
    destruct (app_eq_app_le _ _ _ _ Hb' ltac:(lia)) as (m & -> & _).
    rewrite length_app in El. destruct m; [now rewrite app_nil_r|].
    simpl in El. lia. }
  subst pre'. split; [reflexivity|]. split; [exact Em|].
  rewrite Hb in Hb'. apply app_inv_head in Hb'.
  rewrite !app_assoc, Em in Hb'. now apply app_inv_head in Hb'.
Qed.

(** *** The cases of src/summarize.test.ts *)

Example test_empty_note :
  insertSummarySection [] (lit "This is the summary.")
  = lit "# Summary" ++ [nl; nl] ++ lit "This is the summary." ++ [nl].
Proof. reflexivity. Qed.

Example test_before_existing_content :
  insertSummarySection
    (lit "# My Note" ++ [nl; nl] ++ lit "Some content here.")
    (lit "This is the summary.")
  = lit "# Summary" ++ [nl; nl] ++ lit "This is the summary." ++ [nl; nl]
    ++ lit "# My Note" ++ [nl; nl] ++ lit "Some content here.".
Proof. reflexivity. Qed.

Example test_frontmatter_only_whitespace_after :
  insertSummarySection
    (lit "---" ++ [nl] ++ lit "title: Note" ++ [nl] ++ lit "---" ++ [nl; nl])
    (lit "The summary.")
  = lit "---" ++ [nl] ++ lit "title: Note" ++ [nl] ++ lit "---" ++ [nl; nl]
    ++ lit "# Summary" ++ [nl; nl] ++ lit "The summary." ++ [nl].
Proof. reflexivity. Qed.

Example test_replace_after_frontmatter :
  insertSummarySection
    (lit "---" ++ [nl] ++ lit "title: Note" ++ [nl] ++ lit "---" ++ [nl; nl]
     ++ lit "# Summary" ++ [nl] ++ lit "Old summary." ++ [nl; nl]
     ++ lit "## Content" ++ [nl] ++ lit "Main content here.")
    (lit "Updated summary.")
  = lit "---" ++ [nl] ++ lit "title: Note" ++ [nl] ++ lit "---" ++ [nl; nl]
    ++ lit "# Summary" ++ [nl; nl] ++ lit "Updated summary." ++ [nl; nl]
    ++ lit "## Content" ++ [nl] ++ lit "Main content here.".
Proof. reflexivity. Qed.

Example test_replaces_paragraphs_under_summary :
  insertSummarySection
    (lit "# Summary" ++ [nl] ++ lit "Old summary." ++ [nl; nl]
     ++ lit "Some paragraph under summary." ++ [nl; nl]
     ++ lit "## Next Section" ++ [nl] ++ lit "Content.")
    (lit "New summary.")
  = lit "# Summary" ++ [nl; nl] ++ lit "New summary." ++ [nl; nl]
    ++ lit "## Next Section" ++ [nl] ++ lit "Content.".
Proof. reflexivity. Qed.

Example test_trims_summary :
  insertSummarySection (lit "# Note")
    (lit "  Summary with spaces.  " ++ [nl; nl])
  = lit "# Summary" ++ [nl; nl] ++ lit "Summary with spaces." ++ [nl; nl]
    ++ lit "# Note".
Proof. reflexivity. Qed.

Example test_case_insensitive_heading :
  insertSummarySection
    (lit "## SUMMARY" ++ [nl] ++ lit "Old content." ++ [nl; nl]
     ++ lit "## Other" ++ [nl] ++ lit "More content.")
    (lit "New summary.")
  = lit "# Summary" ++ [nl; nl] ++ lit "New summary." ++ [nl; nl]
    ++ lit "## Other" ++ [nl] ++ lit "More content.".
Proof. reflexivity. Qed.

(** *** Insertion of a new section *)

(** Where the text [# summary] occurs nowhere in it, in any letter case, a
    content without frontmatter whose trimmed text is not empty becomes the
    canonical block (the heading [# Summary], a blank line and the trimmed
    summary), one blank line, and the trimmed content.  Trimming takes a
    run of white space from each end of a text and nothing else.  The case
    of the test suite, ["# My Note\n\nSome content here."] with the summary
    ["This is the summary."], is one instance. *)
Theorem insert_before_content :
  (forall content summary,
      hasFrontmatter content = false ->
      hasSummaryPattern content = false ->
      trim content <> [] ->
      insertSummarySection content summary
      = lit "# Summary" ++ [nl; nl] ++ trim summary
        ++ [nl; nl] ++ trim content)
  /\ (forall text,
         (exists l r, text = l ++ trim text ++ r
                      /\ forallb isWhiteSpace l = true
                      /\ forallb isWhiteSpace r = true)
         /\ (forall c t, trim text = c :: t -> isWhiteSpace c = false)
         /\ (forall t c, trim text = t ++ [c] -> isWhiteSpace c = false))
  /\ insertSummarySection
       (lit "# My Note" ++ [nl; nl] ++ lit "Some content here.")
       (lit "This is the summary.")
     = lit "# Summary" ++ [nl; nl] ++ lit "This is the summary." ++ [nl; nl]
       ++ lit "# My Note" ++ [nl; nl] ++ lit "Some content here.".
Proof.
  split; [|split; [|reflexivity]].
  - intros content summary Hf Hs Ht.
    rewrite (insertSummarySection_absent _ _ Hf Hs).
    destruct (trim content) as [|c t]; [congruence|].
    unfold summarySection. cbn [truthy]. now rewrite <- !app_assoc.
  - intros text. split; [apply trim_split|]. split.
    + apply trim_head.
    + apply trim_last.
Qed.

Lemma insert_before_content_witness :
  let content :=
    [space; nl] ++ lit "Just some plain text." ++ [nl; nl]
    ++ lit "Second paragraph." ++ [space; nl] in
  let summary := [nl] ++ lit "  Summary text. " ++ [nl] in
  hasFrontmatter content = false
  /\ hasSummaryPattern content = false
  /\ trim content <> []
  /\ insertSummarySection content summary
     = lit "# Summary" ++ [nl; nl] ++ lit "Summary text." ++ [nl; nl]
       ++ lit "Just some plain text." ++ [nl; nl] ++ lit "Second paragraph.".
Proof.
  intros content summary.
  assert (Hf : hasFrontmatter content = false) by reflexivity.
  assert (Hs : hasSummaryPattern content = false) by reflexivity.
  assert (Ht : trim content <> []) by discriminate.
  split; [exact Hf|]. split; [exact Hs|]. split; [exact Ht|].
  exact (proj1 insert_before_content content summary Hf Hs Ht).
Defined.

(** C6 at the failing inputs.  Each of the two notes has no frontmatter and
    no summary heading (no line of it is a heading at all), and its trimmed
    text is not empty.  It does not get the block at its start: the text
    [# summary] inside a line is taken for a summary section, the heading
    and the summary are put in the middle of that line, and the text from
    there to the end of the note is lost.  The example of the specification
    holds. *)
Theorem insert_replaces_inline_text :
  let content := lit "see the # summary below" in
  let note :=
    lit "Intro about the C# summary." ++ [nl; nl] ++ lit "More text." in
  (hasFrontmatter content = false
   /\ frontmatterBlock content = None
   /\ hasSummaryHeading content = false
   /\ existsb (startsWith [hash]) (lines content) = false
   /\ trim content = content
   /\ insertSummarySection content (lit "S")
      = lit "see the # Summary" ++ [nl; nl] ++ lit "S" ++ [nl]
   /\ insertSummarySection content (lit "S")
      <> lit "# Summary" ++ [nl; nl] ++ lit "S" ++ [nl; nl] ++ trim content)
  /\ (hasFrontmatter note = false
      /\ frontmatterBlock note = None
      /\ hasSummaryHeading note = false
      /\ existsb (startsWith [hash]) (lines note) = false
      /\ trim note = note
      /\ insertSummarySection note (lit "S")
         = lit "Intro about the C# Summary" ++ [nl; nl] ++ lit "S" ++ [nl]
      /\ insertSummarySection note (lit "S")
         <> lit "# Summary" ++ [nl; nl] ++ lit "S" ++ [nl; nl] ++ trim note)
  /\ insertSummarySection
       (lit "# My Note" ++ [nl; nl] ++ lit "Some content here.")
       (lit "This is the summary.")
     = lit "# Summary" ++ [nl; nl] ++ lit "This is the summary." ++ [nl; nl]
       ++ lit "# My Note" ++ [nl; nl] ++ lit "Some content here.".
Proof. repeat split; discriminate. Qed.

(** C8.  A content that is empty or only white space (so it has no
    frontmatter) becomes the canonical block and a single newline; the
    summary is inserted without the white space at its two ends and is
    otherwise untouched. *)
Theorem insert_into_blank :
  (forall content summary,
      forallb isWhiteSpace content = true ->
      insertSummarySection content summary
      = lit "# Summary" ++ [nl; nl] ++ trim summary ++ [nl])
  /\ (forall summary,
         (exists l r, summary = l ++ trim summary ++ r
                      /\ forallb isWhiteSpace l = true
                      /\ forallb isWhiteSpace r = true)
         /\ (forall c t, trim summary = c :: t -> isWhiteSpace c = false)
         /\ (forall t c, trim summary = t ++ [c] -> isWhiteSpace c = false))
  /\ insertSummarySection [] (lit "hi")
     = lit "# Summary" ++ [nl; nl] ++ lit "hi" ++ [nl].
Proof.
  split; [|split; [|reflexivity]].
  - intros content summary H.
    rewrite (insertSummarySection_absent _ _ (blank_no_frontmatter _ H)
               (blank_no_summary _ H)).
    rewrite (trim_blank _ H). unfold summarySection. cbn [truthy].
    now rewrite <- !app_assoc.
  - intros summary. split; [apply trim_split|]. split.
    + apply trim_head.
    + apply trim_last.
Qed.

Lemma insert_into_blank_witness :
  let content := [space; nl; 9%N] in
  let summary := [nl] ++ lit " one" ++ [nl; nl] ++ lit "two  " in
  forallb isWhiteSpace content = true
  /\ insertSummarySection content summary
     = lit "# Summary" ++ [nl; nl] ++ (lit "one" ++ [nl; nl] ++ lit "two")
       ++ [nl].
Proof.
  split; [reflexivity|].
  exact (proj1 insert_into_blank [space; nl; 9%N]
           ([nl] ++ lit " one" ++ [nl; nl] ++ lit "two  ") eq_refl).
Defined.

(** *** Frontmatter *)

(** What the code keeps.  A content that opens with the line [---], goes
    on with [inner], in which no newline is followed by [---], and then has
    a newline and [---], keeps that block, code unit for code unit, at the
    start of the result; for the frontmatter ["---\ntitle: Note\n---"] with
    no body and the summary ["S"] the result is the frontmatter followed by
    ["\n\n# Summary\n\nS\n"]. *)
Theorem frontmatter_kept :
  (forall inner rest summary,
      occursIn fmClose inner = false ->
      exists body,
        insertSummarySection (fmOpen ++ inner ++ fmClose ++ rest) summary
        = (fmOpen ++ inner ++ fmClose) ++ body)
  /\ insertSummarySection
       (lit "---" ++ [nl] ++ lit "title: Note" ++ [nl] ++ lit "---")
       (lit "S")
     = (lit "---" ++ [nl] ++ lit "title: Note" ++ [nl] ++ lit "---")
       ++ [nl; nl] ++ lit "# Summary" ++ [nl; nl] ++ lit "S" ++ [nl].
Proof.
  split; [|reflexivity].
  intros inner rest summary H.
  pose proof (frontmatterRegex_block inner rest H) as Hfm.
  rewrite (insertSummarySection_frontmatter _ summary _ Hfm).
  eexists. reflexivity.
Qed.

Lemma frontmatter_kept_witness :
  let inner := lit "title: My Note" ++ [nl] ++ lit "date: 2025-01-01" in
  let rest := [nl; nl] ++ lit "# My Note" ++ [nl; nl] ++ lit "Content here." in
  occursIn fmClose inner = false
  /\ exists body,
       insertSummarySection (fmOpen ++ inner ++ fmClose ++ rest)
         (lit "This is the summary.")
       = (fmOpen ++ inner ++ fmClose) ++ body.
Proof.
  split; [reflexivity|].
  exact (proj1 frontmatter_kept
           (lit "title: My Note" ++ [nl] ++ lit "date: 2025-01-01")
           ([nl; nl] ++ lit "# My Note" ++ [nl; nl] ++ lit "Content here.")
           (lit "This is the summary.") eq_refl).
Defined.

(** C7 at the failing inputs.  Each of the two notes begins with a
    frontmatter block delimited by [---] lines.  The first block is empty:
    the closing line follows the opening line at once; the code finds no
    frontmatter, and the summary is put above the dashes, so that the result
    does not begin with the block.  The second block has a line that starts
    with [---] and goes on; the code ends the frontmatter in the middle of
    that line and puts the summary inside the block.  The example of the
    specification, a block with one line and no body, holds. *)
Theorem frontmatter_block_not_kept :
  let empty := lit "---" ++ [nl] ++ lit "---" ++ [nl] ++ lit "body" in
  let emptyBlock := lit "---" ++ [nl] ++ lit "---" in
  let dashed :=
    lit "---" ++ [nl] ++ lit "title: a" ++ [nl] ++ lit "---b" ++ [nl]
    ++ lit "---" ++ [nl] ++ lit "body" in
  let dashedBlock :=
    lit "---" ++ [nl] ++ lit "title: a" ++ [nl] ++ lit "---b" ++ [nl]
    ++ lit "---" in
  let example := lit "---" ++ [nl] ++ lit "title: Note" ++ [nl] ++ lit "---" in
  (frontmatterBlock empty = Some emptyBlock
   /\ startsWith emptyBlock empty = true
   /\ insertSummarySection empty (lit "S")
      = lit "# Summary" ++ [nl; nl] ++ lit "S" ++ [nl; nl] ++ empty
   /\ startsWith emptyBlock (insertSummarySection empty (lit "S")) = false)
  /\ (frontmatterBlock dashed = Some dashedBlock
      /\ startsWith dashedBlock dashed = true
      /\ insertSummarySection dashed (lit "S")
         = lit "---" ++ [nl] ++ lit "title: a" ++ [nl] ++ lit "---"
           ++ [nl; nl] ++ lit "# Summary" ++ [nl; nl] ++ lit "S" ++ [nl; nl]
           ++ lit "b" ++ [nl] ++ lit "---" ++ [nl] ++ lit "body"
      /\ startsWith dashedBlock (insertSummarySection dashed (lit "S"))
         = false)
  /\ (frontmatterBlock example = Some example
      /\ insertSummarySection example (lit "S")
         = example ++ [nl; nl] ++ lit "# Summary" ++ [nl; nl] ++ lit "S"
           ++ [nl]).
Proof. repeat split. Qed.

(** A block whose lines end in a carriage return and a newline is not found
    either: the summary goes above it. *)
Example frontmatter_crlf_not_detected :
  let cr := 13%N in
  let content :=
    lit "---" ++ [cr; nl] ++ lit "title: a" ++ [cr; nl] ++ lit "---"
    ++ [cr; nl] ++ lit "body" in
  insertSummarySection content (lit "S")
  = lit "# Summary" ++ [nl; nl] ++ lit "S" ++ [nl; nl] ++ content.
Proof. reflexivity. Qed.

(** The block ends with the first newline that is followed by [---],
    whatever comes after the dashes on that line. *)
Example frontmatter_ends_at_first_dashes :
  insertSummarySection
    (lit "---" ++ [nl] ++ lit "a" ++ [nl] ++ lit "---b") (lit "S")
  = (lit "---" ++ [nl] ++ lit "a" ++ [nl] ++ lit "---")
    ++ [nl; nl] ++ lit "# Summary" ++ [nl; nl] ++ lit "S" ++ [nl; nl]
    ++ lit "b".
Proof. reflexivity. Qed.




(** *** Replacement of an existing section *)

(** C1 at the failing inputs.  The replacement is not reserved to a heading
    that is literally [summary].  In the first note no line is a heading:
    the text [# summary] stands in the middle of a line, and the code
    replaces from there to the end of the note, so that the rest of the
    line is lost.  In the second note the heading only starts with the
    word, and the section under it is replaced as if it were the summary.
    Neither note has a line that is a summary heading, and neither is left
    whole under a new block.  The case of the specification, the section
    under [## SUMMARY] replaced and its heading made [# Summary], holds. *)
Theorem summary_text_in_line_replaced :
  let inline := lit "see the # summary below" in
  let titled := lit "## Summary of findings" ++ [nl] ++ lit "data" in
  (hasSummaryHeading inline = false
   /\ existsb (startsWith [hash]) (lines inline) = false
   /\ insertSummarySection inline (lit "S")
      = lit "see the # Summary" ++ [nl; nl] ++ lit "S" ++ [nl]
   /\ insertSummarySection inline (lit "S")
      <> summarySection (lit "S") ++ [nl; nl] ++ inline)
  /\ (hasSummaryHeading titled = false
      /\ insertSummarySection titled (lit "S")
         = lit "# Summary" ++ [nl; nl] ++ lit "S" ++ [nl]
      /\ insertSummarySection titled (lit "S")
         <> summarySection (lit "S") ++ [nl; nl] ++ titled)
  /\ insertSummarySection
       (lit "## SUMMARY" ++ [nl] ++ lit "Old content." ++ [nl; nl]
        ++ lit "## Other" ++ [nl] ++ lit "More content.")
       (lit "New summary.")
     = lit "# Summary" ++ [nl; nl] ++ lit "New summary." ++ [nl; nl]
       ++ lit "## Other" ++ [nl] ++ lit "More content.".
Proof. repeat split; discriminate. Qed.

(** Without frontmatter the last step removes the newlines at the top of
    the note, also those that were the note's own. *)
Example leading_newlines_removed :
  insertSummarySection
    ([nl; nl] ++ lit "Intro" ++ [nl] ++ lit "# Summary" ++ [nl] ++ lit "old")
    (lit "S")
  = lit "Intro" ++ [nl] ++ lit "# Summary" ++ [nl; nl] ++ lit "S" ++ [nl].
Proof. reflexivity. Qed.

(** What the code replaces.  Wherever the text [# summary] or [## summary]
    first occurs in the body, in any letter case, as a whole heading or not,
    the span from there up to the newline before the next heading (a
    newline, hashes and a space), or up to the end of the body, is replaced
    by the canonical block and a newline; the frontmatter, the body before
    the span and everything from that newline on are kept.  A body with a
    summary heading has such an occurrence.  Stated for a note with
    frontmatter and for a note without frontmatter that does not begin with
    a newline.  The case of the test suite, [## SUMMARY] made [# Summary],
    is one instance. *)
Theorem summary_span_replaced :
  (forall body, hasSummaryHeading body = true -> hasSummaryPattern body = true)
  /\ (forall content summary,
         hasSummaryPattern (bodyOf content) = true ->
         (frontmatterRegex content = None -> forall t, content <> nl :: t) ->
         exists pre hd sec rest,
           summarySpan (bodyOf content) pre hd sec rest
           /\ insertSummarySection content summary
              = frontmatterOf content ++ pre ++ summarySection summary
                ++ nl :: rest)
  /\ (forall content summary pre hd sec rest,
         summarySpan (bodyOf content) pre hd sec rest ->
         (frontmatterRegex content = None -> forall t, content <> nl :: t) ->
         insertSummarySection content summary
         = frontmatterOf content ++ pre ++ summarySection summary
           ++ nl :: rest)
  /\ insertSummarySection
       (lit "## SUMMARY" ++ [nl] ++ lit "Old content." ++ [nl; nl]
        ++ lit "## Other" ++ [nl] ++ lit "More content.")
       (lit "New summary.")
     = lit "# Summary" ++ [nl; nl] ++ lit "New summary." ++ [nl; nl]
       ++ lit "## Other" ++ [nl] ++ lit "More content.".
Proof.
  assert (Hmain : forall content summary pre hd sec rest,
             summarySpan (bodyOf content) pre hd sec rest ->
             (frontmatterRegex content = None ->
              forall t, content <> nl :: t) ->
             insertSummarySection content summary
             = frontmatterOf content ++ pre ++ summarySection summary
               ++ nl :: rest).
  { intros content summary pre hd sec rest Hspan Hnl.
    rewrite (insertSummarySection_span _ summary _ _ _ _ Hspan).
    destruct (frontmatterRegex content) as [fm|] eqn:E.
    - destruct (bodyOf_frontmatter _ _ E) as [-> _].
      now rewrite <- app_assoc.
    - destruct (bodyOf_plain _ E) as [-> Hb]. cbn [app]. f_equal.
      destruct pre as [|c pre]; [reflexivity|].
      apply stripLeadingNewlines_keep. intros ->.
      destruct Hspan as (Hbody & _). rewrite Hb in Hbody.
      exact (Hnl eq_refl _ Hbody). }
  split; [exact summary_heading_has_pattern|].
  split; [|split; [exact Hmain|reflexivity]].
  intros content summary Hpat Hnl.
  destruct (summarySpan_exists _ Hpat) as (pre & hd & sec & rest & Hspan).
  exists pre, hd, sec, rest. split; [exact Hspan|].
  exact (Hmain _ summary _ _ _ _ Hspan Hnl).
Qed.

Lemma summary_span_replaced_witness :
  let fm := lit "---" ++ [nl] ++ lit "title: Note" ++ [nl] ++ lit "---" in
  let pre := [nl; nl] in
  let hd := lit "# Summary" in
  let sec := [nl] ++ lit "Old summary." ++ [nl] in
  let rest := [nl] ++ lit "## Content" ++ [nl] ++ lit "Main content here." in
  let content := fm ++ pre ++ hd ++ sec ++ rest in
  summarySpan (bodyOf content) pre hd sec rest
  /\ (frontmatterRegex content = None -> forall t, content <> nl :: t)
  /\ insertSummarySection content (lit "Updated summary.")
     = fm ++ pre ++ summarySection (lit "Updated summary.") ++ nl :: rest.
Proof.
  intros fm pre hd sec rest content.
  assert (Hspan : summarySpan (bodyOf content) pre hd sec rest).
  { split; [reflexivity|]. split; [reflexivity|]. split; [|split].
    - intros j Hj. do 2 (destruct j as [|j]; [reflexivity|]).
      simpl in Hj. lia.
    - intros j Hj. do 14 (destruct j as [|j]; [reflexivity|]).
      simpl in Hj. lia.
    - right. reflexivity. }
  assert (Hnl : frontmatterRegex content = None ->
                forall t, content <> nl :: t) by discriminate.
  split; [exact Hspan|]. split; [exact Hnl|].
  exact (proj1 (proj2 (proj2 summary_span_replaced)) content
           (lit "Updated summary.") pre hd sec rest Hspan Hnl).
Defined.

(** What the code carries over.  When the summary pattern occurs in the
    body and, further down, a line starts with a summary heading, only the
    span of the first occurrence of the pattern is replaced: it ends before
    that line, and the line with all that follows it is carried to the end
    of the result unchanged.  The result can so hold more than one summary
    heading, as in the example. *)
Theorem later_summary_sections_kept :
  (forall content summary a later n,
      bodyOf content = a ++ nl :: later ->
      hasSummaryPattern a = true ->
      summaryHead later = Some n ->
      exists pre hd sec mid,
        a = pre ++ hd ++ sec ++ mid
        /\ summarySpan (bodyOf content) pre hd sec (mid ++ nl :: later)
        /\ insertSummarySection content summary
           = match frontmatterRegex content with
             | Some fm => fm ++ pre
             | None => stripLeadingNewlines pre
             end ++ summarySection summary ++ nl :: mid ++ nl :: later)
  /\ insertSummarySection
       (lit "# Summary" ++ [nl] ++ lit "old" ++ [nl]
        ++ lit "## Summary" ++ [nl] ++ lit "second")
       (lit "S")
     = lit "# Summary" ++ [nl; nl] ++ lit "S" ++ [nl; nl]
       ++ lit "## Summary" ++ [nl] ++ lit "second".
Proof.
  split; [|reflexivity].
  intros content summary a later n Hbody Ha Hlater.
  assert (Hpat : hasSummaryPattern (bodyOf content) = true).
  { rewrite Hbody. now apply occursInIgnoreCase_app. }
  destruct (summaryRegex (bodyOf content)) as [m|] eqn:Hm.
  2:{ apply summaryRegex_None in Hm. congruence. }
  apply summaryRegex_inv in Hm as (pre & hd & sec & rest & Hspan & _ & _).
  pose proof Hspan as (E & Hh & Hpre & Hsec & Hrest).
  apply occursInIgnoreCase_split in Ha as (x & y & -> & Hy).
  assert (Hle : length pre <= length x).
  { destruct (Nat.le_gt_cases (length pre) (length x)) as [L|L]; [exact L|].
    exfalso. specialize (Hpre _ L). rewrite Hbody in Hpre.
    rewrite <- app_assoc, skipn_app, skipn_all, Nat.sub_diag in Hpre.
    cbn [skipn app] in Hpre.
    apply (summaryHead_of_pattern (y ++ nl :: later));
      [now apply startsWithIgnoreCase_app|exact Hpre]. }
  rewrite Hbody, <- app_assoc in E. symmetry in E.
  destruct (app_eq_app_le _ _ _ _ E Hle) as (m1 & -> & E1).
  rewrite (app_assoc m1 y) in E1. rewrite E1 in Hh.
  pose proof (summaryHead_no_newline _ _ _ Hh) as Hhd.
  destruct (app_eq_app_le _ _ _ _ E1 Hhd) as (m2 & E2 & E3).
  assert (Hs : length sec <= length m2).
  { destruct (Nat.le_gt_cases (length sec) (length m2)) as [L|L]; [exact L|].
    exfalso. specialize (Hsec _ L). rewrite E3 in Hsec.
    rewrite skipn_app, skipn_all, Nat.sub_diag in Hsec.
    cbn [skipn app] in Hsec.
    rewrite (summaryHead_heading _ _ Hlater) in Hsec. discriminate. }
  destruct (app_eq_app_le _ _ _ _ E3 Hs) as (mid & -> & ->).
  exists pre, hd, sec, mid. split; [|split].
  - rewrite <- app_assoc, E2. reflexivity.
  - exact Hspan.
  - rewrite (insertSummarySection_span _ summary _ _ _ _ Hspan).
    reflexivity.
Qed.

Lemma later_summary_sections_kept_witness :
  let content := lit "## summary" ++ [nl] ++ lit "# Summary" in
  let a := lit "## summary" in
  let later := lit "# Summary" in
  bodyOf content = a ++ nl :: later
  /\ hasSummaryPattern a = true
  /\ summaryHead later = Some 9
  /\ exists pre hd sec mid,
       a = pre ++ hd ++ sec ++ mid
       /\ summarySpan (bodyOf content) pre hd sec (mid ++ nl :: later)
       /\ insertSummarySection content (lit "S")
          = match frontmatterRegex content with
            | Some fm => fm ++ pre
            | None => stripLeadingNewlines pre
            end ++ summarySection (lit "S") ++ nl :: mid ++ nl :: later.
Proof.
  split; [reflexivity|]. split; [reflexivity|]. split; [reflexivity|].
  exact (proj1 later_summary_sections_kept
           (lit "## summary" ++ [nl] ++ lit "# Summary") (lit "S")
           (lit "## summary") (lit "# Summary") 9 eq_refl eq_refl eq_refl).
Defined.

(** C9 at the failing input.  The body has two summary sections, under its
    second and its fourth line, and the text [# summary] inside its first
    line.  The code replaces from that text to the end of the first line;
    the first summary section is not replaced, and it is carried into the
    result with the second one, old text and all.  Without its first line
    the same body has its first section replaced and its second one kept. *)
Theorem first_summary_section_not_replaced :
  let body :=
    lit "x # summary y" ++ [nl] ++ lit "# Summary" ++ [nl] ++ lit "old1"
    ++ [nl] ++ lit "## Summary" ++ [nl] ++ lit "old2" in
  map isSummaryHeading (lines body) = [false; true; false; true; false]
  /\ insertSummarySection body (lit "S")
     = lit "x # Summary" ++ [nl; nl] ++ lit "S" ++ [nl; nl]
       ++ lit "# Summary" ++ [nl] ++ lit "old1" ++ [nl]
       ++ lit "## Summary" ++ [nl] ++ lit "old2"
  /\ insertSummarySection
       (lit "# Summary" ++ [nl] ++ lit "old1" ++ [nl] ++ lit "## Summary"
        ++ [nl] ++ lit "old2")
       (lit "S")
     = lit "# Summary" ++ [nl; nl] ++ lit "S" ++ [nl; nl]
       ++ lit "## Summary" ++ [nl] ++ lit "old2".
Proof. repeat split. Qed.

(** *** Merging twice *)


(** Each condition of the amended statement is needed: a summary with a
    heading line is cut at that line by the second merge; a summary heading
    of level three loses a [#] at each merge; a note that opens with dashes
    and has no closing gets a frontmatter when the summary brings one. *)
Example merge_twice_heading_in_summary :
  let summary := lit "a" ++ [nl] ++ lit "# b" in
  insertSummarySection (insertSummarySection [] summary) summary
  <> insertSummarySection [] summary.
Proof. discriminate. Qed.

Example merge_twice_level_three :
  let content := lit "### Summary" ++ [nl] ++ lit "old" in
  insertSummarySection content (lit "S")
  = lit "## Summary" ++ [nl; nl] ++ lit "S" ++ [nl]
  /\ insertSummarySection (insertSummarySection content (lit "S")) (lit "S")
     = lit "# Summary" ++ [nl; nl] ++ lit "S" ++ [nl].
Proof. split; reflexivity. Qed.

Example merge_twice_dashes :
  let content := lit "---" ++ [nl] ++ lit "# Summary" in
  let summary := lit "x" ++ [nl] ++ lit "---" in
  insertSummarySection (insertSummarySection content summary) summary
  <> insertSummarySection content summary.
Proof. discriminate. Qed.



(** *** What every result looks like *)

Lemma mergeBody_shape body summary :
  exists middle after,
    mergeBody body summary = middle ++ summarySection summary ++ nl :: after.
Proof.
  destruct (summaryRegex body) as [m|] eqn:E.
  - apply summaryRegex_inv in E as (pre & hd & sec & rest & Hspan & _).
    exists pre, rest. now apply (mergeBody_span _ _ hd sec).
  - apply summaryRegex_None in E.
    exists [nl; nl], (if truthy (trim body) then nl :: trim body else []).
    rewrite (mergeBody_absent _ _ E). now destruct (truthy (trim body)).
Qed.

Lemma stripLeadingNewlines_block middle summary x :
  stripLeadingNewlines (middle ++ summarySection summary ++ x)
  = stripLeadingNewlines middle ++ summarySection summary ++ x.
Proof.
  change (summarySection summary)
    with (hash :: skipn 1 (lit "# Summary") ++ [nl; nl] ++ trim summary).
  cbn [app]. apply stripLeadingNewlines_app. discriminate.
Qed.

Lemma stripLeadingNewlines_head s c t :
  stripLeadingNewlines s = c :: t -> c <> nl.
Proof.
  induction s as [|d s IH]; [discriminate|]. cbn [stripLeadingNewlines].
  destruct (N.eqb_spec d nl) as [_|Hd]; [exact IH|].
  intros [= <- _]. exact Hd.
Qed.

(** Whatever the content and the summary, the result is the frontmatter of
    the content, if it has one, some text, the canonical block (the heading
    [# Summary], a blank line and the trimmed summary), a newline, and the
    rest. *)
Theorem block_always_present content summary :
  exists middle after,
    insertSummarySection content summary
    = frontmatterOf content ++ middle ++ summarySection summary ++ nl :: after.
Proof.
  destruct (frontmatterRegex content) as [fm|] eqn:E.
  - rewrite (insertSummarySection_frontmatter _ _ _ E).
    destruct (bodyOf_frontmatter _ _ E) as [-> _].
    destruct (mergeBody_shape (skipn (length fm) content) summary)
      as (middle & after & ->).
    now exists middle, after.
  - rewrite (insertSummarySection_plain _ _ E).
    destruct (bodyOf_plain _ E) as [-> _].
    destruct (mergeBody_shape content summary) as (middle & after & ->).
    rewrite stripLeadingNewlines_block.
    now exists (stripLeadingNewlines middle), after.
Qed.

(** A content with a frontmatter and without the summary pattern in its
    body becomes the frontmatter, an empty line, the canonical block, and
    then an empty line and the trimmed body, or a single newline when the
    body is empty or white space. *)
Theorem insert_after_frontmatter content summary :
  hasFrontmatter content = true ->
  hasSummaryPattern (bodyOf content) = false ->
  insertSummarySection content summary
  = frontmatterOf content ++ [nl; nl] ++ summarySection summary
    ++ (if truthy (trim (bodyOf content))
        then [nl; nl] ++ trim (bodyOf content) else [nl]).
Proof.
  intros Hf Hs. destruct (frontmatterRegex content) as [fm|] eqn:E.
  - rewrite (insertSummarySection_frontmatter _ _ _ E).
    destruct (bodyOf_frontmatter _ _ E) as [Hfm _].
    unfold bodyOf, sliceFrom in *. rewrite Hfm in *.
    now rewrite (mergeBody_absent _ _ Hs).
  - apply frontmatterRegex_None in E. congruence.
Qed.

Lemma insert_after_frontmatter_witness :
  let fm := lit "---" ++ [nl] ++ lit "title: Note" ++ [nl] ++ lit "---" in
  let content := fm ++ [nl] ++ lit "  Text." ++ [nl; nl] in
  hasFrontmatter content = true
  /\ hasSummaryPattern (bodyOf content) = false
  /\ insertSummarySection content (lit "S")
     = fm ++ [nl; nl] ++ lit "# Summary" ++ [nl; nl] ++ lit "S" ++ [nl; nl]
       ++ lit "Text.".
Proof.
  split; [reflexivity|]. split; [reflexivity|].
  exact (insert_after_frontmatter
           ((lit "---" ++ [nl] ++ lit "title: Note" ++ [nl] ++ lit "---")
            ++ [nl] ++ lit "  Text." ++ [nl; nl])
           (lit "S") eq_refl eq_refl).
Defined.

(** The result is never empty and never begins with a newline. *)
Theorem result_starts_with_text content summary :
  exists c t, insertSummarySection content summary = c :: t /\ c <> nl.
Proof.
  destruct (frontmatterRegex content) as [fm|] eqn:E.
  - rewrite (insertSummarySection_frontmatter _ _ _ E).
    destruct (frontmatterRegex_inv _ _ E) as (inner & rest & _ & -> & _).
    exists 45%N. eexists. split; [reflexivity|discriminate].
  - rewrite (insertSummarySection_plain _ _ E).
    destruct (mergeBody_shape content summary) as (middle & after & ->).
    rewrite stripLeadingNewlines_block.
    destruct (stripLeadingNewlines middle) as [|c t] eqn:Em.
    + exists hash. eexists. split; [reflexivity|discriminate].
    + exists c. eexists. split; [reflexivity|].
      exact (stripLeadingNewlines_head _ _ _ Em).
Qed.

(** The frontmatter that the expression finds in the content, it finds
    again in the result. *)
Theorem frontmatter_found_again content summary m :
  exec false frontmatterPattern content = Some m ->
  exec false frontmatterPattern (insertSummarySection content summary)
  = Some m.
Proof.
  rewrite !exec_frontmatterPattern.
  destruct (frontmatterRegex content) as [fm|] eqn:E; [|discriminate].
  intros [= <-].
  rewrite (insertSummarySection_frontmatter _ _ _ E).
  now rewrite (frontmatterRegex_stable _ _ _ E).
Qed.

Lemma frontmatter_found_again_witness :
  let content :=
    lit "---" ++ [nl] ++ lit "title: Note" ++ [nl] ++ lit "---" ++ [nl; nl]
    ++ lit "Text." in
  let m :=
    {| index := 0;
       matched := lit "---" ++ [nl] ++ lit "title: Note" ++ [nl]
                  ++ lit "---" |} in
  exec false frontmatterPattern content = Some m
  /\ exec false frontmatterPattern (insertSummarySection content (lit "S"))
     = Some m.
Proof.
  split; [reflexivity|].
  exact (frontmatter_found_again
           (lit "---" ++ [nl] ++ lit "title: Note" ++ [nl] ++ lit "---"
            ++ [nl; nl] ++ lit "Text.")
           (lit "S") _ eq_refl).
Defined.

(** *** A second merge with another summary *)

(** A body made of the canonical block of one summary between [pre] and
    [rest] becomes the same body with the block of the other summary. *)
Lemma mergeBody_over pre rest old new :
  occursHeading (nl :: trim old) = false ->
  (forall j,
      j < length pre ->
      summaryHead (skipn j (pre ++ summarySection old ++ nl :: rest))
      = None) ->
  rest = [] \/ headingAhead rest = true ->
  mergeBody (pre ++ summarySection old ++ nl :: rest) new
  = pre ++ summarySection new ++ nl :: rest.
Proof.
  intros Hts Hpre Hrest.
  assert (E : pre ++ summarySection old ++ nl :: rest
              = pre ++ lit "# Summary" ++ ([nl; nl] ++ trim old ++ [nl])
                ++ rest).
  { unfold summarySection. now rewrite <- !app_assoc. }
  apply (mergeBody_span _ pre (lit "# Summary")
           ([nl; nl] ++ trim old ++ [nl]) rest).
  split; [exact E|]. split; [reflexivity|]. split; [exact Hpre|].
  split; [|exact Hrest]. now apply block_no_heading.
Qed.

Lemma merged_over_frontmatter content fm pre rest old new :
  frontmatterRegex content = Some fm ->
  occursHeading (nl :: trim old) = false ->
  (forall j,
      j < length pre ->
      summaryHead (skipn j (pre ++ summarySection old ++ nl :: rest))
      = None) ->
  rest = [] \/ headingAhead rest = true ->
  insertSummarySection (fm ++ pre ++ summarySection old ++ nl :: rest) new
  = fm ++ pre ++ summarySection new ++ nl :: rest.
Proof.
  intros Hfm Hts Hpre Hrest.
  pose proof (frontmatterRegex_stable _ _
                (pre ++ summarySection old ++ nl :: rest) Hfm) as Hfm'.
  rewrite (insertSummarySection_frontmatter _ _ _ Hfm').
  rewrite skipn_app, skipn_all, Nat.sub_diag. cbn [skipn app].
  now rewrite mergeBody_over.
Qed.

Lemma merged_over_plain pre rest old new :
  startsWith fmOpen (pre ++ summarySection old ++ nl :: rest) = false ->
  stripLeadingNewlines pre = pre ->
  occursHeading (nl :: trim old) = false ->
  (forall j,
      j < length pre ->
      summaryHead (skipn j (pre ++ summarySection old ++ nl :: rest))
      = None) ->
  rest = [] \/ headingAhead rest = true ->
  insertSummarySection (pre ++ summarySection old ++ nl :: rest) new
  = pre ++ summarySection new ++ nl :: rest.
Proof.
  intros Hno Hstrip Hts Hpre Hrest.
  assert (Hfm : frontmatterRegex
                  (pre ++ summarySection old ++ nl :: rest) = None).
  { apply frontmatterRegex_None. unfold hasFrontmatter. now rewrite Hno. }
  rewrite (insertSummarySection_plain _ _ Hfm), mergeBody_over by assumption.
  change (summarySection new)
    with (hash :: skipn 1 (lit "# Summary") ++ [nl; nl] ++ trim new).
  cbn [app]. rewrite stripLeadingNewlines_app by discriminate.
  now rewrite Hstrip.
Qed.

(** Merging a second summary into the result of a first merge gives what
    merging the second summary into the original content gives, under the
    conditions of the merge of one summary twice: (1) no line of the first
    trimmed summary is a heading, (2) the note has a frontmatter, or does
    not open, after its leading newlines, with the line [---], and (3) the
    body either has no summary pattern and its trimmed text is empty or
    begins with a heading, or has the pattern with no [#] right before its
    first occurrence. *)
Theorem second_summary_replaces_first content old new :
  occursHeading (nl :: trim old) = false ->
  hasFrontmatter content = true
  \/ startsWith fmOpen (stripLeadingNewlines content) = false ->
  (hasSummaryPattern (bodyOf content) = false
   /\ (trim (bodyOf content) = []
       \/ headingAhead (nl :: trim (bodyOf content)) = true))
  \/ (exists pre hd sec rest,
         summarySpan (bodyOf content) pre hd sec rest
         /\ forall p, pre <> p ++ [hash]) ->
  insertSummarySection (insertSummarySection content old) new
  = insertSummarySection content new.
Proof.
  intros Hts Hfront Hbody.
  destruct (frontmatterRegex content) as [fm|] eqn:Hfm.
  - destruct (bodyOf_frontmatter _ _ Hfm) as [_ Hc].
    destruct Hbody as [[Hno Htrim] | (pre & hd & sec & rest & Hspan & Hlast)].
    + rewrite !(insertSummarySection_frontmatter _ _ _ Hfm).
      replace (skipn (length fm) content) with (bodyOf content)
        by (unfold bodyOf, frontmatterOf; now rewrite Hfm).
      rewrite !(mergeBody_absent _ _ Hno).
      set (rest := if truthy (trim (bodyOf content))
                   then nl :: trim (bodyOf content) else []).
      replace (if truthy (trim (bodyOf content))
               then [nl; nl] ++ trim (bodyOf content) else [nl])
        with (nl :: rest)
        by (unfold rest; now destruct (trim (bodyOf content))).
      apply (merged_over_frontmatter content fm [nl; nl] rest old new
               Hfm Hts).
      * intros j Hj. do 2 (destruct j as [|j]; [reflexivity|]).
        simpl in Hj. lia.
      * unfold rest. destruct Htrim as [-> | H]; [now left|].
        destruct (trim (bodyOf content)); [now left|now right].
    + rewrite !(insertSummarySection_span _ _ _ _ _ _ Hspan), Hfm.
      cbv match. rewrite <- !app_assoc.
      destruct Hspan as (E & _ & Hpre & _ & Hrest). rewrite E in Hpre.
      apply (merged_over_frontmatter content fm pre rest old new Hfm Hts);
        [|exact Hrest].
      exact (no_match_before_block pre _
               (skipn 1 (summarySection old) ++ nl :: rest) 0
               Hpre Hlast).
  - destruct (bodyOf_plain _ Hfm) as [_ Hb]. rewrite Hb in Hbody.
    destruct Hfront as [Hf | Hdash].
    { apply frontmatterRegex_None in Hfm. congruence. }
    destruct Hbody as [[Hno Htrim] | (pre & hd & sec & rest & Hspan & Hlast)].
    + rewrite !(insertSummarySection_plain _ _ Hfm), !(mergeBody_absent _ _ Hno).
      set (rest := if truthy (trim content) then nl :: trim content else []).
      replace (if truthy (trim content) then [nl; nl] ++ trim content
               else [nl])
        with (nl :: rest) by (unfold rest; now destruct (trim content)).
      change (stripLeadingNewlines
                ([nl; nl] ++ summarySection old ++ nl :: rest))
        with ([] ++ summarySection old ++ nl :: rest).
      change (stripLeadingNewlines
                ([nl; nl] ++ summarySection new ++ nl :: rest))
        with ([] ++ summarySection new ++ nl :: rest).
      apply (merged_over_plain [] rest old new); trivial.
      * intros j Hj. inversion Hj.
      * unfold rest. destruct Htrim as [-> | H]; [now left|].
        destruct (trim content); [now left|now right].
    + assert (Hspan' : summarySpan (bodyOf content) pre hd sec rest)
        by now rewrite Hb.
      rewrite !(insertSummarySection_span _ _ _ _ _ _ Hspan'), Hfm.
      cbv match.
      destruct Hspan as (E & Hh & Hpre & _ & Hrest). rewrite E in Hpre.
      destruct (summaryHead_hash _ _ Hh) as [t Et].
      destruct (stripLeadingNewlines_skipn pre) as [k Ek].
      apply merged_over_plain; trivial.
      * rewrite E, Et in Hdash.
        rewrite stripLeadingNewlines_app in Hdash by discriminate.
        rewrite <- Hdash. apply startsWith_fmOpen_swap.
      * apply stripLeadingNewlines_idem.
      * rewrite Ek.
        exact (no_match_before_block pre _
                 (skipn 1 (summarySection old) ++ nl :: rest) k
                 Hpre Hlast).
Qed.

Lemma second_summary_replaces_first_witness :
  let content :=
    lit "---" ++ [nl] ++ lit "title: Note" ++ [nl] ++ lit "---" ++ [nl; nl]
    ++ lit "## First Section" ++ [nl] ++ lit "Content." in
  let old := lit "The first summary." in
  let new := lit "Another" ++ [nl] ++ lit "# one" in
  occursHeading (nl :: trim old) = false
  /\ (hasFrontmatter content = true
      \/ startsWith fmOpen (stripLeadingNewlines content) = false)
  /\ hasSummaryPattern (bodyOf content) = false
  /\ headingAhead (nl :: trim (bodyOf content)) = true
  /\ insertSummarySection (insertSummarySection content old) new
     = insertSummarySection content new.
Proof.
  intros content old new.
  assert (H1 : occursHeading (nl :: trim old) = false) by reflexivity.
  assert (H2 : hasFrontmatter content = true
               \/ startsWith fmOpen (stripLeadingNewlines content) = false)
    by (left; reflexivity).
  assert (H3 : hasSummaryPattern (bodyOf content) = false) by reflexivity.
  assert (H4 : headingAhead (nl :: trim (bodyOf content)) = true)
    by reflexivity.
  split; [exact H1|]. split; [exact H2|]. split; [exact H3|].
  split; [exact H4|].
  exact (second_summary_replaces_first content old new H1 H2
           (or_introl (conj H3 (or_intror H4)))).
Defined.

(** *** Newlines at the top of a note *)

Lemma summaryRegexFrom_shift s : forall i,
  summaryRegexFrom (S i) s
  = option_map (fun m => {| index := S (index m); matched := matched m |})
      (summaryRegexFrom i s).
Proof.
  induction s as [|c t IH]; intros i; cbn [summaryRegexFrom].
  - now destruct (summaryAt []).
  - destruct (summaryAt (c :: t)); [reflexivity|]. apply IH.
Qed.

Lemma mergeBody_after_newline body summary :
  hasSummaryPattern body = true ->
  mergeBody (nl :: body) summary = nl :: mergeBody body summary.
Proof.
  intros H. unfold mergeBody, summaryRegex.
  change (summaryRegexFrom 0 (nl :: body)) with (summaryRegexFrom 1 body).
  rewrite summaryRegexFrom_shift.
  destruct (summaryRegexFrom 0 body) as [m|] eqn:E.
  - cbn [option_map index matched]. unfold sliceTo, sliceFrom.
    cbn [firstn Nat.add skipn].
    now destruct (truthy _).
  - apply summaryRegexFrom_None in E. congruence.
Qed.

Lemma trim_after_newline s : trim (nl :: s) = trim s.
Proof. reflexivity. Qed.

(** A newline at the top of a note without frontmatter is lost: the
    result is that of the note without it. *)
Theorem leading_newline_dropped content summary :
  hasFrontmatter content = false ->
  insertSummarySection (nl :: content) summary
  = insertSummarySection content summary.
Proof.
  intros Hf. apply frontmatterRegex_None in Hf.
  assert (Hf' : frontmatterRegex (nl :: content) = None) by reflexivity.
  rewrite (insertSummarySection_plain _ _ Hf),
    (insertSummarySection_plain _ _ Hf').
  destruct (hasSummaryPattern content) eqn:Hs.
  - now rewrite (mergeBody_after_newline _ _ Hs).
  - assert (Hs' : hasSummaryPattern (nl :: content) = false) by exact Hs.
    rewrite (mergeBody_absent _ _ Hs), (mergeBody_absent _ _ Hs').
    now rewrite trim_after_newline.
Qed.

Lemma leading_newline_dropped_witness :
  let content := lit "Intro" ++ [nl] ++ lit "# Summary" ++ [nl] ++ lit "old" in
  hasFrontmatter content = false
  /\ insertSummarySection (nl :: content) (lit "S")
     = insertSummarySection content (lit "S").
Proof.
  split; [reflexivity|].
  exact (leading_newline_dropped
           (lit "Intro" ++ [nl] ++ lit "# Summary" ++ [nl] ++ lit "old")
           (lit "S") eq_refl).
Defined.

End SummarizeProps.

(* ================================================================= *)
(** ** Properties of the LLM client *)

Module LLMClientProps.
Import JS LLMClient.

(** *** buildRequestBody *)

Section RequestBody.

Variable number : Type.
Implicit Types (config : LLMConfig number) (prompt : jsstring).

(** C4.  The body always holds the model, the single user message with the
    prompt and [stream: false]; for [openai] it holds [temperature] and
    [max_tokens] at the top and no [options]; for [ollama] it holds
    [options] with [temperature] and [num_predict] and neither of the two at
    the top.  The keys listed are all the keys of either shape. *)
Theorem request_body_shape config prompt :
  let body := buildRequestBody config prompt in
  lookup (lit "model") body = Some (VString (model config))
  /\ lookup (lit "messages") body
     = Some (VArray [VObject [ (lit "role", VString (lit "user"));
                               (lit "content", VString prompt) ]])
  /\ lookup (lit "stream") body = Some (VBool false)
  /\ (provider config = openai ->
      lookup (lit "temperature") body = Some (VNumber (temperature config))
      /\ lookup (lit "max_tokens") body = Some (VNumber (maxTokens config))
      /\ lookup (lit "options") body = None
      /\ map fst body
         = [lit "model"; lit "messages"; lit "stream"; lit "temperature";
            lit "max_tokens"])
  /\ (provider config = ollama ->
      lookup (lit "options") body
      = Some (VObject [ (lit "temperature", VNumber (temperature config));
                        (lit "num_predict", VNumber (maxTokens config)) ])
      /\ lookup (lit "temperature") body = None
      /\ lookup (lit "max_tokens") body = None
      /\ map fst body
         = [lit "model"; lit "messages"; lit "stream"; lit "options"]).
Proof.
  unfold buildRequestBody.
  destruct (provider config); repeat split; intros; try discriminate;
    reflexivity.
Qed.

End RequestBody.

Lemma request_body_shape_witness :
  let body := buildRequestBody baseConfig (lit "hello") in
  provider baseConfig = ollama
  /\ lookup (lit "options") body
     = Some (VObject [ (lit "temperature", VNumber (QArith_base.Qmake 1 5));
                       (lit "num_predict",
                        VNumber (QArith_base.Qmake 1000 1)) ])
  /\ lookup (lit "temperature") body = None
  /\ lookup (lit "max_tokens") body = None.
Proof.
  destruct (request_body_shape _ baseConfig (lit "hello"))
    as (_ & _ & _ & _ & H).
  destruct (H eq_refl) as (H1 & H2 & H3 & _).
  split; [reflexivity|]. split; [exact H1|]. split; [exact H2|exact H3].
Defined.

(** *** parseResponseContent *)

Section Parse.

Variable number : Type.
Implicit Types (json : value number).

(** For every JSON value but [null] the result is the string at the
    provider's path, and the error that names the path when there is no
    string there. *)
Lemma parseResponseContent_fieldAt json :
  json <> VNull ->
  parseResponseContent openai json
  = match fieldAt openaiPath json with
    | Some (VString content) => Return content
    | _ => Throw openaiFormatError
    end
  /\ parseResponseContent ollama json
     = match fieldAt ollamaPath json with
       | Some (VString content) => Return content
       | _ => Throw ollamaFormatError
       end.
Proof.
  intros Hnull. destruct json as [| b | n | s | items | props];
    try congruence; try (split; reflexivity).
  split.
  - unfold openaiPath. cbn [parseResponseContent member bind fieldAt].
    change (optMember (Some (VObject props)) (lit "choices"))
      with (lookup (lit "choices") props).
    destruct (lookup (lit "choices") props) as [choices|]; [|reflexivity].
    destruct (optFirst (Some choices)) as [first|]; [|reflexivity].
    destruct (optMember (Some first) (lit "message")) as [message|];
      [|reflexivity].
    destruct (optMember (Some message) (lit "content")); reflexivity.
  - unfold ollamaPath. cbn [parseResponseContent member bind fieldAt].
    change (optMember (Some (VObject props)) (lit "message"))
      with (lookup (lit "message") props).
    destruct (lookup (lit "message") props) as [message|]; [|reflexivity].
    destruct (optMember (Some message) (lit "content")); reflexivity.
Qed.

(** The result is a string or an error of the client's kind, for every
    JSON value but [null]. *)
Lemma parseResponseContent_kind provider json :
  json <> VNull ->
  (exists content, parseResponseContent provider json = Return content)
  \/ (exists m, parseResponseContent provider json = Throw (LLMError m)).
Proof.
  intros H. destruct (parseResponseContent_fieldAt json H) as [Ho Hl].
  destruct provider.
  - rewrite Hl. unfold ollamaFormatError.
    destruct (fieldAt ollamaPath json) as [[]|]; eauto.
  - rewrite Ho. unfold openaiFormatError.
    destruct (fieldAt openaiPath json) as [[]|]; eauto.
Qed.

(** For every JSON value but [null], [parseResponseContent] returns the
    string at [choices[0].message.content] (openai) or [message.content]
    (ollama), and throws the [LLMError] that names the path when no string
    is there. *)
Theorem parseResponseContent_path json :
  json <> VNull ->
  parseResponseContent openai json
  = match fieldAt openaiPath json with
    | Some (VString content) => Return content
    | _ => Throw openaiFormatError
    end
  /\ parseResponseContent ollama json
     = match fieldAt ollamaPath json with
       | Some (VString content) => Return content
       | _ => Throw ollamaFormatError
       end.
Proof. exact (parseResponseContent_fieldAt json). Qed.

(** C5 at the failing input: on the JSON value [null] the first property
    read throws a [TypeError]; the error is not the client's and names no
    field path.  The four examples of the specification hold. *)
Theorem parse_null_response :
  parseResponseContent openai (@VNull number)
  = Throw (nullPropertyError (lit "choices"))
  /\ parseResponseContent ollama (@VNull number)
     = Throw (nullPropertyError (lit "message"))
  /\ parseResponseContent ollama
       (@VObject number
          [(lit "message", VObject [(lit "content", VString (lit "x"))])])
     = Return (lit "x")
  /\ parseResponseContent ollama (@VObject number [])
     = Throw ollamaFormatError
  /\ parseResponseContent openai
       (@VObject number
          [(lit "choices",
            VArray [VObject [(lit "message",
                              VObject [(lit "content",
                                        VString (lit "x"))])]])])
     = Return (lit "x")
  /\ parseResponseContent openai (@VObject number [])
     = Throw openaiFormatError.
Proof. repeat split. Qed.

End Parse.

(** The two format errors name the field path they expect. *)
Lemma format_errors_name_the_path :
  occursIn (lit "choices[0].message.content") (messageOf openaiFormatError)
  = true
  /\ occursIn (lit "message content") (messageOf ollamaFormatError) = true
  /\ isLLMError openaiFormatError = true
  /\ isLLMError ollamaFormatError = true.
Proof. repeat split. Qed.

(** *** callLLM *)

Section Retry.

Variable number : Type.
Variable World : Type.
Variable requestUrlImpl :
  RequestUrlParam -> World -> completion (RequestUrlResponse number) * World.
Variable JSON_stringify : value number -> jsstring.

Implicit Types (config : LLMConfig number) (prompt : jsstring)
  (r : Run World) (e : thrown).

(** The state of a run after one more invocation of the transport. *)
Local Abbreviation after r w req :=
  {| world := w; calls := calls r ++ [req] |}.

Lemma callLLM_attempts config prompt r :
  callLLM requestUrlImpl JSON_stringify config prompt r
  = attempts requestUrlImpl [0; 1] None config
      (requestOf JSON_stringify config prompt) r.
Proof. reflexivity. Qed.

Lemma tryAttempt_eq config req r answer w :
  requestUrlImpl req (world r) = (answer, w) ->
  tryAttempt requestUrlImpl config req r
  = (response <- answer ;;
     if (400 <=? status response)%Z
     then Throw (LLMError (lit "LLM request failed: "
                           ++ intToString (status response)))
     else parseResponseContent (provider config) (json response),
     after r w req).
Proof. intros E. unfold tryAttempt, invoke. now rewrite E. Qed.

(** One attempt that gets a response ends the call, whatever the
    response, unless its JSON body is [null]. *)
Lemma attempts_response schedule k last config req r response w :
  requestUrlImpl req (world r) = (Return response, w) ->
  (400 <= status response)%Z \/ json response <> VNull ->
  attempts requestUrlImpl (k :: schedule) last config req r
  = (if (400 <=? status response)%Z
     then Throw (LLMError (lit "LLM request failed: "
                           ++ intToString (status response)))
     else parseResponseContent (provider config) (json response),
     after r w req).
Proof.
  intros E H. cbn [attempts]. rewrite (tryAttempt_eq config _ _ _ _ E).
  cbn [bind]. destruct (400 <=? status response)%Z eqn:S; [reflexivity|].
  destruct H as [H|H]; [apply Z.leb_le in H; congruence|].
  destruct (parseResponseContent_kind _ (provider config) _ H)
    as [[content ->] | [m ->]]; reflexivity.
Qed.

(** An attempt whose invocation throws something else than an [LLMError]
    leads to the next attempt, or, on attempt 1, to the network error. *)
Lemma attempts_failure schedule k last config req r e w :
  requestUrlImpl req (world r) = (Throw e, w) ->
  isLLMError e = false ->
  attempts requestUrlImpl (k :: schedule) last config req r
  = if k =? 1
    then (Throw (LLMError (lit "Network error after retry: "
                           ++ messageOf e)), after r w req)
    else attempts requestUrlImpl schedule (Some (messageOf e)) config req
           (after r w req).
Proof.
  intros E H. cbn [attempts]. rewrite (tryAttempt_eq config _ _ _ _ E).
  cbn [bind]. destruct e; [discriminate|reflexivity|reflexivity].
Qed.

(** Every attempt invokes the transport once, with the same request. *)
Lemma attempts_calls config req schedule : forall last r,
  exists n, n <= length schedule /\ (schedule <> [] -> 1 <= n)
            /\ calls (snd (attempts requestUrlImpl schedule last config req r))
               = calls r ++ repeat req n.
Proof.
  induction schedule as [|k later IH]; intros last r.
  - exists 0. cbn. rewrite app_nil_r. repeat split; [lia|congruence].
  - assert (Hone : exists n, n <= length (k :: later)
                      /\ (k :: later <> [] -> 1 <= n)
                      /\ calls r ++ [req] = calls r ++ repeat req n).
    { exists 1. cbn. repeat split; lia. }
    cbn [attempts]. unfold tryAttempt, invoke.
    destruct (requestUrlImpl req (world r)) as [answer w].
    assert (Hmore : forall m, exists n, n <= length (k :: later)
               /\ (k :: later <> [] -> 1 <= n)
               /\ calls (snd (attempts requestUrlImpl later (Some m) config
                                req (after r w req)))
                  = calls r ++ repeat req n).
    { intros m. destruct (IH (Some m) (after r w req)) as (n & Hn & _ & E).
      exists (S n). cbn [length calls repeat] in *. rewrite E, <- app_assoc.
      repeat split; lia. }
    destruct answer as [response|e]; cbn [bind].
    + destruct (400 <=? status response)%Z; [exact Hone|].
      destruct (parseResponseContent (provider config) (json response))
        as [content|[m|m|m]]; try exact Hone;
        destruct (k =? 1); solve [exact Hone | apply Hmore].
    + destruct e; try exact Hone;
        destruct (k =? 1); solve [exact Hone | apply Hmore].
Qed.

(** The transport is invoked once or twice, each time with the same
    request, whatever it answers. *)
Lemma callLLM_at_most_two_invocations config prompt r :
  exists n,
    (n = 1 \/ n = 2)
    /\ calls (snd (callLLM requestUrlImpl JSON_stringify config prompt r))
       = calls r ++ repeat (requestOf JSON_stringify config prompt) n.
Proof.
  rewrite callLLM_attempts.
  destruct (attempts_calls config (requestOf JSON_stringify config prompt)
              [0; 1] None r) as (n & Hle & Hge & E).
  exists n. split; [|exact E]. cbn in Hle.
  assert (1 <= n) by (apply Hge; discriminate). lia.
Qed.

(** A status of 400 or more on the first attempt: one invocation, and the
    error names the status. *)
Lemma callLLM_http_error config prompt r response w :
  requestUrlImpl (requestOf JSON_stringify config prompt) (world r)
  = (Return response, w) ->
  (400 <= status response)%Z ->
  callLLM requestUrlImpl JSON_stringify config prompt r
  = (Throw (LLMError (lit "LLM request failed: "
                      ++ intToString (status response))),
     after r w (requestOf JSON_stringify config prompt)).
Proof.
  intros E H. rewrite callLLM_attempts.
  rewrite (attempts_response [1] 0 None config _ _ _ _ E (or_introl H)).
  apply Z.leb_le in H. now rewrite H.
Qed.

(** A response below 400 whose JSON body is not [null]: one invocation,
    and the call ends as [parseResponseContent] does, with the content or
    with the error that names the field path. *)
Lemma callLLM_response config prompt r response w :
  requestUrlImpl (requestOf JSON_stringify config prompt) (world r)
  = (Return response, w) ->
  (status response < 400)%Z ->
  json response <> VNull ->
  callLLM requestUrlImpl JSON_stringify config prompt r
  = (parseResponseContent (provider config) (json response),
     after r w (requestOf JSON_stringify config prompt)).
Proof.
  intros E H Hj. rewrite callLLM_attempts.
  rewrite (attempts_response [1] 0 None config _ _ _ _ E (or_intror Hj)).
  apply Z.leb_gt in H. now rewrite H.
Qed.

(** Two transport failures in a row: two invocations, and the error wraps the
    message of the second failure. *)
Lemma callLLM_two_failures config prompt r e1 w1 e2 w2 :
  requestUrlImpl (requestOf JSON_stringify config prompt) (world r)
  = (Throw e1, w1) ->
  isLLMError e1 = false ->
  requestUrlImpl (requestOf JSON_stringify config prompt) w1
  = (Throw e2, w2) ->
  isLLMError e2 = false ->
  callLLM requestUrlImpl JSON_stringify config prompt r
  = (Throw (LLMError (lit "Network error after retry: " ++ messageOf e2)),
     {| world := w2;
        calls := calls r ++ [requestOf JSON_stringify config prompt;
                             requestOf JSON_stringify config prompt] |}).
Proof.
  intros E1 H1 E2 H2. rewrite callLLM_attempts.
  rewrite (attempts_failure [1] 0 None config _ _ _ _ E1 H1). cbn [Nat.eqb].
  rewrite (attempts_failure [] 1 _ config _
             (after r w1 (requestOf JSON_stringify config prompt))
             _ _ E2 H2).
  cbn [Nat.eqb calls world]. now rewrite <- app_assoc.
Qed.

(** A transport failure, then a response: two invocations, and the second
    response decides as a first one would. *)
Lemma callLLM_retry config prompt r e1 w1 response w2 :
  requestUrlImpl (requestOf JSON_stringify config prompt) (world r)
  = (Throw e1, w1) ->
  isLLMError e1 = false ->
  requestUrlImpl (requestOf JSON_stringify config prompt) w1
  = (Return response, w2) ->
  (400 <= status response)%Z \/ json response <> VNull ->
  callLLM requestUrlImpl JSON_stringify config prompt r
  = (if (400 <=? status response)%Z
     then Throw (LLMError (lit "LLM request failed: "
                           ++ intToString (status response)))
     else parseResponseContent (provider config) (json response),
     {| world := w2;
        calls := calls r ++ [requestOf JSON_stringify config prompt;
                             requestOf JSON_stringify config prompt] |}).
Proof.
  intros E1 H1 E2 H2. rewrite callLLM_attempts.
  rewrite (attempts_failure [1] 0 None config _ _ _ _ E1 H1). cbn [Nat.eqb].
  rewrite (attempts_response [] 1 _ config _
             (after r w1 (requestOf JSON_stringify config prompt))
             _ _ E2 H2).
  cbn [calls world]. now rewrite <- app_assoc.
Qed.

(** A response below 400 whose JSON body is [null]: the [TypeError] of the
    property read is caught as a network failure, and the attempt is
    followed by the next one as a transport failure is. *)
Lemma attempts_null_body schedule k last config req r response w :
  requestUrlImpl req (world r) = (Return response, w) ->
  (status response < 400)%Z ->
  json response = VNull ->
  attempts requestUrlImpl (k :: schedule) last config req r
  = let key := match provider config with
               | openai => lit "choices"
               | ollama => lit "message"
               end in
    let m := messageOf (nullPropertyError key) in
    if k =? 1
    then (Throw (LLMError (lit "Network error after retry: " ++ m)),
          after r w req)
    else attempts requestUrlImpl schedule (Some m) config req (after r w req).
Proof.
  intros E H Hj. cbn [attempts]. rewrite (tryAttempt_eq config _ _ _ _ E).
  cbn [bind]. apply Z.leb_gt in H. rewrite H, Hj.
  destruct (provider config); reflexivity.
Qed.

End Retry.

(** The cases of the test suite's retry logic, as instances of the lemmas
    above. *)
Lemma callLLM_http_error_witness :
  let req := requestOf noStringify baseConfig (lit "Test prompt") in
  let response := {| status := 400; json := VObject [] |} in
  statusTransport 400 req tt = (Return response, tt)
  /\ (400 <= status response)%Z
  /\ callLLM (statusTransport 400) noStringify baseConfig (lit "Test prompt")
       {| world := tt; calls := [] |}
     = (Throw (LLMError (lit "LLM request failed: 400")),
        {| world := tt; calls := [req] |}).
Proof.
  assert (H : (400 <= 400)%Z) by lia.
  split; [reflexivity|]. split; [exact H|].
  exact (callLLM_http_error _ _ (statusTransport 400) noStringify baseConfig
           (lit "Test prompt") {| world := tt; calls := [] |}
           {| status := 400; json := VObject [] |} tt eq_refl H).
Defined.

Lemma callLLM_response_witness :
  let req := requestOf noStringify baseConfig (lit "Test prompt") in
  let response := {| status := 200; json := VObject [] |} in
  statusTransport 200 req tt = (Return response, tt)
  /\ (status response < 400)%Z
  /\ json response <> VNull
  /\ callLLM (statusTransport 200) noStringify baseConfig (lit "Test prompt")
       {| world := tt; calls := [] |}
     = (Throw ollamaFormatError,
        {| world := tt; calls := [req] |}).
Proof.
  assert (H : (200 < 400)%Z) by lia.
  assert (Hj : @VObject QArith_base.Q [] <> VNull) by discriminate.
  split; [reflexivity|]. split; [exact H|]. split; [exact Hj|].
  exact (callLLM_response _ _ (statusTransport 200) noStringify baseConfig
           (lit "Test prompt") {| world := tt; calls := [] |}
           {| status := 200; json := VObject [] |} tt eq_refl H Hj).
Defined.

Lemma callLLM_two_failures_witness :
  let req := requestOf noStringify baseConfig (lit "Test prompt") in
  failingTransport req 0 = (Throw (OtherError (lit "Network error 1")), 1)
  /\ failingTransport req 1 = (Throw (OtherError (lit "Network error 2")), 2)
  /\ callLLM failingTransport noStringify baseConfig (lit "Test prompt")
       {| world := 0; calls := [] |}
     = (Throw (LLMError (lit "Network error after retry: Network error 2")),
        {| world := 2; calls := [req; req] |}).
Proof.
  split; [reflexivity|]. split; [reflexivity|].
  exact (callLLM_two_failures _ _ failingTransport noStringify baseConfig
           (lit "Test prompt") {| world := 0; calls := [] |}
           (OtherError (lit "Network error 1")) 1
           (OtherError (lit "Network error 2")) 2
           eq_refl eq_refl eq_refl eq_refl).
Defined.

Lemma callLLM_retry_witness :
  let req := requestOf noStringify baseConfig (lit "Test prompt") in
  let response :=
    {| status := 200;
       json := VObject
                 [(lit "message",
                   VObject [(lit "content",
                             VString (lit "Success on retry"))])] |} in
  flakyTransport req 0 = (Throw (OtherError (lit "Network error")), 1)
  /\ flakyTransport req 1 = (Return response, 2)
  /\ callLLM flakyTransport noStringify baseConfig (lit "Test prompt")
       {| world := 0; calls := [] |}
     = (Return (lit "Success on retry"), {| world := 2; calls := [req; req] |}).
Proof.
  intros req response.
  assert (Hj : (400 <= status response)%Z \/ json response <> VNull)
    by (right; discriminate).
  split; [reflexivity|]. split; [reflexivity|].
  exact (callLLM_retry _ _ flakyTransport noStringify baseConfig
           (lit "Test prompt") {| world := 0; calls := [] |}
           (OtherError (lit "Network error")) 1 response 2
           eq_refl eq_refl eq_refl Hj).
Defined.

Lemma parseResponseContent_path_witness :
  let json : value QArith_base.Q :=
    VObject [(lit "choices",
              VArray [VObject [(lit "message",
                                VObject [(lit "content",
                                          VString (lit "ok"))])]])] in
  json <> VNull
  /\ parseResponseContent openai json = Return (lit "ok")
  /\ parseResponseContent ollama json
     = Throw ollamaFormatError.
Proof.
  intros json. assert (H : json <> VNull) by discriminate.
  split; [exact H|]. exact (parseResponseContent_path _ json H).
Defined.

(** C3 at the failing input: a response with status 200 whose JSON body is
    [null] does not parse, and yet the call does not end there.  The
    [TypeError] of the property read is taken for a network failure: the
    transport is invoked a second time, and the call fails with the network
    error, which names no field path. *)
Theorem null_body_is_retried :
  let run :=
    callLLM nullTransport noStringify baseConfig (lit "Test prompt")
      {| world := tt; calls := [] |} in
  fst run
  = Throw (LLMError (lit "Network error after retry: "
                     ++ messageOf (nullPropertyError (lit "message"))))
  /\ length (calls (snd run)) = 2.
Proof. split; reflexivity. Qed.

(** *** The failures of callLLM *)

Section Failures.

Variable number : Type.
Variable World : Type.
Variable requestUrlImpl :
  RequestUrlParam -> World -> completion (RequestUrlResponse number) * World.
Variable JSON_stringify : value number -> jsstring.

Implicit Types (config : LLMConfig number) (prompt : jsstring)
  (r : Run World) (e : thrown).

Lemma parseResponseContent_throws provider (json : value number) e :
  parseResponseContent provider json = Throw e ->
  isLLMError e = false
  \/ e = match provider with
         | openai => openaiFormatError
         | ollama => ollamaFormatError
         end.
Proof.
  destruct provider; cbn [parseResponseContent].
  - destruct (member json (lit "message")) as [message|e'] eqn:E; cbn [bind].
    + destruct (optMember message (lit "content")) as [[]|];
        intros [= <-]; now right.
    + intros [= <-]. destruct json; try discriminate.
      injection E as <-. now left.
  - destruct (member json (lit "choices")) as [choices|e'] eqn:E; cbn [bind].
    + destruct (optMember (optMember (optFirst choices) (lit "message"))
                  (lit "content")) as [[]|];
        intros [= <-]; now right.
    + intros [= <-]. destruct json; try discriminate.
      injection E as <-. now left.
Qed.

Lemma tryAttempt_throws config req r e :
  fst (tryAttempt requestUrlImpl config req r) = Throw e ->
  isLLMError e = false
  \/ exists m, e = LLMError m /\ failure requestUrlImpl config m.
Proof.
  unfold tryAttempt, invoke.
  destruct (requestUrlImpl req (world r)) as [[response|e'] w] eqn:E;
    cbn [fst bind].
  - destruct (400 <=? status response)%Z eqn:S.
    + intros [= <-]. right. eexists. split; [reflexivity|].
      left. eexists. split; [|reflexivity]. now apply Z.leb_le.
    + intros H. apply parseResponseContent_throws in H as [H| ->];
        [now left|].
      right. unfold failure.
      destruct (provider config); eexists; (split; [reflexivity|]);
        right; left; reflexivity.
  - intros [= <-]. destruct e' as [m|m|m]; [right|now left|now left].
    exists m. split; [reflexivity|]. do 3 right. now exists req, (world r), w.
Qed.

Lemma callLLM_throws config prompt r e :
  fst (callLLM requestUrlImpl JSON_stringify config prompt r) = Throw e ->
  exists m, e = LLMError m /\ failure requestUrlImpl config m.
Proof.
  rewrite callLLM_attempts. cbn [attempts].
  set (req := requestOf JSON_stringify config prompt).
  pose proof (tryAttempt_throws config req r) as H1.
  destruct (tryAttempt requestUrlImpl config req r) as [[content|e1] r1].
  - discriminate.
  - cbn [fst] in H1.
    assert (Hnet : forall x, exists m,
               LLMError (lit "Network error after retry: " ++ x) = LLMError m
               /\ failure requestUrlImpl config m).
    { intros x. eexists. split; [reflexivity|]. right. right. left.
      now exists x. }
    destruct (H1 _ eq_refl) as [Hk | (m & -> & Hm)].
    2:{ intros [= <-]. now exists m. }
    pose proof (tryAttempt_throws config req r1) as H2.
    destruct e1 as [m|m|m]; [discriminate| |]; cbn [Nat.eqb];
      destruct (tryAttempt requestUrlImpl config req r1) as [[content|e2] r2];
      try discriminate; cbn [fst] in H2;
      (destruct (H2 _ eq_refl) as [Hk2 | (m2 & -> & Hm2)];
       [destruct e2; [discriminate|..]; intros [= <-]; apply Hnet
       |intros [= <-]; now exists m2]).
Qed.

Lemma tryAttempt_returns config req r content :
  fst (tryAttempt requestUrlImpl config req r) = Return content ->
  exists response w,
    requestUrlImpl req (world r) = (Return response, w)
    /\ (status response < 400)%Z
    /\ fieldAt match provider config with
               | openai => openaiPath
               | ollama => ollamaPath
               end (json response)
       = Some (VString content).
Proof.
  unfold tryAttempt, invoke.
  destruct (requestUrlImpl req (world r)) as [[response|e] w];
    cbn [fst bind]; [|discriminate].
  destruct (400 <=? status response)%Z eqn:S; [discriminate|].
  intros H. exists response, w. split; [reflexivity|].
  split; [now apply Z.leb_gt|].
  assert (Hnull : json response <> VNull).
  { intros E. rewrite E in H. now destruct (provider config). }
  destruct (parseResponseContent_fieldAt _ _ Hnull) as [Ho Hl].
  destruct (provider config).
  - rewrite Hl in H.
    destruct (fieldAt ollamaPath (json response)) as [[]|];
      try discriminate.
    now injection H as ->.
  - rewrite Ho in H.
    destruct (fieldAt openaiPath (json response)) as [[]|];
      try discriminate.
    now injection H as ->.
Qed.

(** A content that [callLLM] returns is the string at the path of the
    provider in the JSON body of a response whose status is below 400, and
    that response answered the request of the call. *)
Theorem callLLM_returns config prompt r content :
  fst (callLLM requestUrlImpl JSON_stringify config prompt r)
  = Return content ->
  exists response w w',
    requestUrlImpl (requestOf JSON_stringify config prompt) w
    = (Return response, w')
    /\ (status response < 400)%Z
    /\ fieldAt match provider config with
               | openai => openaiPath
               | ollama => ollamaPath
               end (json response)
       = Some (VString content).
Proof.
  rewrite callLLM_attempts. cbn [attempts].
  set (req := requestOf JSON_stringify config prompt).
  pose proof (tryAttempt_returns config req r) as H1.
  destruct (tryAttempt requestUrlImpl config req r) as [[c1|e1] r1];
    cbn [fst] in H1.
  - intros [= <-]. destruct (H1 _ eq_refl) as (response & w & H).
    now exists response, (world r), w.
  - pose proof (tryAttempt_returns config req r1) as H2.
    destruct e1 as [m|m|m]; [discriminate| |]; cbn [Nat.eqb];
      destruct (tryAttempt requestUrlImpl config req r1) as [[c2|e2] r2];
      cbn [fst] in H2;
      try (intros [= <-]; destruct (H2 _ eq_refl) as (response & w & H);
           now exists response, (world r1), w);
      destruct e2; discriminate.
Qed.

(** Whatever the transport does, a call that fails throws an [LLMError],
    and its message is the status of an HTTP error, the format error of
    the provider, the network error after the retry, or the message of an
    [LLMError] that the transport threw. *)
Theorem callLLM_failures config prompt r e :
  fst (callLLM requestUrlImpl JSON_stringify config prompt r) = Throw e ->
  exists m, e = LLMError m /\ failure requestUrlImpl config m.
Proof. exact (callLLM_throws config prompt r e). Qed.

(** The API key header.  It is sent when the header name and the key are
    both set and not empty: after the content type, or in its place when
    the header name is [Content-Type]; otherwise the content type is the
    only header.  The header name [__proto__], which JavaScript does not
    take for the name of a property, is left aside. *)
Theorem api_key_header config prompt :
  let request := requestOf JSON_stringify config prompt in
  (forall name key,
      apiKeyHeaderName config = Some name ->
      apiKeyHeaderValue config = Some key ->
      name <> [] -> key <> [] -> name <> lit "__proto__" ->
      lookup name (headers request) = Some key
      /\ headers request
         = if eqb (lit "Content-Type") name
           then [(name, key)]
           else [(lit "Content-Type", lit "application/json"); (name, key)])
  /\ (apiKeyHeaderName config = None \/ apiKeyHeaderName config = Some []
      \/ apiKeyHeaderValue config = None
      \/ apiKeyHeaderValue config = Some [] ->
      headers request = [(lit "Content-Type", lit "application/json")]).
Proof.
  unfold requestOf. cbn [headers]. split.
  - intros name key -> -> Hn Hk _.
    destruct name as [|c name]; [congruence|].
    destruct key as [|d key]; [congruence|]. cbn [truthy andb].
    split; [apply JSProps.lookup_setProp_same|].
    cbn [setProp]. destruct (eqb (lit "Content-Type") (c :: name)) eqn:E;
      [|reflexivity].
    apply JSProps.eqb_eq in E. now rewrite <- E.
  - intros [H | [H | [H | H]]]; rewrite H;
      destruct (apiKeyHeaderName config) as [[|c name]|];
      destruct (apiKeyHeaderValue config) as [[|d key]|];
      try reflexivity; discriminate.
Qed.

End Failures.

Lemma callLLM_failures_witness :
  let run :=
    callLLM (statusTransport 503) noStringify baseConfig (lit "Test prompt")
      {| world := tt; calls := [] |} in
  fst run = Throw (LLMError (lit "LLM request failed: 503"))
  /\ exists m,
       LLMError (lit "LLM request failed: 503") = LLMError m
       /\ failure (statusTransport 503) baseConfig m.
Proof.
  split; [reflexivity|].
  exact (callLLM_failures _ _ (statusTransport 503) noStringify baseConfig
           (lit "Test prompt") {| world := tt; calls := [] |} _ eq_refl).
Defined.

Lemma callLLM_returns_witness :
  let run :=
    callLLM flakyTransport noStringify baseConfig (lit "Test prompt")
      {| world := 0; calls := [] |} in
  fst run = Return (lit "Success on retry")
  /\ exists response w w',
       flakyTransport (requestOf noStringify baseConfig (lit "Test prompt")) w
       = (Return response, w')
       /\ (status response < 400)%Z
       /\ fieldAt ollamaPath (json response)
          = Some (VString (lit "Success on retry")).
Proof.
  split; [reflexivity|].
  exact (callLLM_returns _ _ flakyTransport noStringify baseConfig
           (lit "Test prompt") {| world := 0; calls := [] |} _ eq_refl).
Defined.

Lemma api_key_header_witness :
  let config : LLMConfig QArith_base.Q :=
    {| provider := openai;
       baseUrl := lit "https://api.openai.com";
       endpointPath := lit "/v1/chat/completions";
       model := lit "gpt-4o";
       apiKeyHeaderName := Some (lit "Authorization");
       apiKeyHeaderValue := Some (lit "Bearer sk-test");
       temperature := QArith_base.Qmake 1 2;
       maxTokens := QArith_base.Qmake 2000 1;
       timeoutSeconds := QArith_base.Qmake 60 1 |} in
  lookup (lit "Authorization")
    (headers (requestOf noStringify config (lit "Test prompt")))
  = Some (lit "Bearer sk-test")
  /\ headers (requestOf noStringify baseConfig (lit "Test prompt"))
     = [(lit "Content-Type", lit "application/json")].
Proof.
  intros config. split.
  - refine (proj1 (proj1 (api_key_header _ noStringify config
                            (lit "Test prompt"))
                     (lit "Authorization") (lit "Bearer sk-test")
                     eq_refl eq_refl _ _ _)); discriminate.
  - exact (proj2 (api_key_header _ noStringify baseConfig (lit "Test prompt"))
             (or_introl eq_refl)).
Defined.

End LLMClientProps.

(* ================================================================= *)
(** ** Properties of the commands and of the settings *)

Module PluginProps.
Import JS Summarize LLMClient LLMClientProps JSProps Plugin.

(** *** summarizeCurrentNote *)

Section Commands.

Variable number : Type.
Variable World : Type.
Variable requestUrlImpl :
  RequestUrlParam -> World -> completion (RequestUrlResponse number) * World.
Variable JSON_stringify : value number -> jsstring.
Variable vault_read : TFile -> World -> completion jsstring * World.
Variable vault_modify : TFile -> jsstring -> World -> completion unit * World.

Implicit Types (s : App number World) (file : TFile).

(** The state after a call into the platform that left it in [w]. *)
Local Abbreviation platformAt s w :=
  {| llm := llm s;
     client := {| world := w; calls := calls (client s) |};
     notices := notices s;
     modifications := modifications s;
     replacements := replacements s;
     console := console s |}.

Local Abbreviation summarizing :=
  {| message := lit "Summarizing note..."; duration := None |}.

Lemma summarize_eq file s :
  summarizeCurrentNote requestUrlImpl JSON_stringify vault_read vault_modify
    (Some file) s
  = let started :=
      snd (newNotice (lit "Summarizing note...") None s) in
    let failed e s' :=
      catchClause (lit "Note summarization failed:") e s' in
    match vault_read file (world (client s)) with
    | (Throw e, w) => failed e (platformAt started w)
    | (Return content, w) =>
        match call requestUrlImpl JSON_stringify
                (buildSummaryPrompt content (basename file))
                (platformAt started w) with
        | (Throw e, s2) => failed e s2
        | (Return summary, s2) =>
            match modify vault_modify file
                    (insertSummarySection content summary) s2 with
            | (Throw e, s3) => failed e s3
            | (Return _, s3) =>
                newNotice (lit "Summary added to note.") None s3
            end
        end
    end.
Proof.
  cbv zeta. unfold summarizeCurrentNote, tryCatch, andThen.
  cbn [newNotice snd]. unfold read, onPlatform at 1.
  cbn [client world calls llm notices modifications replacements console].
  destruct (vault_read file (world (client s))) as [[content|e] w];
    [|reflexivity].
  destruct (call _ _ _ _) as [[summary|e] s2]; [|reflexivity].
  destruct (modify _ _ _ _) as [[u|e] s3]; reflexivity.
Qed.

(** The [catch] clause shows one notice that stays, logs the error, and
    touches nothing else. *)
Lemma catchClause_eq label e s :
  catchClause label e s
  = (Return tt,
     {| llm := llm s; client := client s;
        notices :=
          notices s
          ++ [{| message := match e with
                            | LLMError m => lit "LLM Error: " ++ m
                            | OtherError m => lit "Error: " ++ m
                            | NotAnError _ =>
                                lit "An unexpected error occurred."
                            end;
                 duration := Some 0%Z |}];
        modifications := modifications s;
        replacements := replacements s;
        console := console s ++ [(label, e)] |}).
Proof. destruct e; reflexivity. Qed.

Lemma call_eq prompt s :
  call requestUrlImpl JSON_stringify prompt s
  = let run := callLLM requestUrlImpl JSON_stringify (llm s) prompt
                 (client s) in
    (fst run,
     {| llm := llm s; client := snd run; notices := notices s;
        modifications := modifications s;
        replacements := replacements s;
        console := console s |}).
Proof.
  unfold call. cbv zeta.
  now destruct (callLLM requestUrlImpl JSON_stringify (llm s) prompt
                  (client s)).
Qed.

Lemma modify_eq file data s :
  modify vault_modify file data s
  = let answer := vault_modify file data (world (client s)) in
    (fst answer,
     {| llm := llm s;
        client := {| world := snd answer; calls := calls (client s) |};
        notices := notices s;
        modifications := modifications s ++ [(file, data)];
        replacements := replacements s;
        console := console s |}).
Proof.
  unfold modify, onPlatform. cbv zeta.
  cbn [llm client notices modifications replacements console].
  now destruct (vault_modify file data (world (client s))).
Qed.

(** When the file is read, the model answers and the vault takes the
    write, the command writes once, to the file it was given: the summary
    merged into the content that it read, for the prompt built from that
    content and the name of the file.  It shows the two notices of a
    success and logs nothing. *)
Theorem summarize_writes_merge file s content w1 summary r2 w3 :
  vault_read file (world (client s)) = (Return content, w1) ->
  callLLM requestUrlImpl JSON_stringify (llm s)
    (buildSummaryPrompt content (basename file))
    {| world := w1; calls := calls (client s) |}
  = (Return summary, r2) ->
  vault_modify file (insertSummarySection content summary) (world r2)
  = (Return tt, w3) ->
  summarizeCurrentNote requestUrlImpl JSON_stringify vault_read vault_modify
    (Some file) s
  = (Return tt,
     {| llm := llm s;
        client := {| world := w3; calls := calls r2 |};
        notices :=
          notices s
          ++ [summarizing;
              {| message := lit "Summary added to note.";
                 duration := None |}];
        modifications :=
          modifications s ++ [(file, insertSummarySection content summary)];
        replacements := replacements s;
        console := console s |}).
Proof.
  intros Hread Hcall Hmodify. rewrite summarize_eq. cbv zeta.
  rewrite Hread, call_eq. cbv zeta.
  cbn [newNotice snd llm client notices modifications replacements console].
  rewrite Hcall. cbn [fst snd]. rewrite modify_eq. cbv zeta.
  cbn [llm client notices modifications replacements console].
  rewrite Hmodify. cbn [fst snd newNotice llm client notices modifications
                          replacements console].
  unfold newNotice.
  cbn [llm client notices modifications replacements console].
  now rewrite <- app_assoc.
Qed.

(** When the call of the model fails, nothing is written: the failure is an
    [LLMError] with one of the messages of [callLLM], the user gets the
    notice [LLM Error: ...] with that message, which stays until it is
    clicked, and the error is logged. *)
Theorem summarize_failure_notice file s content w1 e :
  vault_read file (world (client s)) = (Return content, w1) ->
  fst (callLLM requestUrlImpl JSON_stringify (llm s)
         (buildSummaryPrompt content (basename file))
         {| world := w1; calls := calls (client s) |})
  = Throw e ->
  exists m,
    e = LLMError m
    /\ failure requestUrlImpl (llm s) m
    /\ let s' := snd (summarizeCurrentNote requestUrlImpl JSON_stringify
                        vault_read vault_modify (Some file) s) in
       notices s'
       = notices s
         ++ [summarizing;
             {| message := lit "LLM Error: " ++ m; duration := Some 0%Z |}]
       /\ modifications s' = modifications s
       /\ console s'
          = console s ++ [(lit "Note summarization failed:", e)].
Proof.
  intros Hread Hcall.
  destruct (callLLM_throws _ _ _ _ _ _ _ _ Hcall) as (m & -> & Hm).
  exists m. split; [reflexivity|]. split; [exact Hm|].
  rewrite summarize_eq. cbv zeta. rewrite Hread, call_eq. cbv zeta.
  cbn [newNotice snd llm client notices modifications replacements console].
  destruct (callLLM requestUrlImpl JSON_stringify (llm s)
              (buildSummaryPrompt content (basename file))
              {| world := w1; calls := calls (client s) |}) as [res r2].
  cbn [fst] in Hcall. subst res. cbn [fst snd]. rewrite catchClause_eq.
  cbn [snd notices modifications console llm client replacements].
  rewrite <- app_assoc. repeat split.
Qed.

(** Whatever the platform does, the command resolves: every failure is
    caught.  It leaves the settings and the editor alone, sends at most two
    requests, and invokes [vault.modify] at most once: for the file it was
    given, with the merge of a summary into the content that it read. *)
Theorem summarize_safe (file : option TFile) s :
  let run := summarizeCurrentNote requestUrlImpl JSON_stringify vault_read
               vault_modify file s in
  fst run = Return tt
  /\ llm (snd run) = llm s
  /\ replacements (snd run) = replacements s
  /\ (exists n,
         n <= 2
         /\ length (calls (client (snd run)))
            = length (calls (client s)) + n)
  /\ (modifications (snd run) = modifications s
      \/ exists f content summary,
           file = Some f
           /\ fst (vault_read f (world (client s))) = Return content
           /\ modifications (snd run)
              = modifications s
                ++ [(f, insertSummarySection content summary)]).
Proof.
  cbv zeta. destruct file as [file|].
  2:{ cbn. repeat split; [exists 0; split; [lia|now rewrite Nat.add_0_r]
                         |now left]. }
  rewrite summarize_eq. cbv zeta.
  destruct (vault_read file (world (client s))) as [[content|e] w1] eqn:Hread.
  2:{ rewrite catchClause_eq. cbn.
      repeat split; [exists 0; split; [lia|now rewrite Nat.add_0_r]
                    |now left]. }
  rewrite call_eq. cbv zeta.
  cbn [newNotice snd llm client notices modifications replacements console].
  set (prompt := buildSummaryPrompt content (basename file)).
  assert (Hn : exists n,
             n <= 2
             /\ length (calls (snd (callLLM requestUrlImpl JSON_stringify
                                      (llm s) prompt
                                      {| world := w1;
                                         calls := calls (client s) |})))
                = length (calls (client s)) + n).
  { rewrite callLLM_attempts.
    destruct (attempts_calls _ _ requestUrlImpl (llm s)
                (requestOf JSON_stringify (llm s) prompt) [0; 1] None
                {| world := w1; calls := calls (client s) |})
      as (n & Hle & _ & E).
    exists n. split; [exact Hle|].
    rewrite E, length_app, repeat_length. reflexivity. }
  destruct (callLLM requestUrlImpl JSON_stringify (llm s) prompt
              {| world := w1; calls := calls (client s) |})
    as [[summary|e] r2]; cbn [fst snd] in *.
  2:{ rewrite catchClause_eq. cbn. repeat split; [exact Hn|now left]. }
  rewrite modify_eq. cbv zeta.
  cbn [llm client notices modifications replacements console].
  assert (Hw : exists f content0 summary0,
             Some file = Some f
             /\ fst (vault_read f (world (client s))) = Return content0
             /\ modifications s
                ++ [(file, insertSummarySection content summary)]
                = modifications s
                  ++ [(f, insertSummarySection content0 summary0)]).
  { exists file, content, summary. now rewrite Hread. }
  destruct (vault_modify file (insertSummarySection content summary)
              (world r2)) as [[[]|e] w3]; cbn [fst snd].
  - cbn. repeat split; [exact Hn|right; exact Hw].
  - rewrite catchClause_eq. cbn. repeat split; [exact Hn|right; exact Hw].
Qed.

End Commands.

(** *** sprinkleAI *)

Section Sprinkle.

Variable number : Type.
Variable World : Type.
Variable requestUrlImpl :
  RequestUrlParam -> World -> completion (RequestUrlResponse number) * World.
Variable JSON_stringify : value number -> jsstring.
Variable editor_getSelection : World -> jsstring.
Variable editor_getCursor_from : World -> EditorPosition.
Variable editor_replaceRange :
  jsstring -> EditorPosition -> World -> completion unit * World.
Variable showSprinklePromptModal :
  jsstring -> World -> option jsstring * World.
Variable showSprinkleReviewModal :
  jsstring -> World -> SprinkleReviewResult * World.
Variable buildSprinklePrompt : jsstring -> jsstring -> jsstring.

Implicit Types (s : App number World).

(** What a step leaves as it is: the file modifications; the replacements
    in the editor; the requests. *)
Local Abbreviation sameWrites s s' :=
  (modifications s' = modifications s
   /\ replacements s' = replacements s).

Lemma call_frame prompt s :
  let run := call requestUrlImpl JSON_stringify prompt s in
  sameWrites s (snd run)
  /\ exists n,
       1 <= n <= 2
       /\ length (calls (client (snd run))) = length (calls (client s)) + n.
Proof.
  cbv zeta. rewrite call_eq. cbv zeta. cbn [snd modifications replacements
                                              client].
  split; [split; reflexivity|].
  rewrite callLLM_attempts.
  destruct (attempts_calls _ _ requestUrlImpl (llm s)
              (requestOf JSON_stringify (llm s) prompt) [0; 1] None
              (client s))
    as (n & Hle & Hge & E).
  exists n. split; [cbn in Hle; specialize (Hge ltac:(discriminate)); lia|].
  now rewrite E, length_app, repeat_length.
Qed.

Lemma reviewModal_frame response s :
  let run := reviewModal showSprinkleReviewModal response s in
  (exists decision, fst run = Return decision)
  /\ sameWrites s (snd run)
  /\ calls (client (snd run)) = calls (client s).
Proof.
  cbv zeta. unfold reviewModal, onPlatform.
  destruct (showSprinkleReviewModal response (world (client s))) as [d w].
  cbn. repeat split. now exists d.
Qed.

Lemma promptModal_frame initialValue s :
  let run := promptModal showSprinklePromptModal initialValue s in
  (exists edited, fst run = Return edited)
  /\ sameWrites s (snd run)
  /\ calls (client (snd run)) = calls (client s).
Proof.
  cbv zeta. unfold promptModal, onPlatform.
  destruct (showSprinklePromptModal initialValue (world (client s)))
    as [d w].
  cbn. repeat split. now exists d.
Qed.

Lemma replaceRange_frame replacement from s :
  let run := replaceRange editor_replaceRange replacement from s in
  modifications (snd run) = modifications s
  /\ replacements (snd run) = replacements s ++ [(replacement, from)]
  /\ calls (client (snd run)) = calls (client s).
Proof.
  cbv zeta. unfold replaceRange, onPlatform.
  cbn [llm client notices modifications replacements console].
  destruct (editor_replaceRange replacement from (world (client s)))
    as [d w].
  cbn. repeat split.
Qed.

Lemma sprinkleLoop_S fuel selectedText selectionFrom userPrompt s :
  sprinkleLoop requestUrlImpl JSON_stringify editor_replaceRange
    showSprinklePromptModal showSprinkleReviewModal buildSprinklePrompt
    (S fuel) selectedText selectionFrom userPrompt s
  = let again :=
      sprinkleLoop requestUrlImpl JSON_stringify editor_replaceRange
        showSprinklePromptModal showSprinkleReviewModal buildSprinklePrompt
        fuel selectedText selectionFrom in
    match call requestUrlImpl JSON_stringify
            (buildSprinklePrompt userPrompt selectedText)
            (snd (newNotice (lit "Sprinkling AI...") None s)) with
    | (Throw e, s2) => (Throw e, s2)
    | (Return response, s2) =>
        match reviewModal showSprinkleReviewModal response s2 with
        | (Throw e, s3) => (Throw e, s3)
        | (Return accept, s3) =>
            match replaceRange editor_replaceRange (response ++ [nl; nl])
                    selectionFrom s3 with
            | (Throw e, s4) => (Throw e, s4)
            | (Return _, s4) => (Return true, s4)
            end
        | (Return retry, s3) =>
            match promptModal showSprinklePromptModal userPrompt s3 with
            | (Throw e, s4) => (Throw e, s4)
            | (Return None, s4) => (Return true, s4)
            | (Return (Some edited), s4) => again edited s4
            end
        | (Return reject, s3) => (Return true, s3)
        | (Return noCase, s3) => again userPrompt s3
        end
    end.
Proof.
  cbv zeta. cbn [sprinkleLoop]. unfold andThen, ret. cbn [newNotice snd].
  destruct (call _ _ _ _) as [[response|e] s2]; [|reflexivity].
  destruct (reviewModal showSprinkleReviewModal response s2)
    as [[[]|e] s3]; try reflexivity.
  destruct (promptModal showSprinklePromptModal userPrompt s3)
    as [[[edited|]|e] s4]; reflexivity.
Qed.

Lemma sprinkleLoop_safe selectedText selectionFrom fuel :
  forall userPrompt s,
    let run :=
      sprinkleLoop requestUrlImpl JSON_stringify editor_replaceRange
        showSprinklePromptModal showSprinkleReviewModal buildSprinklePrompt
        fuel selectedText selectionFrom userPrompt s in
    modifications (snd run) = modifications s
    /\ (replacements (snd run) = replacements s
        \/ (fst run <> Return false
            /\ exists response,
                 replacements (snd run)
                 = replacements s ++ [(response ++ [nl; nl], selectionFrom)]))
    /\ (fst run = Return false ->
        length (calls (client s)) + fuel
        <= length (calls (client (snd run)))).
Proof.
  induction fuel as [|fuel IH]; intros userPrompt s; cbv zeta.
  - cbn. repeat split; [now left|lia].
  - rewrite sprinkleLoop_S. cbv zeta.
    set (s1 := snd (newNotice (lit "Sprinkling AI...") None s)).
    pose proof (call_frame (buildSprinklePrompt userPrompt selectedText) s1)
      as ([Hm2 Hr2] & n & Hn & Hc2).
    cbv zeta in Hm2, Hr2, Hc2.
    destruct (call requestUrlImpl JSON_stringify
                (buildSprinklePrompt userPrompt selectedText) s1)
      as [[response|e] s2]; cbn [snd] in Hm2, Hr2, Hc2.
    2:{ cbn [fst snd]. rewrite Hm2, Hr2.
        repeat split; [now left|discriminate]. }
    pose proof (reviewModal_frame response s2) as (_ & [Hm3 Hr3] & Hc3).
    cbv zeta in Hm3, Hr3, Hc3.
    destruct (reviewModal showSprinkleReviewModal response s2)
      as [[[]|e] s3]; cbn [snd] in Hm3, Hr3, Hc3.
    + pose proof (replaceRange_frame (response ++ [nl; nl]) selectionFrom s3)
        as (Hm4 & Hr4 & Hc4).
      cbv zeta in Hm4, Hr4, Hc4.
      destruct (replaceRange editor_replaceRange (response ++ [nl; nl])
                  selectionFrom s3) as [[u|e] s4];
        cbn [fst snd] in *; rewrite Hm4, Hm3, Hm2, Hr4, Hr3, Hr2;
        (repeat split; [right; split; [discriminate|now exists response]
                       |discriminate]).
    + pose proof (promptModal_frame userPrompt s3) as (_ & [Hm4 Hr4] & Hc4).
      cbv zeta in Hm4, Hr4, Hc4.
      destruct (promptModal showSprinklePromptModal userPrompt s3)
        as [[[edited|]|e] s4]; cbn [snd] in Hm4, Hr4, Hc4.
      * destruct (IH edited s4) as (Hm & Hr & Hc). cbv zeta in Hm, Hr, Hc.
        rewrite Hm, Hm4, Hm3, Hm2. rewrite Hr4, Hr3, Hr2 in Hr.
        repeat split; [exact Hr|].
        intros H. specialize (Hc H). rewrite Hc4, Hc3, Hc2 in Hc.
        cbn [client newNotice snd] in Hc. subst s1. cbn in Hc. lia.
      * cbn [fst snd]. rewrite Hm4, Hm3, Hm2, Hr4, Hr3, Hr2.
        repeat split; [now left|discriminate].
      * cbn [fst snd]. rewrite Hm4, Hm3, Hm2, Hr4, Hr3, Hr2.
        repeat split; [now left|discriminate].
    + cbn [fst snd]. rewrite Hm3, Hm2, Hr3, Hr2.
      repeat split; [now left|discriminate].
    + destruct (IH userPrompt s3) as (Hm & Hr & Hc). cbv zeta in Hm, Hr, Hc.
      rewrite Hm, Hm3, Hm2. rewrite Hr3, Hr2 in Hr.
      repeat split; [exact Hr|].
      intros H. specialize (Hc H). rewrite Hc3, Hc2 in Hc.
      subst s1. cbn in Hc. lia.
    + cbn [fst snd]. rewrite Hm3, Hm2, Hr3, Hr2.
      repeat split; [now left|discriminate].
Qed.



(** A loop that has ended is not changed by a larger bound. *)
Lemma sprinkleLoop_more_fuel selectedText selectionFrom more fuel :
  forall userPrompt s,
    fst (sprinkleLoop requestUrlImpl JSON_stringify editor_replaceRange
           showSprinklePromptModal showSprinkleReviewModal
           buildSprinklePrompt fuel selectedText selectionFrom userPrompt s)
    <> Return false ->
    sprinkleLoop requestUrlImpl JSON_stringify editor_replaceRange
      showSprinklePromptModal showSprinkleReviewModal buildSprinklePrompt
      (fuel + more) selectedText selectionFrom userPrompt s
    = sprinkleLoop requestUrlImpl JSON_stringify editor_replaceRange
        showSprinklePromptModal showSprinkleReviewModal buildSprinklePrompt
        fuel selectedText selectionFrom userPrompt s.
Proof.
  induction fuel as [|fuel IH]; intros userPrompt s H.
  - now destruct H.
  - cbn [Nat.add]. rewrite !sprinkleLoop_S in *. cbv zeta in *.
    destruct (call requestUrlImpl JSON_stringify
                (buildSprinklePrompt userPrompt selectedText)
                (snd (newNotice (lit "Sprinkling AI...") None s)))
      as [[response|e] s2]; [|reflexivity].
    destruct (reviewModal showSprinkleReviewModal response s2)
      as [[[]|e] s3]; try reflexivity.
    + destruct (promptModal showSprinklePromptModal userPrompt s3)
        as [[[edited|]|e] s4]; try reflexivity.
      now apply IH.
    + now apply IH.
Qed.

Lemma sprinkleAI_more_fuel more fuel s :
  fst (sprinkleAI requestUrlImpl JSON_stringify editor_getSelection
         editor_getCursor_from editor_replaceRange showSprinklePromptModal
         showSprinkleReviewModal buildSprinklePrompt fuel s)
  = Return true ->
  sprinkleAI requestUrlImpl JSON_stringify editor_getSelection
    editor_getCursor_from editor_replaceRange showSprinklePromptModal
    showSprinkleReviewModal buildSprinklePrompt (fuel + more) s
  = sprinkleAI requestUrlImpl JSON_stringify editor_getSelection
      editor_getCursor_from editor_replaceRange showSprinklePromptModal
      showSprinkleReviewModal buildSprinklePrompt fuel s.
Proof.
  unfold sprinkleAI, andThen, tryCatch, ret.
  destruct (promptModal showSprinklePromptModal [] s)
    as [[[userPrompt|]|e] s1]; try reflexivity.
  pose proof (sprinkleLoop_more_fuel (editor_getSelection (world (client s)))
                (editor_getCursor_from (world (client s))) more
                fuel userPrompt s1) as Hmore.
  destruct (sprinkleLoop requestUrlImpl JSON_stringify editor_replaceRange
              showSprinklePromptModal showSprinkleReviewModal
              buildSprinklePrompt fuel
              (editor_getSelection (world (client s)))
              (editor_getCursor_from (world (client s))) userPrompt s1)
    as [[done|e] s2] eqn:E; cbn [fst] in *.
  - intros [= ->]. now rewrite Hmore by discriminate.
  - intros _. now rewrite Hmore by discriminate.
Qed.

(** The requests of [s'] are those of [s] and then requests for prompts
    built from [selectedText], under the settings of [s], which [s']
    keeps. *)
Local Abbreviation sprinkled selectedText s s' :=
  (llm s' = llm s
   /\ exists sent,
        calls (client s') = calls (client s) ++ sent
        /\ Forall
             (fun request =>
                exists userPrompt,
                  request
                  = requestOf JSON_stringify (llm s)
                      (buildSprinklePrompt userPrompt selectedText))
             sent).

Lemma sprinkled_refl selectedText s s' :
  llm s' = llm s -> calls (client s') = calls (client s) ->
  sprinkled selectedText s s'.
Proof.
  intros Hl Hc. split; [exact Hl|]. exists []. rewrite app_nil_r.
  split; [exact Hc|constructor].
Qed.

Lemma sprinkled_trans selectedText s1 s2 s3 :
  sprinkled selectedText s1 s2 -> sprinkled selectedText s2 s3 ->
  sprinkled selectedText s1 s3.
Proof.
  intros (Hl1 & sent1 & Hc1 & Hf1) (Hl2 & sent2 & Hc2 & Hf2).
  split; [congruence|]. exists (sent1 ++ sent2).
  rewrite Hc2, Hc1, app_assoc. split; [reflexivity|].
  apply Forall_app. split; [exact Hf1|]. now rewrite Hl1 in Hf2.
Qed.

Lemma call_sprinkled selectedText userPrompt s :
  sprinkled selectedText s
    (snd (call requestUrlImpl JSON_stringify
            (buildSprinklePrompt userPrompt selectedText) s)).
Proof.
  rewrite call_eq. cbv zeta. cbn [snd llm client].
  split; [reflexivity|]. rewrite callLLM_attempts.
  destruct (attempts_calls _ _ requestUrlImpl (llm s)
              (requestOf JSON_stringify (llm s)
                 (buildSprinklePrompt userPrompt selectedText))
              [0; 1] None (client s))
    as (n & _ & _ & E).
  eexists. split; [exact E|].
  apply Forall_forall. intros request Hin. apply repeat_spec in Hin.
  now exists userPrompt.
Qed.

Lemma sprinkleLoop_requests selectedText selectionFrom fuel :
  forall userPrompt s,
    sprinkled selectedText s
      (snd (sprinkleLoop requestUrlImpl JSON_stringify editor_replaceRange
              showSprinklePromptModal showSprinkleReviewModal
              buildSprinklePrompt fuel selectedText selectionFrom
              userPrompt s)).
Proof.
  induction fuel as [|fuel IH]; intros userPrompt s.
  - now apply sprinkled_refl.
  - rewrite sprinkleLoop_S. cbv zeta.
    set (s1 := snd (newNotice (lit "Sprinkling AI...") None s)).
    assert (H1 : sprinkled selectedText s s1) by now apply sprinkled_refl.
    pose proof (call_sprinkled selectedText userPrompt s1) as H2.
    destruct (call requestUrlImpl JSON_stringify
                (buildSprinklePrompt userPrompt selectedText) s1)
      as [[response|e] s2]; cbn [snd] in H2.
    2:{ exact (sprinkled_trans _ _ _ _ H1 H2). }
    pose proof (sprinkled_trans _ _ _ _ H1 H2) as H12.
    assert (H3 : sprinkled selectedText s2
                   (snd (reviewModal showSprinkleReviewModal response s2))).
    { unfold reviewModal, onPlatform.
      destruct (showSprinkleReviewModal response (world (client s2))).
      now apply sprinkled_refl. }
    destruct (reviewModal showSprinkleReviewModal response s2)
      as [[[]|e] s3]; cbn [snd] in H3;
      pose proof (sprinkled_trans _ _ _ _ H12 H3) as H13;
      try exact H13.
    + assert (H4 : sprinkled selectedText s3
                     (snd (replaceRange editor_replaceRange
                             (response ++ [nl; nl]) selectionFrom s3))).
      { unfold replaceRange, onPlatform.
        cbn [llm client notices modifications replacements console].
        destruct (editor_replaceRange (response ++ [nl; nl]) selectionFrom
                    (world (client s3))).
        now apply sprinkled_refl. }
      destruct (replaceRange editor_replaceRange (response ++ [nl; nl])
                  selectionFrom s3) as [[u|e] s4]; cbn [snd] in *;
        exact (sprinkled_trans _ _ _ _ H13 H4).
    + assert (H4 : sprinkled selectedText s3
                     (snd (promptModal showSprinklePromptModal userPrompt
                             s3))).
      { unfold promptModal, onPlatform.
        destruct (showSprinklePromptModal userPrompt (world (client s3))).
        now apply sprinkled_refl. }
      destruct (promptModal showSprinklePromptModal userPrompt s3)
        as [[[edited|]|e] s4]; cbn [snd] in *;
        pose proof (sprinkled_trans _ _ _ _ H13 H4) as H14;
        try exact H14.
      exact (sprinkled_trans _ _ _ _ H14 (IH edited s4)).
    + exact (sprinkled_trans _ _ _ _ H13 (IH userPrompt s3)).
Qed.

(** A replacement in the editor is the last thing the loop does, and it
    is made of the response that the model gave in the last iteration and
    that the user accepted: [k] iterations leave the loop open in [s1], the
    call of the next one returns [response], and the review of that
    response resolves to [accept]. *)
Lemma sprinkleLoop_accepted selectedText selectionFrom fuel :
  forall userPrompt s,
    let loop fuel :=
      sprinkleLoop requestUrlImpl JSON_stringify editor_replaceRange
        showSprinklePromptModal showSprinkleReviewModal buildSprinklePrompt
        fuel selectedText selectionFrom userPrompt s in
    replacements (snd (loop fuel)) = replacements s
    \/ (fst (loop fuel) <> Return false
        /\ exists k lastPrompt s1 response r2 w3,
             k < fuel
             /\ loop k = (Return false, s1)
             /\ callLLM requestUrlImpl JSON_stringify (llm s1)
                  (buildSprinklePrompt lastPrompt selectedText) (client s1)
                = (Return response, r2)
             /\ showSprinkleReviewModal response (world r2) = (accept, w3)
             /\ replacements (snd (loop fuel))
                = replacements s ++ [(response ++ [nl; nl], selectionFrom)]
             /\ world (client (snd (loop fuel)))
                = snd (editor_replaceRange (response ++ [nl; nl])
                         selectionFrom w3)
             /\ calls (client (snd (loop fuel))) = calls r2).
Proof.
  induction fuel as [|fuel IH]; intros userPrompt s; cbv beta zeta.
  - now left.
  - cbv beta zeta in IH.
    assert (Hnext : forall k edited w3 w4 response r2 s1,
               callLLM requestUrlImpl JSON_stringify (llm s)
                 (buildSprinklePrompt userPrompt selectedText) (client s)
               = (Return response, r2) ->
               (showSprinkleReviewModal response (world r2) = (noCase, w4)
                /\ edited = userPrompt
                \/ showSprinkleReviewModal response (world r2) = (retry, w3)
                   /\ showSprinklePromptModal userPrompt w3
                      = (Some edited, w4)) ->
               sprinkleLoop requestUrlImpl JSON_stringify editor_replaceRange
                 showSprinklePromptModal showSprinkleReviewModal
                 buildSprinklePrompt k selectedText selectionFrom edited
                 {| llm := llm s;
                    client := {| world := w4; calls := calls r2 |};
                    notices :=
                      notices s ++ [{| message := lit "Sprinkling AI...";
                                       duration := None |}];
                    modifications := modifications s;
                    replacements := replacements s;
                    console := console s |}
               = (Return false, s1) ->
               sprinkleLoop requestUrlImpl JSON_stringify editor_replaceRange
                 showSprinklePromptModal showSprinkleReviewModal
                 buildSprinklePrompt (S k) selectedText selectionFrom
                 userPrompt s
               = (Return false, s1)).
    { intros k edited w3 w4 response r2 s1 Ec Hd Hl.
      rewrite sprinkleLoop_S. cbv zeta. rewrite call_eq. cbv zeta.
      cbn [newNotice snd llm client notices modifications replacements
             console].
      rewrite Ec. cbn [fst snd]. unfold reviewModal, onPlatform.
      cbn [llm client world calls notices modifications replacements
             console].
      destruct Hd as [[Er ->]|[Er Ep]]; rewrite Er.
      - exact Hl.
      - unfold promptModal, onPlatform.
        cbn [llm client world calls notices modifications replacements
               console].
        rewrite Ep. exact Hl. }
    rewrite sprinkleLoop_S. cbv zeta. rewrite call_eq. cbv zeta.
    cbn [newNotice snd llm client notices modifications replacements
           console].
    destruct (callLLM requestUrlImpl JSON_stringify (llm s)
                (buildSprinklePrompt userPrompt selectedText) (client s))
      as [[response|e] r2] eqn:Ec; cbn [fst snd]; [|now left].
    unfold reviewModal, onPlatform.
    cbn [llm client world calls notices modifications replacements console].
    destruct (showSprinkleReviewModal response (world r2)) as [[] w3] eqn:Er.
    + right. unfold replaceRange, onPlatform.
      cbn [llm client world calls notices modifications replacements
             console].
      destruct (editor_replaceRange (response ++ [nl; nl]) selectionFrom w3)
        as [[u|e] w4] eqn:Ee; cbn [fst snd replacements client world calls];
        (split; [discriminate|]);
        exists 0, userPrompt, s, response, r2, w3;
        (split; [lia|]); repeat split; try assumption;
        now rewrite Ee.
    + unfold promptModal, onPlatform.
      cbn [llm client world calls notices modifications replacements
             console].
      destruct (showSprinklePromptModal userPrompt w3) as [[edited|] w4]
        eqn:Ep; [|now left].
      destruct (IH edited
                  {| llm := llm s;
                     client := {| world := w4; calls := calls r2 |};
                     notices :=
                       notices s ++ [{| message := lit "Sprinkling AI...";
                                        duration := None |}];
                     modifications := modifications s;
                     replacements := replacements s;
                     console := console s |})
        as [Hsame|(Hne & k & lastPrompt & s1 & response' & r2' & w3' & Hk
                   & Hloop & Hrest)]; [now left|right].
      split; [exact Hne|].
      exists (S k), lastPrompt, s1, response', r2', w3'.
      split; [lia|]. split; [|exact Hrest].
      apply (Hnext k edited w3 w4 response r2 s1 eq_refl); [|exact Hloop].
      right. now split.
    + now left.
    + destruct (IH userPrompt
                  {| llm := llm s;
                     client := {| world := w3; calls := calls r2 |};
                     notices :=
                       notices s ++ [{| message := lit "Sprinkling AI...";
                                        duration := None |}];
                     modifications := modifications s;
                     replacements := replacements s;
                     console := console s |})
        as [Hsame|(Hne & k & lastPrompt & s1 & response' & r2' & w3' & Hk
                   & Hloop & Hrest)]; [now left|right].
      split; [exact Hne|].
      exists (S k), lastPrompt, s1, response', r2', w3'.
      split; [lia|]. split; [|exact Hrest].
      apply (Hnext k userPrompt w3 w3 response r2 s1 eq_refl); [|exact Hloop].
      left. now split.
Qed.

(** Whatever the model and the user do, and however many iterations of the
    loop are looked at, the command resolves and writes to no file.  The
    editor gets at most one replacement, and gets it only in a run that has
    ended: at the start of the selection, the response that the model gave
    to the last request, for a prompt built from the selected text, and
    that the user accepted in the review, with an empty line after it;
    nothing is requested after it.  A loop that has not ended after [fuel]
    iterations has sent a request in each, and a run that has ended is the
    same under every larger bound. *)
Theorem sprinkleAI_safe fuel s :
  let command fuel :=
    sprinkleAI requestUrlImpl JSON_stringify editor_getSelection
      editor_getCursor_from editor_replaceRange showSprinklePromptModal
      showSprinkleReviewModal buildSprinklePrompt fuel s in
  let selectedText := editor_getSelection (world (client s)) in
  let selectionFrom := editor_getCursor_from (world (client s)) in
  let run := command fuel in
  (exists done, fst run = Return done)
  /\ modifications (snd run) = modifications s
  /\ (replacements (snd run) = replacements s
      \/ (fst run = Return true
          /\ exists k userPrompt s1 response r2 w3,
               k < fuel
               /\ command k = (Return false, s1)
               /\ callLLM requestUrlImpl JSON_stringify (llm s)
                    (buildSprinklePrompt userPrompt selectedText) (client s1)
                  = (Return response, r2)
               /\ showSprinkleReviewModal response (world r2) = (accept, w3)
               /\ replacements (snd run)
                  = replacements s
                    ++ [(response ++ [nl; nl], selectionFrom)]
               /\ world (client (snd run))
                  = snd (editor_replaceRange (response ++ [nl; nl])
                           selectionFrom w3)
               /\ calls (client (snd run)) = calls r2))
  /\ (fst run = Return false ->
      length (calls (client s)) + fuel
      <= length (calls (client (snd run))))
  /\ (fst run = Return true -> forall more, command (fuel + more) = run).
Proof.
  cbv beta zeta.
  assert (Hmore := fun more => sprinkleAI_more_fuel more fuel s).
  revert Hmore.
  unfold sprinkleAI, andThen, tryCatch, ret.
  pose proof (promptModal_frame [] s) as ([p Hp] & [Hm1 Hr1] & Hc1).
  cbv zeta in Hp, Hm1, Hr1, Hc1.
  assert (Hl1 : llm (snd (promptModal showSprinklePromptModal [] s))
                = llm s).
  { unfold promptModal, onPlatform.
    now destruct (showSprinklePromptModal [] (world (client s))). }
  destruct (promptModal showSprinklePromptModal [] s)
    as [[[userPrompt|]|e] s1]; cbn [fst snd] in Hp, Hm1, Hr1, Hc1, Hl1;
    cbn [fst snd]; [| |discriminate].
  - pose proof (sprinkleLoop_safe (editor_getSelection (world (client s)))
                  (editor_getCursor_from (world (client s)))
                  fuel userPrompt s1) as (Hm & Hr & Hc).
    pose proof (sprinkleLoop_accepted
                  (editor_getSelection (world (client s)))
                  (editor_getCursor_from (world (client s)))
                  fuel userPrompt s1) as Ha.
    cbv beta zeta in Hm, Hr, Hc, Ha. rewrite Hm1 in Hm.
    rewrite Hr1 in Hr, Ha.
    rewrite Hc1 in Hc.
    assert (Hlast :
              replacements
                (snd (sprinkleLoop requestUrlImpl JSON_stringify
                        editor_replaceRange showSprinklePromptModal
                        showSprinkleReviewModal buildSprinklePrompt fuel
                        (editor_getSelection (world (client s)))
                        (editor_getCursor_from (world (client s)))
                        userPrompt s1))
              = replacements s
              \/ exists k lastPrompt s1' response r2 w3,
                   k < fuel
                   /\ sprinkleLoop requestUrlImpl JSON_stringify
                        editor_replaceRange showSprinklePromptModal
                        showSprinkleReviewModal buildSprinklePrompt k
                        (editor_getSelection (world (client s)))
                        (editor_getCursor_from (world (client s)))
                        userPrompt s1
                      = (Return false, s1')
                   /\ callLLM requestUrlImpl JSON_stringify (llm s)
                        (buildSprinklePrompt lastPrompt
                           (editor_getSelection (world (client s))))
                        (client s1')
                      = (Return response, r2)
                   /\ showSprinkleReviewModal response (world r2)
                      = (accept, w3)
                   /\ replacements
                        (snd (sprinkleLoop requestUrlImpl JSON_stringify
                                editor_replaceRange showSprinklePromptModal
                                showSprinkleReviewModal buildSprinklePrompt
                                fuel
                                (editor_getSelection (world (client s)))
                                (editor_getCursor_from (world (client s)))
                                userPrompt s1))
                      = replacements s
                        ++ [(response ++ [nl; nl],
                             editor_getCursor_from (world (client s)))]
                   /\ world
                        (client
                           (snd (sprinkleLoop requestUrlImpl JSON_stringify
                                   editor_replaceRange
                                   showSprinklePromptModal
                                   showSprinkleReviewModal
                                   buildSprinklePrompt fuel
                                   (editor_getSelection (world (client s)))
                                   (editor_getCursor_from (world (client s)))
                                   userPrompt s1)))
                      = snd (editor_replaceRange (response ++ [nl; nl])
                               (editor_getCursor_from (world (client s))) w3)
                   /\ calls
                        (client
                           (snd (sprinkleLoop requestUrlImpl JSON_stringify
                                   editor_replaceRange
                                   showSprinklePromptModal
                                   showSprinkleReviewModal
                                   buildSprinklePrompt fuel
                                   (editor_getSelection (world (client s)))
                                   (editor_getCursor_from (world (client s)))
                                   userPrompt s1)))
                      = calls r2).
    { destruct Ha as [Ha|(_ & k & lastPrompt & s1' & response & r2 & w3 & Hk
                          & Hloop & Hcall & Hrest)]; [now left|right].
      exists k, lastPrompt, s1', response, r2, w3.
      split; [exact Hk|]. split; [exact Hloop|]. split; [|exact Hrest].
      pose proof (proj1 (sprinkleLoop_requests
                           (editor_getSelection (world (client s)))
                           (editor_getCursor_from (world (client s)))
                           k userPrompt s1)) as Hl.
      rewrite Hloop in Hl. cbn [snd] in Hl.
      now rewrite <- Hl1, <- Hl. }
    clear Ha.
    destruct (sprinkleLoop requestUrlImpl JSON_stringify editor_replaceRange
                showSprinklePromptModal showSprinkleReviewModal
                buildSprinklePrompt fuel
                (editor_getSelection (world (client s)))
                (editor_getCursor_from (world (client s))) userPrompt s1)
      as [[done|e] s2]; cbn [fst snd] in *; intros Hmore.
    + split; [now exists done|]. split; [exact Hm|].
      split; [|split; [exact Hc|intros H more; now apply Hmore]].
      destruct Hlast as [Hsame|(k & lastPrompt & s1' & response & r2 & w3
                                & Hk & Hloop & Hrest)]; [now left|right].
      split.
      * destruct Hr as [Hr|[Hd _]]; [|destruct done; congruence].
        destruct Hrest as (_ & _ & Hrep & _). rewrite Hr in Hrep.
        apply (f_equal (@length _)) in Hrep. rewrite length_app in Hrep.
        cbn in Hrep. lia.
      * exists k, lastPrompt, s1', response, r2, w3.
        split; [exact Hk|]. split; [now rewrite Hloop|exact Hrest].
    + rewrite catchClause_eq in *.
      cbn [fst snd modifications replacements client] in *.
      split; [now exists true|]. split; [exact Hm|].
      split; [|split; [discriminate|intros H more; now apply Hmore]].
      destruct Hlast as [Hsame|(k & lastPrompt & s1' & response & r2 & w3
                                & Hk & Hloop & Hrest)]; [now left|right].
      split; [reflexivity|].
      exists k, lastPrompt, s1', response, r2, w3.
      split; [exact Hk|]. split; [now rewrite Hloop|exact Hrest].
  - intros _. split; [now exists true|]. split; [exact Hm1|].
    split; [now left|]. split; [discriminate|reflexivity].
Qed.


End Sprinkle.

(** *** loadSettings *)

Section Load.

Variable number : Type.
Variable numberOfLiteral : QArith_base.Q -> number.
Variable numberToBoolean : number -> bool.

Implicit Types (props target : list (jsstring * value number))
  (key : jsstring) (data : value number).

Local Abbreviation set_ :=
  (fun to (p : jsstring * value number) =>
     if eqb (fst p) (lit "__proto__") then to
     else setProp (fst p) (snd p) to).

Lemma lookup_fold_set key props : forall target,
  NoDup (map fst props) ->
  key <> lit "__proto__" ->
  lookup key (fold_left set_ props target)
  = match lookup key props with
    | Some v => Some v
    | None => lookup key target
    end.
Proof.
  induction props as [|[k v] props IH]; intros target Hnd Hkey;
    [reflexivity|].
  inversion Hnd as [|? ? Hk Hnd']; subst.
  cbn [fold_left fst snd lookup]. rewrite (IH _ Hnd' Hkey).
  destruct (eqb k key) eqn:E.
  - apply eqb_eq in E. subst k.
    rewrite (proj2 (lookup_None _ key props) Hk).
    rewrite (proj2 (eqb_neq key (lit "__proto__")) Hkey).
    apply lookup_setProp_same.
  - destruct (lookup key props); [reflexivity|].
    destruct (eqb k (lit "__proto__")); [reflexivity|].
    apply lookup_setProp_other. apply eqb_neq in E. congruence.
Qed.

(** A property of the result of [Object.assign({}, defaults, source)] is
    the property of the source, if it has it, and the default otherwise. *)
Lemma lookup_assign (defaults : list (jsstring * value number))
  (source : value number) key :
  NoDup (map fst defaults) ->
  NoDup (map fst (ownProperties source)) ->
  key <> lit "__proto__" ->
  lookup key (Object_assign [] [VObject defaults; source])
  = match lookup key (ownProperties source) with
    | Some v => Some v
    | None => lookup key defaults
    end.
Proof.
  intros Hd Hs Hkey. unfold Object_assign, assignFrom. cbn [fold_left].
  rewrite (lookup_fold_set _ _ _ Hs Hkey).
  cbn [ownProperties]. rewrite (lookup_fold_set _ _ _ Hd Hkey).
  now destruct (lookup key defaults).
Qed.

Lemma NoDup_DEFAULT_SETTINGS :
  NoDup (map fst (DEFAULT_SETTINGS numberOfLiteral)).
Proof.
  cbn. repeat (constructor; [cbn; intuition discriminate|]). constructor.
Qed.

Lemma NoDup_DEFAULT_SETTINGS_llm :
  NoDup (map fst (DEFAULT_SETTINGS_llm numberOfLiteral)).
Proof.
  cbn. repeat (constructor; [cbn; intuition discriminate|]). constructor.
Qed.

Lemma lookup_llm_assign props :
  NoDup (map fst props) ->
  lookup (lit "llm")
    (Object_assign [] [VObject (DEFAULT_SETTINGS numberOfLiteral);
                       VObject props])
  = Some match lookup (lit "llm") props with
         | Some v => v
         | None => VObject (DEFAULT_SETTINGS_llm numberOfLiteral)
         end.
Proof.
  intros H.
  rewrite (lookup_assign _ (VObject props) _ NoDup_DEFAULT_SETTINGS H)
    by discriminate.
  cbn [ownProperties]. now destruct (lookup (lit "llm") props).
Qed.

(** The settings after [loadSettings], for stored data that is an object. *)
Lemma loadSettings_stored props key :
  NoDup (map fst props) ->
  key <> lit "__proto__" ->
  lookup key (loadSettings numberOfLiteral numberToBoolean (VObject props))
  = if eqb key (lit "llm")
    then Some match lookup (lit "llm") props with
              | Some stored =>
                  if toBoolean numberToBoolean stored
                  then VObject
                         (Object_assign []
                            [VObject (DEFAULT_SETTINGS_llm numberOfLiteral);
                             stored])
                  else stored
              | None => VObject (DEFAULT_SETTINGS_llm numberOfLiteral)
              end
    else match lookup key props with
         | Some stored => Some stored
         | None => lookup key (DEFAULT_SETTINGS numberOfLiteral)
         end.
Proof.
  intros Hnd Hkey. unfold loadSettings. cbv zeta. cbn [optMember].
  destruct (eqb key (lit "llm")) eqn:E.
  - apply eqb_eq in E. subst key.
    destruct (lookup (lit "llm") props) as [stored|] eqn:El.
    + destruct (toBoolean numberToBoolean stored).
      * apply lookup_setProp_same.
      * now rewrite (lookup_llm_assign _ Hnd), El.
    + now rewrite (lookup_llm_assign _ Hnd), El.
  - apply eqb_neq in E.
    assert (H : lookup key
                  (Object_assign []
                     [VObject (DEFAULT_SETTINGS numberOfLiteral);
                      VObject props])
                = match lookup key props with
                  | Some stored => Some stored
                  | None => lookup key (DEFAULT_SETTINGS numberOfLiteral)
                  end).
    { exact (lookup_assign _ (VObject props) _ NoDup_DEFAULT_SETTINGS Hnd
               Hkey). }
    destruct (lookup (lit "llm") props) as [stored|]; [|exact H].
    destruct (toBoolean numberToBoolean stored); [|exact H].
    rewrite lookup_setProp_other by exact E. exact H.
Qed.

(** [loadSettings] with stored data that is an object: a setting other than
    [llm] is the stored one when the data has it (be it [null]) and the
    default otherwise; with nothing stored ([null]) the settings are the
    defaults. *)
Theorem loadSettings_stored_wins :
  (forall props key,
      NoDup (map fst props) ->
      key <> lit "__proto__" -> key <> lit "llm" ->
      lookup key
        (loadSettings numberOfLiteral numberToBoolean (VObject props))
      = match lookup key props with
        | Some stored => Some stored
        | None => lookup key (DEFAULT_SETTINGS numberOfLiteral)
        end)
  /\ loadSettings numberOfLiteral numberToBoolean VNull
     = DEFAULT_SETTINGS numberOfLiteral.
Proof.
  split; [|reflexivity].
  intros props key Hnd Hkey Hllm.
  rewrite (loadSettings_stored _ _ Hnd Hkey).
  now rewrite (proj2 (eqb_neq key (lit "llm")) Hllm).
Qed.

(** The setting [llm] after [loadSettings], with stored data that is an
    object.  Without a stored [llm] it is the default configuration.  A
    stored [llm] that is truthy is merged over the default configuration,
    property by property.  A stored [llm] that is falsy ([null], [false],
    0, the empty string) is kept as it is, without the defaults. *)
Theorem loadSettings_llm props :
  NoDup (map fst props) ->
  let settings :=
    loadSettings numberOfLiteral numberToBoolean (VObject props) in
  match lookup (lit "llm") props with
  | None =>
      lookup (lit "llm") settings
      = Some (VObject (DEFAULT_SETTINGS_llm numberOfLiteral))
  | Some stored =>
      if toBoolean numberToBoolean stored
      then exists merged,
          lookup (lit "llm") settings = Some (VObject merged)
          /\ (NoDup (map fst (ownProperties stored)) ->
              forall key,
                key <> lit "__proto__" ->
                lookup key merged
                = match lookup key (ownProperties stored) with
                  | Some v => Some v
                  | None => lookup key (DEFAULT_SETTINGS_llm numberOfLiteral)
                  end)
      else lookup (lit "llm") settings = Some stored
  end.
Proof.
  intros Hnd settings. subst settings.
  rewrite (loadSettings_stored _ (lit "llm") Hnd) by discriminate.
  cbn [eqb lit]. change (eqb (lit "llm") (lit "llm")) with true. cbv iota.
  destruct (lookup (lit "llm") props) as [stored|]; [|reflexivity].
  destruct (toBoolean numberToBoolean stored); [|reflexivity].
  eexists. split; [reflexivity|].
  intros Hs key Hkey.
  exact (lookup_assign _ stored key NoDup_DEFAULT_SETTINGS_llm Hs Hkey).
Qed.

End Load.

(** The case of the test suite for a new summary, run through the
    command. *)
Lemma summarize_writes_merge_witness :
  let content := lit "# My Note" ++ [nl; nl] ++ lit "Some content here." in
  let summary := lit "This is the summary." in
  let prompt := buildSummaryPrompt content (basename exampleFile) in
  let sent :=
    {| world := tt; calls := [requestOf noStringify baseConfig prompt] |} in
  exampleVault_read content exampleFile tt = (Return content, tt)
  /\ callLLM (answeringTransport summary) noStringify baseConfig prompt
       {| world := tt; calls := [] |}
     = (Return summary, sent)
  /\ exampleVault_modify exampleFile (insertSummarySection content summary) tt
     = (Return tt, tt)
  /\ summarizeCurrentNote (answeringTransport summary) noStringify
       (exampleVault_read content) exampleVault_modify (Some exampleFile)
       (idle baseConfig)
     = (Return tt,
        {| llm := baseConfig;
           client := sent;
           notices :=
             [{| message := lit "Summarizing note..."; duration := None |};
              {| message := lit "Summary added to note.";
                 duration := None |}];
           modifications :=
             [(exampleFile, insertSummarySection content summary)];
           replacements := [];
           console := [] |}).
Proof.
  intros content summary prompt sent.
  split; [reflexivity|]. split; [reflexivity|]. split; [reflexivity|].
  exact (summarize_writes_merge _ _ (answeringTransport summary) noStringify
           (exampleVault_read content) exampleVault_modify exampleFile
           (idle baseConfig) content tt summary sent tt
           eq_refl eq_refl eq_refl).
Defined.

(** A response with the JSON body [null]: the user is told of a network
    error. *)
Lemma summarize_failure_notice_witness :
  let content := lit "# My Note" in
  let prompt := buildSummaryPrompt content (basename exampleFile) in
  let e :=
    LLMError (lit "Network error after retry: "
              ++ messageOf (nullPropertyError (lit "message"))) in
  exampleVault_read content exampleFile tt = (Return content, tt)
  /\ fst (callLLM nullTransport noStringify baseConfig prompt
            {| world := tt; calls := [] |})
     = Throw e
  /\ exists m,
       e = LLMError m
       /\ failure nullTransport baseConfig m
       /\ let s' :=
            snd (summarizeCurrentNote nullTransport noStringify
                   (exampleVault_read content) exampleVault_modify
                   (Some exampleFile) (idle baseConfig)) in
          notices s'
          = [{| message := lit "Summarizing note..."; duration := None |};
             {| message := lit "LLM Error: " ++ m; duration := Some 0%Z |}]
          /\ modifications s' = []
          /\ console s' = [(lit "Note summarization failed:", e)].
Proof.
  intros content prompt e.
  split; [reflexivity|]. split; [reflexivity|].
  exact (summarize_failure_notice _ _ nullTransport noStringify
           (exampleVault_read content) exampleVault_modify exampleFile
           (idle baseConfig) content tt e eq_refl eq_refl).
Defined.

(** Stored data of an earlier version, with an output folder and a model
    and nothing else. *)
Lemma loadSettings_stored_wins_witness :
  let props : list (jsstring * value QArith_base.Q) :=
    [ (lit "outputFolder", VString (lit "Reviews"));
      (lit "llm", VObject [(lit "model", VString (lit "mistral"))]) ] in
  let settings := loadSettings (fun q => q) rationalToBoolean (VObject props) in
  NoDup (map fst props)
  /\ lookup (lit "outputFolder") settings = Some (VString (lit "Reviews"))
  /\ lookup (lit "maxNotes") settings
     = Some (VNumber (QArith_base.Qmake 50 1)).
Proof.
  intros props settings.
  assert (Hnd : NoDup (map fst props)).
  { repeat (constructor; [cbn; intuition discriminate|]). constructor. }
  split; [exact Hnd|]. split.
  - refine (proj1 (loadSettings_stored_wins _ (fun q => q) rationalToBoolean)
              props (lit "outputFolder") Hnd _ _); discriminate.
  - refine (proj1 (loadSettings_stored_wins _ (fun q => q) rationalToBoolean)
              props (lit "maxNotes") Hnd _ _); discriminate.
Defined.

Lemma loadSettings_llm_witness :
  let props : list (jsstring * value QArith_base.Q) :=
    [ (lit "outputFolder", VString (lit "Reviews"));
      (lit "llm", VObject [(lit "model", VString (lit "mistral"))]) ] in
  let settings := loadSettings (fun q => q) rationalToBoolean (VObject props) in
  NoDup (map fst props)
  /\ exists merged,
       lookup (lit "llm") settings = Some (VObject merged)
       /\ (NoDup (map fst [(lit "model", @VString QArith_base.Q (lit "mistral"))]) ->
           forall key,
             key <> lit "__proto__" ->
             lookup key merged
             = match lookup key
                       [(lit "model", VString (lit "mistral"))] with
               | Some v => Some v
               | None => lookup key (DEFAULT_SETTINGS_llm (fun q => q))
               end).
Proof.
  intros props settings.
  assert (Hnd : NoDup (map fst props)).
  { repeat (constructor; [cbn; intuition discriminate|]). constructor. }
  split; [exact Hnd|].
  exact (loadSettings_llm _ (fun q => q) rationalToBoolean props Hnd).
Defined.

(** A run of the sprinkle command in which the user asks for another try
    and accepts the second response: two requests, one replacement at the
    start of the selection, made of the response and an empty line.  One
    iteration does not end it.  The state of the platform counts the modals
    shown. *)
Example sprinkleAI_retry_then_accept :
  let transport (request : RequestUrlParam) (w : nat) :=
    (Return {| status := 200;
               json := VObject
                         [(lit "message",
                           VObject [(lit "content",
                                     VString (lit "answer"))])] |},
     w) in
  let from := {| line := 3; ch := 0 |} in
  let command fuel :=
    sprinkleAI transport noStringify
      (fun _ => lit "selected") (fun _ => from)
      (fun _ _ w => (Return tt, w))
      (fun initialValue w => (Some (initialValue ++ lit "shorter"), S w))
      (fun _ w => (if w =? 1 then retry else accept, S w))
      (fun userPrompt selectedText =>
         userPrompt ++ lit ": " ++ selectedText)
      fuel
      {| llm := baseConfig;
         client := {| world := 0; calls := [] |};
         notices := []; modifications := []; replacements := [];
         console := [] |} in
  fst (command 1) = Return false
  /\ fst (command 2) = Return true
  /\ replacements (snd (command 2)) = [(lit "answer" ++ [nl; nl], from)]
  /\ modifications (snd (command 2)) = []
  /\ length (calls (client (snd (command 2)))) = 2.
Proof. repeat split. Qed.

(** A stored [llm] of [null] is kept. *)
Example loadSettings_llm_null :
  lookup (lit "llm")
    (loadSettings (fun q : QArith_base.Q => q) rationalToBoolean
       (VObject [(lit "llm", VNull)]))
  = Some VNull.
Proof. reflexivity. Qed.

End PluginProps.

(* ================================================================= *)
(** ** Properties of the settings tab *)

Module SettingsTabProps.
Import JS LLMClient SettingsTab SummarizeProps JSProps.

(** *** trim *)

Lemma trimStart_fixed s :
  (forall c t, s = c :: t -> isWhiteSpace c = false) -> trimStart s = s.
Proof.
  destruct s as [|c t]; [reflexivity|]. intros H. cbn [trimStart].
  now rewrite (H c t eq_refl).
Qed.

Lemma trimEnd_fixed s :
  (forall t c, s = t ++ [c] -> isWhiteSpace c = false) -> trimEnd s = s.
Proof.
  intros H. unfold trimEnd. rewrite trimStart_fixed; [apply rev_involutive|].
  intros c t E. apply (H (rev t) c).
  rewrite <- (rev_involutive s), E. reflexivity.
Qed.

Lemma trim_idem s : trim (trim s) = trim s.
Proof.
  unfold trim at 1. rewrite trimStart_fixed by apply trim_head.
  apply trimEnd_fixed, trim_last.
Qed.

Lemma trimStart_blank_app l s :
  forallb isWhiteSpace l = true -> trimStart (l ++ s) = trimStart s.
Proof.
  induction l as [|c l IH]; [reflexivity|]. cbn [forallb app trimStart].
  intros H. apply andb_true_iff in H as [-> H]. now apply IH.
Qed.

Lemma trim_empty s : trim s = [] <-> forallb isWhiteSpace s = true.
Proof.
  split; [|apply trim_blank].
  intros H. destruct (trim_split s) as (l & r & E & Hl & Hr).
  rewrite H in E. rewrite E, forallb_app, Hl. exact Hr.
Qed.

Lemma trim_In s c : In c (trim s) -> In c s.
Proof.
  intros H. destruct (trim_split s) as (l & r & E & _ & _).
  rewrite E. apply in_or_app. right. apply in_or_app. now left.
Qed.

(** *** split and join *)

Lemma split_nonempty sep s : split sep s <> [].
Proof.
  destruct s as [|c t]; cbn [split]; [discriminate|].
  destruct (c =? sep)%N; [discriminate|].
  destruct (split sep t); discriminate.
Qed.

Lemma split_no_separator sep s : forall piece,
  In piece (split sep s) -> ~ In sep piece.
Proof.
  induction s as [|c t IH]; cbn [split]; intros piece H.
  - destruct H as [<-|[]]. intros [].
  - destruct (N.eqb_spec c sep) as [->|Hc].
    + destruct H as [<-|H]; [intros []|now apply IH].
    + destruct (split sep t) as [|p ps] eqn:E.
      * destruct H as [<-|[]]. intros [->|[]]. congruence.
      * destruct H as [<-|H].
        -- intros [->|Hin]; [congruence|].
           exact (IH p (or_introl eq_refl) Hin).
        -- apply IH. now right.
Qed.

Lemma split_whole sep x : ~ In sep x -> split sep x = [x].
Proof.
  induction x as [|c x IH]; [reflexivity|]. intros H. cbn [split].
  destruct (N.eqb_spec c sep) as [->|_]; [exfalso; apply H; now left|].
  rewrite IH; [reflexivity|]. intros Hin. apply H. now right.
Qed.

Lemma split_app sep x y :
  ~ In sep x -> split sep (x ++ sep :: y) = x :: split sep y.
Proof.
  induction x as [|c x IH]; intros H; cbn [app split].
  - now rewrite N.eqb_refl.
  - destruct (N.eqb_spec c sep) as [->|_]; [exfalso; apply H; now left|].
    rewrite IH; [reflexivity|]. intros Hin. apply H. now right.
Qed.

(** *** Folders to scan *)

(** Whatever is typed, a folder that comes out of the text field is not
    empty, has no white space at its ends and has no comma in it. *)
Theorem foldersToScan_clean value folder :
  In folder (foldersToScan_onChange value) ->
  folder <> [] /\ trim folder = folder /\ ~ In comma folder.
Proof.
  unfold foldersToScan_onChange. intros H.
  apply filter_In in H as [H Hlen]. apply in_map_iff in H as (p & <- & Hp).
  split; [|split].
  - destruct (trim p); [discriminate|discriminate].
  - apply trim_idem.
  - intros Hin. apply trim_In in Hin.
    exact (split_no_separator _ _ _ Hp Hin).
Qed.

Lemma trim_after_space folder :
  trim folder = folder -> trim (space :: folder) = folder.
Proof.
  intros H. unfold trim. cbn [trimStart].
  change (isWhiteSpace space) with true. cbv iota. exact H.
Qed.

Lemma foldersToScan_tail folders : forall before,
  before = [] \/ before = [space] ->
  folders <> [] ->
  (forall folder, In folder folders ->
                  folder <> [] /\ trim folder = folder
                  /\ ~ In comma folder) ->
  filter (fun s => 0 <? length s)
    (map trim (split comma (before ++ join (lit ", ") folders)))
  = folders.
Proof.
  induction folders as [|first folders IH]; intros before Hb Hne Hall;
    [congruence|].
  destruct (Hall first (or_introl eq_refl)) as (Hf & Ht & Hc).
  assert (Hc' : ~ In comma (before ++ first)).
  { intros Hin. apply in_app_or in Hin as [Hin|Hin]; [|contradiction].
    destruct Hb as [-> | ->]; [contradiction|].
    destruct Hin as [E|[]]. discriminate. }
  assert (Ht' : trim (before ++ first) = first).
  { destruct Hb as [-> | ->]; [exact Ht|now apply trim_after_space]. }
  destruct folders as [|next folders].
  - cbn [join]. rewrite (split_whole _ _ Hc'). cbn [map filter]. rewrite Ht'.
    destruct first; [congruence|reflexivity].
  - change (join (lit ", ") (first :: next :: folders))
      with (first ++ comma :: [space] ++ join (lit ", ") (next :: folders)).
    rewrite app_assoc, (split_app _ _ _ Hc'). cbn [map filter]. rewrite Ht'.
    destruct first as [|c first]; [congruence|]. cbn [length Nat.ltb Nat.leb].
    f_equal. apply IH; [now right|discriminate|].
    intros f Hin. apply Hall. now right.
Qed.

(** What the field shows for a list of folders is read back as that list,
    when no folder is empty, has white space at its ends or has a comma in
    it. *)
Theorem foldersToScan_round_trip folders :
  (forall folder, In folder folders ->
                  folder <> [] /\ trim folder = folder
                  /\ ~ In comma folder) ->
  foldersToScan_onChange (foldersToScan_shown folders) = folders.
Proof.
  intros Hall. unfold foldersToScan_onChange, foldersToScan_shown.
  destruct folders as [|first folders]; [reflexivity|].
  apply (foldersToScan_tail (first :: folders) []); auto. discriminate.
Qed.

Lemma split_blank value :
  Forall (fun piece => forallb isWhiteSpace piece = true) (split comma value)
  <-> forallb (fun c => isWhiteSpace c || (c =? comma)%N) value = true.
Proof.
  induction value as [|c t IH]; cbn [split forallb].
  - split; [reflexivity|]. intros _. now repeat constructor.
  - destruct (N.eqb_spec c comma) as [->|Hc].
    + change (isWhiteSpace comma) with false. cbn [orb andb].
      rewrite <- IH. split.
      * intros H. now inversion H.
      * intros H. now constructor.
    + rewrite orb_false_r, andb_true_iff, <- IH.
      destruct (split comma t) as [|p ps] eqn:E;
        [now destruct (split_nonempty comma t)|].
      split.
      * intros H. inversion H as [|? ? Hp Hps]; subst.
        cbn [forallb] in Hp. apply andb_true_iff in Hp as [Hc1 Hp].
        split; [exact Hc1|]. now constructor.
      * intros [Hc1 H]. inversion H as [|? ? Hp Hps]; subst.
        constructor; [|exact Hps]. cbn [forallb]. now rewrite Hc1.
Qed.

(** The list of folders comes out empty, which makes the plugin scan the
    whole vault, exactly for a text of white space and commas. *)
Theorem foldersToScan_none value :
  foldersToScan_onChange value = []
  <-> forallb (fun c => isWhiteSpace c || (c =? comma)%N) value = true.
Proof.
  rewrite <- split_blank. unfold foldersToScan_onChange.
  induction (split comma value) as [|p ps IH]; cbn [map filter].
  - split; [constructor|reflexivity].
  - destruct (trim p) as [|c t] eqn:E; cbn [length Nat.ltb Nat.leb].
    + rewrite IH. apply trim_empty in E. split.
      * intros H. now constructor.
      * intros H. now inversion H.
    + split; [discriminate|]. intros H. inversion H as [|? ? Hp _]; subst.
      apply trim_empty in Hp. congruence.
Qed.

(** *** The number fields *)

(** No digit comes first in [rest]. *)
Local Abbreviation noDigitAhead rest :=
  (match rest with
   | [] => True
   | c :: _ => digitValue c = None
   end).

Lemma leadingDigits_stop n (rest : jsstring) :
  noDigitAhead rest -> leadingDigits (Some n) rest = Some n.
Proof.
  destruct rest as [|c t]; [reflexivity|]. cbn [leadingDigits].
  now intros ->.
Qed.

(** One digit of a decimal numeral is read. *)
Ltac read_digit :=
  change (lit (String ?c ?s)) with (N_of_ascii c :: lit s);
  cbn [app leadingDigits];
  match goal with
  | |- context [digitValue (N_of_ascii ?c)] =>
      let v := eval vm_compute in (digitValue (N_of_ascii c)) in
      change (digitValue (N_of_ascii c)) with v
  end;
  cbv match.

Lemma leadingDigits_uint_acc d (rest : jsstring) :
  noDigitAhead rest ->
  forall acc,
    leadingDigits (Some (Z.pos acc))
      (lit (NilEmpty.string_of_uint d) ++ rest)
    = Some (Z.pos (Pos.of_uint_acc d acc)).
Proof.
  intros Hrest. induction d; intros acc;
    cbn [NilEmpty.string_of_uint Pos.of_uint_acc];
    [apply (leadingDigits_stop _ rest Hrest)|..];
    read_digit; rewrite <- IHd; do 2 f_equal; lia.
Qed.

Lemma leadingDigits_uint d (rest : jsstring) :
  noDigitAhead rest ->
  leadingDigits (Some 0%Z) (lit (NilEmpty.string_of_uint d) ++ rest)
  = Some (Z.of_N (Pos.of_uint d)).
Proof.
  intros Hrest. induction d;
    cbn [NilEmpty.string_of_uint Pos.of_uint];
    [apply (leadingDigits_stop _ rest Hrest)|read_digit; exact IHd|..];
    read_digit; cbn [Z.of_N];
    rewrite <- (leadingDigits_uint_acc _ _ Hrest); reflexivity.
Qed.

(** The text of a positive integer, with white space before it and with
    anything but a digit after it, is read as that integer. *)
Lemma parseInt_shown (ws rest : jsstring) p :
  forallb isWhiteSpace ws = true ->
  noDigitAhead rest ->
  parseInt (ws ++ intToString (Z.pos p) ++ rest) = Some (Z.pos p).
Proof.
  intros Hws Hrest. unfold parseInt. rewrite (trimStart_blank_app _ _ Hws).
  unfold intToString. cbn [Z.to_int NilZero.string_of_int].
  pose proof (DecimalPos.Unsigned.to_uint_nonnil p) as Hnil.
  pose proof (DecimalPos.Unsigned.of_to p) as Hof.
  pose proof (leadingDigits_uint (Pos.to_uint p) rest Hrest) as H.
  rewrite Hof in H. cbn [Z.of_N] in H.
  destruct (Pos.to_uint p) as [|d|d|d|d|d|d|d|d|d|d]; [congruence|..];
    cbn [NilZero.string_of_uint NilEmpty.string_of_uint] in *;
    change (lit (String ?c ?s)) with (N_of_ascii c :: lit s) in *;
    cbn [app] in *;
    match goal with
    | |- context [trimStart (N_of_ascii ?c :: ?t)] =>
        change (trimStart (N_of_ascii c :: t)) with (N_of_ascii c :: t)
    end;
    cbv iota;
    match goal with
    | |- context [(N_of_ascii ?c =? 45)%N] =>
        change (N_of_ascii c =? 45)%N with false;
        change (N_of_ascii c =? 43)%N with false
    end;
    cbv iota; exact H.
Qed.


Lemma leadingDigits_nonneg (s : jsstring) : forall sofar n,
  leadingDigits sofar s = Some n ->
  (forall a, sofar = Some a -> (0 <= a)%Z) ->
  (0 <= n)%Z.
Proof.
  induction s as [|c t IH]; intros sofar n H Hs; cbn [leadingDigits] in H.
  - now apply Hs.
  - unfold digitValue in H.
    destruct ((48 <=? c)%N && (c <=? 57)%N); [|now apply Hs].
    apply (IH _ _ H). intros a Ha.
    assert (E : forall x y : Z, Some x = Some y -> x = y) by congruence.
    apply E in Ha. rewrite <- Ha.
    assert (0 <= match sofar with Some n0 => n0 | None => 0 end)%Z
      by (destruct sofar as [a0|]; [exact (Hs a0 eq_refl)|lia]).
    lia.
Qed.

Section Fields.

Variable number : Type.
Variable numberOfInteger : Z -> number.
Variable JSON_stringify : value number -> jsstring.

(** What a number field shows for a positive integer is read back as that
    integer, also with white space before it and with anything but a digit
    after it: the text after the digits is ignored. *)
Theorem numberField_reads_back (ws rest : jsstring) n :
  forallb isWhiteSpace ws = true ->
  (0 < n < 10 ^ 21)%Z ->
  (forall c t, rest = c :: t -> digitValue c = None) ->
  numberField_onChange numberOfInteger (ws ++ numberField_shown n ++ rest)
  = Some (numberOfInteger n).
Proof.
  intros Hws Hn Hrest. unfold numberField_onChange, numberField_shown.
  destruct n as [|p|p]; try lia.
  rewrite (parseInt_shown ws rest p Hws).
  - reflexivity.
  - destruct rest as [|c t]; [exact I|]. exact (Hrest c t eq_refl).
Qed.

(** A number field stores nothing for a text that, after the white space
    at its start, is empty, begins with a minus sign, or begins with
    something that is neither a digit nor a plus sign. *)
Theorem numberField_rejects (value : jsstring) :
  trimStart value = []
  \/ (exists t, trimStart value = 45%N :: t)
  \/ (exists c t, trimStart value = c :: t
                  /\ c <> 43%N /\ digitValue c = None) ->
  numberField_onChange numberOfInteger value = None.
Proof.
  unfold numberField_onChange, parseInt.
  intros [-> | [[t ->] | (c & t & -> & Hplus & Hdigit)]].
  - reflexivity.
  - cbn [N.eqb Pos.eqb]. cbv iota.
    destruct (leadingDigits None t) as [n|] eqn:E; [|reflexivity].
    cbn [option_map].
    assert (0 <= n)%Z by (apply (leadingDigits_nonneg _ _ _ E); discriminate).
    destruct (Z.ltb_spec 0 (- n)); [lia|reflexivity].
  - destruct (N.eqb_spec c 45) as [->|_].
    + destruct (leadingDigits None t) as [n|] eqn:E; [|reflexivity].
      cbn [option_map].
      assert (0 <= n)%Z
        by (apply (leadingDigits_nonneg _ _ _ E); discriminate).
      destruct (Z.ltb_spec 0 (- n)); [lia|reflexivity].
    + destruct (N.eqb_spec c 43) as [->|_]; [congruence|].
      cbn [leadingDigits]. now rewrite Hdigit.
Qed.

(** *** The provider *)

(** After the provider is set to Ollama the requests go to the local
    endpoint and carry no API key, whatever key was stored; after it is set
    to OpenAI they go to the endpoint of OpenAI and carry the stored key,
    if there is one, as [Authorization].  The model is kept. *)
Theorem provider_switch (llm : LLMConfig number) prompt :
  let local := provider_onChange ollama llm in
  let remote := provider_onChange openai llm in
  url (requestOf JSON_stringify local prompt)
  = lit "http://localhost:11434/api/chat"
  /\ headers (requestOf JSON_stringify local prompt)
     = [(lit "Content-Type", lit "application/json")]
  /\ url (requestOf JSON_stringify remote prompt)
     = lit "https://api.openai.com/v1/chat/completions"
  /\ headers (requestOf JSON_stringify remote prompt)
     = (lit "Content-Type", lit "application/json")
       :: match apiKeyHeaderValue llm with
          | Some (c :: key) => [(lit "Authorization", c :: key)]
          | _ => []
          end
  /\ model local = model llm
  /\ model remote = model llm.
Proof.
  cbv zeta. unfold requestOf, provider_onChange.
  cbn [url headers baseUrl endpointPath apiKeyHeaderName apiKeyHeaderValue
         model].
  repeat split. destruct (apiKeyHeaderValue llm) as [[|c key]|]; reflexivity.
Qed.

End Fields.

Lemma foldersToScan_clean_witness :
  let value := lit " Projects , ,Daily Notes,," in
  In (lit "Daily Notes") (foldersToScan_onChange value)
  /\ lit "Daily Notes" <> []
  /\ trim (lit "Daily Notes") = lit "Daily Notes"
  /\ ~ In comma (lit "Daily Notes").
Proof.
  intros value.
  assert (H : In (lit "Daily Notes") (foldersToScan_onChange value))
    by (right; left; reflexivity).
  split; [exact H|].
  exact (foldersToScan_clean value (lit "Daily Notes") H).
Defined.

Lemma foldersToScan_round_trip_witness :
  let folders := [lit "Projects"; lit "Daily Notes"] in
  (forall folder, In folder folders ->
                  folder <> [] /\ trim folder = folder
                  /\ ~ In comma folder)
  /\ foldersToScan_shown folders = lit "Projects, Daily Notes"
  /\ foldersToScan_onChange (foldersToScan_shown folders) = folders.
Proof.
  intros folders.
  assert (H : forall folder, In folder folders ->
                             folder <> [] /\ trim folder = folder
                             /\ ~ In comma folder).
  { intros folder [<-|[<-|[]]];
      (split; [discriminate|]; split; [reflexivity|]);
      cbn; intuition discriminate. }
  split; [exact H|]. split; [reflexivity|].
  exact (foldersToScan_round_trip folders H).
Defined.

Lemma numberField_reads_back_witness :
  forallb isWhiteSpace [space] = true
  /\ (0 < 1000 < 10 ^ 21)%Z
  /\ (forall c t, lit " tokens" = c :: t -> digitValue c = None)
  /\ numberField_onChange (fun n : Z => n) (lit " 1000 tokens") = Some 1000%Z.
Proof.
  assert (Hn : (0 < 1000 < 10 ^ 21)%Z) by (split; reflexivity).
  assert (Hrest : forall c t, lit " tokens" = c :: t -> digitValue c = None)
    by (intros c t [= <- _]; reflexivity).
  split; [reflexivity|]. split; [exact Hn|]. split; [exact Hrest|].
  exact (numberField_reads_back _ (fun n : Z => n) [space] (lit " tokens")
           1000 eq_refl Hn Hrest).
Defined.

Lemma numberField_rejects_witness :
  (exists t, trimStart (lit " -5") = 45%N :: t)
  /\ numberField_onChange (fun n : Z => n) (lit " -5") = None.
Proof.
  assert (H : exists t, trimStart (lit " -5") = 45%N :: t)
    by (now exists (lit "5")).
  split; [exact H|].
  exact (numberField_rejects _ (fun n : Z => n) (lit " -5")
           (or_intror (or_introl H))).
Defined.

(** The texts [1.5] and [1e3] are taken for 1, and [0] is not taken. *)
Example numberField_examples :
  numberField_onChange (fun n : Z => n) (lit "1.5") = Some 1%Z
  /\ numberField_onChange (fun n : Z => n) (lit "1e3") = Some 1%Z
  /\ numberField_onChange (fun n : Z => n) (lit "0") = None
  /\ numberField_onChange (fun n : Z => n) (lit "+007") = Some 7%Z.
Proof. repeat split. Qed.

End SettingsTabProps.
